(** * YTLinkerBot: the link extraction and filtering pipeline

    A shallow embedding of [youtube_extractor.py], [link_filter.py], the
    URL pattern and the filter commands of [bot.py] and the message handler
    of [telegram_bot_simple.py], with the properties of the pipeline proved
    against it.

    Text is a sequence of code points below 256 (the Latin-1 range), so the
    character classes of Python ([str.isspace], [str.lower], the [\s] and
    [\w] of [re]) are given by their tables on that range. The scan for
    links needs none of the large tables and is also given on text of any
    code points (module [Wide]), where it agrees with the one on the
    Latin-1 range. *)

From Stdlib Require Import Ascii String List Bool Arith ZArith NArith Lia.
From stdpp Require Import gmap strings.
Import ListNotations.

Local Open Scope bool_scope.
Local Open Scope nat_scope.

(** ** Text *)

Abbreviation str := (list ascii).

Coercion list_ascii_of_string : string >-> list.

Module Text.

Definition code (c : ascii) : nat := nat_of_ascii c.

Definition between (lo hi : nat) (c : ascii) : bool :=
  (lo <=? code c) && (code c <=? hi).

Definition ch_eqb (a b : ascii) : bool := Ascii.eqb a b.

(** [str.isspace], also the class [\s] of [re] on [str] patterns. *)
Definition isspace (c : ascii) : bool :=
  between 9 13 c || between 28 32 c || (code c =? 133) || (code c =? 160).

Definition is_ascii_upper (c : ascii) : bool := between 65 90 c.
Definition is_ascii_lower (c : ascii) : bool := between 97 122 c.
Definition is_ascii_alpha (c : ascii) : bool :=
  is_ascii_upper c || is_ascii_lower c.
Definition is_ascii_digit (c : ascii) : bool := between 48 57 c.

(** The characters [str.lower] changes: A-Z and the upper-case letters
    of Latin-1 (0xC0-0xDE without the multiplication sign 0xD7). *)
Definition is_upper (c : ascii) : bool :=
  is_ascii_upper c || between 192 214 c || between 216 222 c.

Definition lower_char (c : ascii) : ascii :=
  if is_upper c then ascii_of_nat (code c + 32) else c.

(** [s.lower()], on the Latin-1 range, where it maps character by
    character. *)
Definition lower (s : str) : str := map lower_char s.

(** The class [\w] of [re] on [str] patterns: alphanumeric or underscore. *)
Definition is_word (c : ascii) : bool :=
  is_ascii_digit c || is_ascii_alpha c || (code c =? 95)
  || (code c =? 170) || between 178 179 c || (code c =? 181)
  || between 185 186 c || between 188 190 c
  || between 192 214 c || between 216 246 c || between 248 255 c.

(** [s.lstrip(chars)], with the set of characters as a predicate. *)
Fixpoint lstrip_of (p : ascii -> bool) (s : str) : str :=
  match s with
  | c :: s' => if p c then lstrip_of p s' else s
  | [] => []
  end.

Definition rstrip_of (p : ascii -> bool) (s : str) : str :=
  rev (lstrip_of p (rev s)).

(** [s.strip()] *)
Definition strip (s : str) : str := rstrip_of isspace (lstrip_of isspace s).

(** [s.startswith(p)] *)
Fixpoint startswith (p s : str) : bool :=
  match p, s with
  | [], _ => true
  | a :: p', b :: s' => ch_eqb a b && startswith p' s'
  | _ :: _, [] => false
  end.

(** [p in s] on strings: [p] occurs in [s] as a contiguous run. *)
Fixpoint contains (p s : str) : bool :=
  startswith p s ||
  match s with
  | [] => false
  | _ :: s' => contains p s'
  end.

(** [c in s] for one character. *)
Definition has_char (c : ascii) (s : str) : bool := existsb (ch_eqb c) s.

(** [s.find(c)] from offset [n] of the whole string: [None] is Python's -1. *)
Fixpoint find_from (n : nat) (c : ascii) (s : str) : option nat :=
  match s with
  | [] => None
  | x :: s' => if ch_eqb c x then Some n else find_from (S n) c s'
  end.

Definition find (c : ascii) (s : str) : option nat := find_from 0 c s.

(** [s.rfind(c)] *)
Fixpoint rfind_from (n : nat) (c : ascii) (s : str) : option nat :=
  match s with
  | [] => None
  | x :: s' =>
      match rfind_from (S n) c s' with
      | Some i => Some i
      | None => if ch_eqb c x then Some n else None
      end
  end.

Definition rfind (c : ascii) (s : str) : option nat := rfind_from 0 c s.

(** [s.replace(c, "")] *)
Definition remove_char (c : ascii) (s : str) : str :=
  List.filter (fun x => negb (ch_eqb c x)) s.

(** [s.replace(a, b)] for single characters. *)
Definition replace_char (a b : ascii) (s : str) : str :=
  map (fun x => if ch_eqb a x then b else x) s.

(** [s.partition(c)]: text before the first [c], whether [c] was found,
    text after it. *)
Definition partition (c : ascii) (s : str) : str * bool * str :=
  match find c s with
  | Some i => (firstn i s, true, skipn (S i) s)
  | None => (s, false, [])
  end.

(** [s.rpartition(c)]: the same around the last [c]; when [c] is absent
    everything is in the third component. *)
Definition rpartition (c : ascii) (s : str) : str * bool * str :=
  match rfind c s with
  | Some i => (firstn i s, true, skipn (S i) s)
  | None => ([], false, s)
  end.

(** [s.split(c, 1)]: one piece, or the two pieces around the first [c]. *)
Definition split1 (c : ascii) (s : str) : list str :=
  match find c s with
  | Some i => [firstn i s; skipn (S i) s]
  | None => [s]
  end.

(** [s.split(sep)] for a non-empty separator: the text is scanned from the
    left, and after an occurrence of [sep] the scan resumes behind it.
    [skip] counts the characters of a separator still to pass over, [cur]
    holds the current piece in reverse. *)
Fixpoint split_scan (sep : str) (skip : nat) (cur : str) (s : str) : list str :=
  match s with
  | [] => [rev cur]
  | c :: s' =>
      match skip with
      | S n => split_scan sep n cur s'
      | O =>
          if startswith sep s
          then rev cur :: split_scan sep (length sep - 1) [] s'
          else split_scan sep 0 (c :: cur) s'
      end
  end.

Definition split (sep : str) (s : str) : list str := split_scan sep 0 [] s.

End Text.

Import Text.

(** ** Regular expressions

    The three patterns of the program are run by a backtracking matcher with
    the semantics of [re]: alternatives are tried from the left, [?] and [+]
    are greedy, and a search reports the leftmost match. *)

Module Re.

Inductive regex : Type :=
| Chr (p : ascii -> bool)        (* one character of a class *)
| Eps                            (* the empty pattern *)
| Seq (r1 r2 : regex)
| Alt (r1 r2 : regex)            (* r1|r2 *)
| Opt (r : regex)                (* (?:r)? *)
| Plus (p : ascii -> bool)       (* [class]+ *)
| Eos.                           (* $ *)

(** [class]* in front of the continuation [k]: the longest run first,
    then shorter ones. *)
Fixpoint star_k (p : ascii -> bool) (s : str) (k : str -> option str)
  : option str :=
  match s with
  | c :: s' =>
      if p c then
        match star_k p s' k with
        | Some r => Some r
        | None => k s
        end
      else k s
  | [] => k []
  end.

(** [match_k r s k]: match [r] at the start of [s], then [k] on what is
    left; the answer is the text behind the whole match. *)
Fixpoint match_k (r : regex) (s : str) (k : str -> option str)
  : option str :=
  match r with
  | Chr p =>
      match s with
      | c :: s' => if p c then k s' else None
      | [] => None
      end
  | Eps => k s
  | Seq r1 r2 => match_k r1 s (fun s' => match_k r2 s' k)
  | Alt r1 r2 =>
      match match_k r1 s k with
      | Some rest => Some rest
      | None => match_k r2 s k
      end
  | Opt r1 =>
      match match_k r1 s k with
      | Some rest => Some rest
      | None => k s
      end
  | Plus p =>
      match s with
      | c :: s' => if p c then star_k p s' k else None
      | [] => None
      end
  | Eos =>
      match s with
      | [] => k s
      | [c] => if ch_eqb c "010" then k s else None
      | _ => None
      end
  end.

(** [pattern.match]: the text behind the match at the start of [s]. *)
Definition match_at (r : regex) (s : str) : option str := match_k r s Some.

(** A literal under [re.IGNORECASE]: each character matches both of its
    cases. *)
Definition chr_ci (c : ascii) : regex :=
  Chr (fun x => ch_eqb (lower_char x) (lower_char c)).

Fixpoint lit_ci (s : str) : regex :=
  match s with
  | [] => Eps
  | [c] => chr_ci c
  | c :: s' => Seq (chr_ci c) (lit_ci s')
  end.

(** [pattern.findall(text)] for a pattern without groups: the matched
    texts from left to right, the scan resuming behind each match. [skip]
    counts the characters of the last match still to pass over. *)
Fixpoint findall_scan (r : regex) (skip : nat) (s : str) : list str :=
  match skip with
  | S n =>
      match s with
      | [] => []
      | _ :: s' => findall_scan r n s'
      end
  | O =>
      match match_at r s with
      | Some rest =>
          let n := length s - length rest in
          firstn n s ::
            match s with
            | [] => []
            | _ :: s' => findall_scan r (n - 1) s'
            end
      | None =>
          match s with
          | [] => []
          | _ :: s' => findall_scan r 0 s'
          end
      end
  end.

Definition findall (r : regex) (s : str) : list str := findall_scan r 0 s.

(** [pattern.search(text)] as a truth value. *)
Fixpoint search (r : regex) (s : str) : bool :=
  match match_at r s with
  | Some _ => true
  | None =>
      match s with
      | [] => false
      | _ :: s' => search r s'
      end
  end.

(** [re.sub(pattern, '', text)]: every match, from the left, is cut out. *)
Fixpoint sub_scan (r : regex) (skip : nat) (s : str) : str :=
  match skip with
  | S n =>
      match s with
      | [] => []
      | _ :: s' => sub_scan r n s'
      end
  | O =>
      match match_at r s with
      | Some rest =>
          let n := length s - length rest in
          match s with
          | [] => []
          | c :: s' => if n =? 0 then c :: sub_scan r 0 s' else sub_scan r (n - 1) s'
          end
      | None =>
          match s with
          | [] => []
          | c :: s' => c :: sub_scan r 0 s'
          end
      end
  end.

Definition sub_empty (r : regex) (s : str) : str := sub_scan r 0 s.

End Re.

Import Re.

Definition dquote : ascii := "034".

(** ** youtube_extractor.py: link scanning *)

Module Links.

(** The class of [https_pattern]: anything but white space, the two angle
    brackets and the double quote. *)
Definition is_link_char (c : ascii) : bool :=
  negb (isspace c || ch_eqb c "<" || ch_eqb c ">" || ch_eqb c dquote).

(** [https://] and one or more characters of the class, compiled with
    [re.IGNORECASE], on the Latin-1 range; [Wide.https_pattern] is the
    pattern on all code points. *)
Definition https_pattern : regex := Seq (lit_ci "https://") (Plus is_link_char).

(** The class [[.,;:!?)}\]]]. *)
Definition is_trailing_punct (c : ascii) : bool :=
  has_char c ".,;:!?)}]".

(** [r'[.,;:!?)}\]]+$'] *)
Definition trailing_pattern : regex := Seq (Plus is_trailing_punct) Eos.

(** One round of the cleaning loop: [cleaned] is the list built so far. *)
Definition clean_step (cleaned : list str) (link : str) : list str :=
  let link := sub_empty trailing_pattern link in
  if negb (bool_decide (link = [])) && negb (bool_decide (link ∈ cleaned))
  then cleaned ++ [link]
  else cleaned.

Definition extract_https_links (text : str) : list str :=
  match text with
  | [] => []
  | _ =>
      let links := findall https_pattern text in
      fold_left clean_step links []
  end.

End Links.

Import Links.

(** ** youtube_extractor.py: link scanning on text of any code points

    The description of a video is not bound to the Latin-1 range, and
    [extract_https_links] needs no table that is out of reach: the white
    space of [\s], two fixed sets of punctuation, and the letters of
    [https://] under [re.IGNORECASE]. Here a text is a list of code points,
    and the matcher is the one of the patterns above with the constructs
    the two patterns use. *)

Module Wide.

(** A text of the Latin-1 range as a list of code points. *)
Definition of_str (s : str) : list N := map N_of_ascii s.

(** [str.isspace] and the class [\s] of [re] on [str] patterns, on all code
    points. *)
Definition isspace (c : N) : bool :=
  ((9 <=? c) && (c <=? 13))%N || ((28 <=? c) && (c <=? 32))%N
  || (c =? 133)%N || (c =? 160)%N || (c =? 5760)%N
  || ((8192 <=? c) && (c <=? 8202))%N
  || (c =? 8232)%N || (c =? 8233)%N || (c =? 8239)%N || (c =? 8287)%N
  || (c =? 12288)%N.

Inductive regex : Type :=
| Chr (p : N -> bool)            (* one character of a class *)
| Eps                            (* the empty pattern *)
| Seq (r1 r2 : regex)
| Plus (p : N -> bool)           (* [class]+ *)
| Eos.                           (* $ *)

Fixpoint star_k (p : N -> bool) (s : list N) (k : list N -> option (list N))
  : option (list N) :=
  match s with
  | c :: s' =>
      if p c then
        match star_k p s' k with
        | Some r => Some r
        | None => k s
        end
      else k s
  | [] => k []
  end.

Fixpoint match_k (r : regex) (s : list N) (k : list N -> option (list N))
  : option (list N) :=
  match r with
  | Chr p =>
      match s with
      | c :: s' => if p c then k s' else None
      | [] => None
      end
  | Eps => k s
  | Seq r1 r2 => match_k r1 s (fun s' => match_k r2 s' k)
  | Plus p =>
      match s with
      | c :: s' => if p c then star_k p s' k else None
      | [] => None
      end
  | Eos =>
      match s with
      | [] => k s
      | [c] => if (c =? 10)%N then k s else None
      | _ => None
      end
  end.

Definition match_at (r : regex) (s : list N) : option (list N) :=
  match_k r s Some.

(** [pattern.findall(text)] *)
Fixpoint findall_scan (r : regex) (skip : nat) (s : list N) : list (list N) :=
  match skip with
  | S n =>
      match s with
      | [] => []
      | _ :: s' => findall_scan r n s'
      end
  | O =>
      match match_at r s with
      | Some rest =>
          let n := length s - length rest in
          firstn n s ::
            match s with
            | [] => []
            | _ :: s' => findall_scan r (n - 1) s'
            end
      | None =>
          match s with
          | [] => []
          | _ :: s' => findall_scan r 0 s'
          end
      end
  end.

Definition findall (r : regex) (s : list N) : list (list N) :=
  findall_scan r 0 s.

(** [re.sub(pattern, '', text)] *)
Fixpoint sub_scan (r : regex) (skip : nat) (s : list N) : list N :=
  match skip with
  | S n =>
      match s with
      | [] => []
      | _ :: s' => sub_scan r n s'
      end
  | O =>
      match match_at r s with
      | Some rest =>
          let n := length s - length rest in
          match s with
          | [] => []
          | c :: s' => if n =? 0 then c :: sub_scan r 0 s' else sub_scan r (n - 1) s'
          end
      | None =>
          match s with
          | [] => []
          | c :: s' => c :: sub_scan r 0 s'
          end
      end
  end.

Definition sub_empty (r : regex) (s : list N) : list N := sub_scan r 0 s.

(** One character out of a set. *)
Definition any_of (set : list N) : regex :=
  Chr (fun x => existsb (N.eqb x) set).

Fixpoint seq_of (sets : list (list N)) : regex :=
  match sets with
  | [] => Eps
  | [set] => any_of set
  | set :: sets' => Seq (any_of set) (seq_of sets')
  end.

(** What each character of [https://] matches under [re.IGNORECASE]: the
    two cases of a letter, and for [s] also U+017F, the long s, whose upper
    case is [S]. *)
Definition https_prefix : list (list N) :=
  [ of_str "hH"; of_str "tT"; of_str "tT"; of_str "pP";
    of_str "sS" ++ [383%N]; of_str ":"; of_str "/"; of_str "/" ].

(** The class of [https_pattern]. *)
Definition is_link_char (c : N) : bool :=
  negb (isspace c || (c =? 60)%N || (c =? 62)%N || (c =? 34)%N).

Definition https_pattern : regex := Seq (seq_of https_prefix) (Plus is_link_char).

(** The class [[.,;:!?)}\]]]. *)
Definition is_trailing_punct (c : N) : bool :=
  existsb (N.eqb c) (of_str ".,;:!?)}]").

Definition trailing_pattern : regex := Seq (Plus is_trailing_punct) Eos.

Definition clean_step (cleaned : list (list N)) (link : list N)
  : list (list N) :=
  let link := sub_empty trailing_pattern link in
  if negb (bool_decide (link = [])) && negb (bool_decide (link ∈ cleaned))
  then cleaned ++ [link]
  else cleaned.

Definition extract_https_links (text : list N) : list (list N) :=
  match text with
  | [] => []
  | _ =>
      let links := findall https_pattern text in
      fold_left clean_step links []
  end.

End Wide.

(** ** urllib.parse

    [urlparse] and [parse_qs] as the standard library of Python 3.11 defines
    them, for [str] arguments and the default keyword arguments. Two library
    routines are taken as parameters: the address parser behind the check of
    bracketed hosts, and the percent-decoder behind [unquote]. *)

Class Library : Type := {
  (** [ipaddress.ip_address(h)] returns an [IPv6Address] *)
  is_ipv6_address : str -> bool;
  (** [unquote] on a text that holds a percent sign: the escapes decoded as
      UTF-8, undecodable bytes replaced *)
  decode_escapes : str -> str
}.

Module Url.

Record ParseResult : Type := {
  scheme : str;
  netloc : str;
  path : str;
  params : str;
  query : str;
  fragment : str
}.

Definition uses_params : list str :=
  [ "" : str; "ftp" : str; "hdl" : str; "prospero" : str; "http" : str;
    "imap" : str; "https" : str; "shttp" : str; "rtsp" : str;
    "rtspu" : str; "sip" : str; "sips" : str; "mms" : str; "sftp" : str;
    "tel" : str ].

(** [scheme_chars]: ASCII letters, digits and [+-.] *)
Definition is_scheme_char (c : ascii) : bool :=
  is_ascii_alpha c || is_ascii_digit c || has_char c "+-.".

(** [_WHATWG_C0_CONTROL_OR_SPACE] *)
Definition is_c0_or_space (c : ascii) : bool := code c <=? 32.

(** [_UNSAFE_URL_BYTES_TO_REMOVE]: tab, carriage return, line feed *)
Definition remove_unsafe (url : str) : str :=
  remove_char "010" (remove_char "013" (remove_char "009" url)).

(** [_splitnetloc(url, 2)]: the domain runs from offset 2 to the earliest
    of the delimiters [/], [?], [#]. *)
Definition is_netloc_delim (c : ascii) : bool := has_char c "/?#".

Fixpoint span_until (p : ascii -> bool) (s : str) : str * str :=
  match s with
  | [] => ([], [])
  | c :: s' =>
      if p c then ([], s)
      else let (a, b) := span_until p s' in (c :: a, b)
  end.

Definition _splitnetloc (url : str) : str * str :=
  span_until is_netloc_delim (skipn 2 url).

(** [_splitparams] *)
Definition _splitparams (url : str) : str * str :=
  match rfind "/" url with
  | Some j =>
      match find ";" (skipn j url) with
      | Some k => (firstn (j + k) url, skipn (S (j + k)) url)
      | None => (url, [])
      end
  | None =>
      match find ";" url with
      | Some i => (firstn i url, skipn (S i) url)
      | None => (firstn (length url - 1) url, url)   (* i = -1 *)
      end
  end.

Section WithLibrary.
Context {lib : Library}.

(** [_check_bracketed_host]: [true] when it returns, [false] when it
    raises. An IPvFuture host is [v], hexadecimal digits, a dot and at
    least one more character. *)
Definition is_hex (c : ascii) : bool :=
  is_ascii_digit c || between 65 70 c || between 97 102 c.

Definition _check_bracketed_host (hostname : str) : bool :=
  match hostname with
  | "v"%char :: t =>
      let (digits, rest) := span_until (fun c => negb (is_hex c)) t in
      negb (bool_decide (digits = [])) &&
      match rest with
      | "."%char :: _ :: _ => true
      | _ => false
      end
  | _ => is_ipv6_address hostname
  end.

(** [_check_bracketed_netloc] *)
Definition _check_bracketed_netloc (netloc : str) : bool :=
  let hostname_and_port := snd (rpartition "@" netloc) in
  let '(before_bracket, have_open_br, bracketed) :=
    partition "[" hostname_and_port in
  if have_open_br then
    if negb (bool_decide (before_bracket = [])) then false
    else
      let '(hostname, _, port) := partition "]" bracketed in
      if negb (bool_decide (port = [])) && negb (startswith ":" port)
      then false
      else _check_bracketed_host hostname
  else
    let '(hostname, _, _) := partition ":" hostname_and_port in
    _check_bracketed_host hostname.

(** [urlsplit(url)]; [None] stands for a raised [ValueError]. The
    normalisation check [_checknetloc] never raises on text of the
    Latin-1 range and is left out. *)
Definition urlsplit (url : str) : option ParseResult :=
  let url := lstrip_of is_c0_or_space url in
  let url := remove_unsafe url in
  let (scheme, url) :=
    match find ":" url, url with
    | Some i, c0 :: _ =>
        if (0 <? i) && is_ascii_alpha c0
           && forallb is_scheme_char (firstn i url)
        then (lower (firstn i url), skipn (S i) url)
        else ([], url)
    | _, _ => ([], url)
    end in
  let split_rest (netloc url : str) : ParseResult :=
    let (url, fragment) :=
      match split1 "#" url with
      | [a; b] => (a, b)
      | _ => (url, [])
      end in
    let (url, query) :=
      match split1 "?" url with
      | [a; b] => (a, b)
      | _ => (url, [])
      end in
    {| scheme := scheme; netloc := netloc; path := url; params := [];
       query := query; fragment := fragment |} in
  if startswith "//" url then
    let (netloc, url) := _splitnetloc url in
    if (has_char "[" netloc && negb (has_char "]" netloc))
       || (has_char "]" netloc && negb (has_char "[" netloc))
    then None
    else if has_char "[" netloc && has_char "]" netloc
            && negb (_check_bracketed_netloc netloc)
    then None
    else Some (split_rest netloc url)
  else Some (split_rest [] url).

(** [urlparse(url)] *)
Definition urlparse (url : str) : option ParseResult :=
  match urlsplit url with
  | None => None
  | Some r =>
      if bool_decide (scheme r ∈ uses_params) && has_char ";" (path r)
      then
        let (url, params) := _splitparams (path r) in
        Some {| scheme := scheme r; netloc := netloc r; path := url;
                params := params; query := query r;
                fragment := fragment r |}
      else Some r
  end.

(** The [hostname] property, from [_hostinfo]; [None] is Python's [None]. *)
Definition hostname_of (netloc : str) : option str :=
  let hostinfo := snd (rpartition "@" netloc) in
  let '(_, have_open_br, bracketed) := partition "[" hostinfo in
  let hostname :=
    if have_open_br then fst (fst (partition "]" bracketed))
    else fst (fst (partition ":" hostinfo)) in
  match hostname with
  | [] => None
  | _ =>
      let '(hostname, percent, zone) := partition "%" hostname in
      Some (lower hostname ++ (if percent then ["%"%char] else []) ++ zone)
  end.

Definition hostname (r : ParseResult) : option str := hostname_of (netloc r).

(** [unquote(s)] *)
Definition unquote (s : str) : str :=
  if negb (has_char "%" s) then s else decode_escapes s.

(** [parse_qsl(qs)]: the name and value pairs in the order of the query;
    fields without [=] or with an empty value are dropped. *)
Definition parse_field (name_value : str) : list (str * str) :=
  match name_value with
  | [] => []
  | _ =>
      match split1 "=" name_value with
      | [n; v] =>
          match v with
          | [] => []
          | _ => [(unquote (replace_char "+" " " n),
                   unquote (replace_char "+" " " v))]
          end
      | _ => []
      end
  end.

Definition parse_qsl (qs : str) : list (str * str) :=
  match qs with
  | [] => []
  | _ => flat_map parse_field (split "&" qs)
  end.

(** The dictionary of [parse_qs], as the list of its items: a value is
    appended to the entry of its name, a new name is added at the end. *)
Fixpoint dict_append (name value : str) (d : list (str * list str))
  : list (str * list str) :=
  match d with
  | [] => [(name, [value])]
  | (n, vs) :: d' =>
      if bool_decide (n = name) then (n, vs ++ [value]) :: d'
      else (n, vs) :: dict_append name value d'
  end.

Definition parse_qs (qs : str) : list (str * list str) :=
  fold_left (fun d nv => dict_append (fst nv) (snd nv) d) (parse_qsl qs) [].

Fixpoint dict_get {V : Type} (name : str) (d : list (str * V)) : option V :=
  match d with
  | [] => None
  | (n, v) :: d' => if bool_decide (n = name) then Some v else dict_get name d'
  end.

End WithLibrary.

End Url.

Import Url.

(** ** youtube_extractor.py *)

Module YouTubeExtractor.

(** What the provider call [request.execute()] does: it returns a response
    (whose [items] key may be missing, and whose items may lack their
    [snippet]), raises [HttpError] with a status and its error details, or
    raises something else. *)
Record snippet : Type := {
  title : option str;
  description : option str
}.

(** [e.error_details] as [googleapiclient] sets it from the body of the
    error response: the entries of the list under [errors] (or [details])
    of a JSON body, each with or without a [reason]; or a text, the body
    itself when it is no JSON, the message when the JSON body holds nothing
    but a message, and the empty text when the body tells nothing. *)
Inductive error_details : Type :=
| Entries (entries : list (option str))
| Body (text : str).

Inductive execute_outcome : Type :=
| Response (items : option (list (option snippet)))
| HttpError (status : Z) (details : error_details)
| OtherError (text : str).

(** A call returns a value or raises an exception. *)
Inductive exception : Type :=
| AttributeError.

Inductive result (A : Type) : Type :=
| Returns (value : A)
| Raises (e : exception).

Arguments Returns {A} value.
Arguments Raises {A} e.

Section WithLibrary.
Context {lib : Library}.

(** [query_params.get('v', [None])[0]] *)
Definition first_v (query_params : list (str * list str)) : option str :=
  match dict_get "v" query_params with
  | Some (v :: _) => Some v
  | _ => None
  end.

(** [pieces[-1]] and [pieces[0]] of a [split], which is never empty. *)
Definition last_piece (pieces : list str) : str := List.last pieces [].
Definition first_piece (pieces : list str) : str := List.hd [] pieces.

(** [extract_video_id(url)]: [None] is Python's [None], returned at the
    end of the function and by the [except] clause. *)
Definition extract_video_id (url : str) : option str :=
  match urlparse url with
  | None => None
  | Some parsed_url =>
      let host_in (names : list str) : bool :=
        match hostname parsed_url with
        | Some h => bool_decide (h ∈ names)
        | None => false
        end in
      if host_in ["www.youtube.com" : str; "youtube.com" : str;
                  "m.youtube.com" : str] then
        if bool_decide (path parsed_url = ("/watch" : str)) then
          first_v (parse_qs (query parsed_url))
        else if startswith "/embed/" (path parsed_url) then
          Some (first_piece (split "?"
                  (last_piece (split "/embed/" (path parsed_url)))))
        else if startswith "/v/" (path parsed_url) then
          Some (first_piece (split "?"
                  (last_piece (split "/v/" (path parsed_url)))))
        else None
      else if host_in ["youtu.be" : str] then
        Some (first_piece (split "?" (skipn 1 (path parsed_url))))
      else None
  end.

End WithLibrary.

Definition msg_not_found_items : str :=
  "Video not found. The video might be private, deleted, or the URL is invalid.".
Definition msg_quota : str :=
  "YouTube API quota exceeded. Please try again later.".
Definition msg_forbidden : str :=
  "Access forbidden. The video might be private or restricted.".
Definition msg_not_found_status : str :=
  "Video not found. Please check the URL and try again.".
Definition msg_api_error (reason : str) : str :=
  ("YouTube API error: " : str) ++ reason.
Definition msg_unexpected (text : str) : str :=
  ("An unexpected error occurred: " : str) ++ text.

(** [e.error_details[0] if e.error_details else {}], then
    [error_details.get('reason', 'Unknown error')]: the first entry of a
    list, or an empty entry when the details are empty. The first item of a
    text is a text of one character, which has no [get]: the call raises
    [AttributeError], inside the [except] clause. *)
Definition reason_of (details : error_details) : result str :=
  match details with
  | Entries (Some reason :: _) => Returns reason
  | Entries _ => Returns ("Unknown error" : str)
  | Body [] => Returns ("Unknown error" : str)
  | Body (_ :: _) => Raises AttributeError
  end.

(** [get_video_description], as a function of what the provider call did.
    An exception raised inside the clause [except HttpError] is caught by
    no other clause of the statement and leaves the function. *)
Definition get_video_description (outcome : execute_outcome)
  : result (bool * str) :=
  match outcome with
  | Response items =>
      match items with
      | None | Some [] => Returns (false, msg_not_found_items)
      | Some (video_data :: _) =>
          match video_data with
          | None => Returns (false, msg_unexpected "'snippet'")   (* KeyError *)
          | Some sn => Returns (true, default [] (description sn))
          end
      end
  | HttpError status details =>
      match reason_of details with
      | Raises e => Raises e
      | Returns reason =>
          if (status =? 403)%Z then
            if contains "quotaExceeded" reason then Returns (false, msg_quota)
            else Returns (false, msg_forbidden)
          else if (status =? 404)%Z then Returns (false, msg_not_found_status)
          else Returns (false, msg_api_error reason)
      end
  | OtherError text => Returns (false, msg_unexpected text)
  end.

Definition msg_invalid_format : str :=
  "Invalid YouTube URL format. Please provide a valid YouTube video URL.".

(** [process_youtube_url], with the provider as a function of the
    identifier it is asked about. The value returned is the pair of the
    source: [inr links] for [(True, links)], [inl message] for
    [(False, message)]. Nothing here catches what [get_video_description]
    raises. *)
Definition process_youtube_url {lib : Library}
    (provider : str -> execute_outcome) (url : str)
  : result (str + list str) :=
  match extract_video_id url with
  | None | Some [] => Returns (inl msg_invalid_format)
  | Some video_id =>
      match get_video_description (provider video_id) with
      | Raises e => Raises e
      | Returns (success, description) =>
          if negb success then Returns (inl description)
          else Returns (inr (extract_https_links description))
      end
  end.

End YouTubeExtractor.

Import YouTubeExtractor.

(** ** bot.py: the pattern in front of the extractor *)

Module Bot.

(** The class [[\w-]]. *)
Definition is_id_char (c : ascii) : bool := is_word c || ch_eqb c "-".

(** [(?:https?://)?(?:www\.)?(?:youtube\.com/(?:watch\?v=|embed/|v/)|youtu\.be/)[\w-]+]
    compiled with [re.IGNORECASE]. *)
Definition youtube_url_pattern : regex :=
  Seq (Opt (Seq (lit_ci "http") (Seq (Opt (chr_ci "s")) (lit_ci "://"))))
    (Seq (Opt (lit_ci "www."))
       (Seq (Alt (Seq (lit_ci "youtube.com/")
                    (Alt (lit_ci "watch?v=")
                       (Alt (lit_ci "embed/") (lit_ci "v/"))))
               (lit_ci "youtu.be/"))
          (Plus is_id_char))).

(** What [handle_message] hands to [process_youtube_url]: nothing when the
    pattern is not found in the stripped message, else the first match. *)
Definition url_of_message (text : str) : option str :=
  let message_text := strip text in
  if negb (search youtube_url_pattern message_text) then None
  else List.head (findall youtube_url_pattern message_text).

End Bot.

Import Bot.

(** ** link_filter.py

    Lists are mutable objects: the model keeps a store of list objects
    addressed by references, the dictionary [user_filters] maps a user to
    the reference of that user's list, and the module-level name
    [DEFAULT_FILTER_WORDS] is the reference of the list built when [config]
    is imported. Every method is a function from the state before the call
    to the value returned and the state after it. *)

Module LinkFilter.

Definition ref : Type := positive.

Record state : Type := {
  heap : gmap ref (list str);
  user_filters : gmap Z ref
}.

Definition M (A : Type) : Type := state -> A * state.

Definition ret {A : Type} (a : A) : M A := fun st => (a, st).

Definition bind {A B : Type} (m : M A) (k : A -> M B) : M B :=
  fun st => let (a, st') := m st in k a st'.

Declare Scope py_scope.
Delimit Scope py_scope with py.
Notation "x <- m ;; k" := (bind m (fun x => k))
  (at level 100, m at next level, right associativity) : py_scope.
Notation "m ;; k" := (bind m (fun _ => k))
  (at level 100, right associativity) : py_scope.
Local Open Scope py_scope.

(** A new list object with the given content. *)
Definition new_list (content : list str) : M ref :=
  fun st =>
    let r := fresh (dom (heap st)) in
    (r, {| heap := <[r := content]> (heap st);
           user_filters := user_filters st |}).

(** The content of a list object. *)
Definition read (r : ref) : M (list str) :=
  fun st => (default [] (heap st !! r), st).

(** A change of a list object in place. *)
Definition write (r : ref) (content : list str) : M unit :=
  fun st =>
    (tt, {| heap := <[r := content]> (heap st);
            user_filters := user_filters st |}).

(** [self.user_filters.get(user_id)] and [self.user_filters[user_id] = r] *)
Definition filters_get (user_id : Z) : M (option ref) :=
  fun st => (user_filters st !! user_id, st).

Definition filters_set (user_id : Z) (r : ref) : M unit :=
  fun st =>
    (tt, {| heap := heap st;
            user_filters := <[user_id := r]> (user_filters st) |}).

(** The module-level list of [config]. *)
Definition DEFAULT_FILTER_WORDS : ref := 1%positive.

(** [l.copy()] *)
Definition list_copy (r : ref) : M ref :=
  content <- read r ;; new_list content.

(** [l.remove(x)] on a list that holds [x]: the first [x] goes. *)
Fixpoint list_remove (x : str) (l : list str) : list str :=
  match l with
  | [] => []
  | y :: l' => if bool_decide (y = x) then l' else y :: list_remove x l'
  end.

(** [get_user_filters]: the argument of [get] is evaluated first, so the
    copy of the default list is made on every call. *)
Definition get_user_filters (user_id : Z) : M ref :=
  fallback <- list_copy DEFAULT_FILTER_WORDS ;;
  found <- filters_get user_id ;;
  ret (default fallback found).

Definition set_user_filters (user_id : Z) (filter_words : list str) : M unit :=
  r <- new_list (map (fun word => strip (lower word))
                   (List.filter (fun word => negb (bool_decide (strip word = [])))
                      filter_words)) ;;
  filters_set user_id r.

Definition add_filter_word (user_id : Z) (word : str) : M unit :=
  current_filters <- get_user_filters user_id ;;
  let word := strip (lower word) in
  content <- read current_filters ;;
  if negb (bool_decide (word = [])) && negb (bool_decide (word ∈ content))
  then
    write current_filters (content ++ [word]) ;;
    filters_set user_id current_filters
  else ret tt.

Definition remove_filter_word (user_id : Z) (word : str) : M bool :=
  current_filters <- get_user_filters user_id ;;
  let word := strip (lower word) in
  content <- read current_filters ;;
  if bool_decide (word ∈ content)
  then
    write current_filters (list_remove word content) ;;
    filters_set user_id current_filters ;;
    ret true
  else ret false.

Definition clear_user_filters (user_id : Z) : M unit :=
  r <- new_list [] ;;
  filters_set user_id r.

(** The inner loop of [filter_links]: the first filter word found in the
    lower-cased link ends it. *)
Definition should_exclude (filter_words : list str) (link : str) : bool :=
  let link_lower := lower link in
  existsb (fun filter_word => contains filter_word link_lower) filter_words.

(** One round of the outer loop on [(filtered_links, excluded_count)]. *)
Definition filter_step (filter_words : list str)
    (acc : list str * nat) (link : str) : list str * nat :=
  let (filtered_links, excluded_count) := acc in
  if should_exclude filter_words link
  then (filtered_links, excluded_count + 1)
  else (filtered_links ++ [link], excluded_count).

Definition filter_links (user_id : Z) (links : list str) : M (list str * nat) :=
  match links with
  | [] => ret ([], 0)
  | _ =>
      filter_words <- get_user_filters user_id ;;
      content <- read filter_words ;;
      match content with
      | [] => ret (links, 0)
      | _ => ret (fold_left (filter_step content) links ([], 0))
      end
  end.

(** The state after [config] is imported and [LinkFilter()] is built;
    [default_words] is the list literal of [config.py]. *)
Definition init (default_words : list str) : state :=
  {| heap := {[ DEFAULT_FILTER_WORDS := default_words ]};
     user_filters := ∅ |}.

(** What a call of [get_user_filters] shows: the content of the list it
    returns. *)
Definition filters_of (st : state) (user_id : Z) : list str :=
  let (r, st') := get_user_filters user_id st in
  fst (read r st').

(** The content of the shared default list. *)
Definition default_content (st : state) : list str :=
  fst (read DEFAULT_FILTER_WORDS st).

(** The calls a client can make, and a run of them. *)
Inductive call : Type :=
| SetFilters (user_id : Z) (filter_words : list str)
| AddFilter (user_id : Z) (word : str)
| RemoveFilter (user_id : Z) (word : str)
| ClearFilters (user_id : Z)
| GetFilters (user_id : Z)
| FilterLinks (user_id : Z) (links : list str).

Definition caller (c : call) : Z :=
  match c with
  | SetFilters u _ | AddFilter u _ | RemoveFilter u _ | ClearFilters u
  | GetFilters u | FilterLinks u _ => u
  end.

Definition exec (c : call) (st : state) : state :=
  match c with
  | SetFilters u ws => snd (set_user_filters u ws st)
  | AddFilter u w => snd (add_filter_word u w st)
  | RemoveFilter u w => snd (remove_filter_word u w st)
  | ClearFilters u => snd (clear_user_filters u st)
  | GetFilters u => snd (get_user_filters u st)
  | FilterLinks u links => snd (filter_links u links st)
  end.

Definition run (calls : list call) (st : state) : state :=
  fold_left (fun st c => exec c st) calls st.

End LinkFilter.

Import LinkFilter.

(** ** telegram_bot_simple.py

    The texts the bot sends hold characters outside the text model. A
    message sent is recorded by the template it is built from and the
    values put into it. A handler gives the events of its run in their
    order: the messages it sends and, when an exception ends it, the
    exception, which goes on to the loop of [run]. *)

Module SimpleBot.

Local Open Scope py_scope.

(** [s.split()]: the runs of characters between white space; [cur] holds
    the current run in reverse. *)
Fixpoint split_scan_ws (cur : str) (s : str) : list str :=
  match s with
  | [] =>
      match cur with
      | [] => []
      | _ => [rev cur]
      end
  | c :: s' =>
      if isspace c then
        match cur with
        | [] => split_scan_ws [] s'
        | _ => rev cur :: split_scan_ws [] s'
        end
      else split_scan_ws (c :: cur) s'
  end.

Definition split_ws (s : str) : list str := split_scan_ws [] s.

Inductive event : Type :=
| Welcome                                   (* handle_start *)
| Usage                                     (* Usage: /filter word1 word2 word3 *)
| FilterUpdated (filter_words : list str)   (* Filter updated! Blocking ... *)
| Processing                                (* Processing YouTube video... *)
| Error (result : str)                      (* Error: {result} *)
| NoLinksFound
| Found (total excluded_count : nat) (filtered_links : list str)
| AllFiltered (total : nat)
| SendUrlPlease                             (* Please send a YouTube URL ... *)
| Raised (e : exception).                   (* no message: the handler ends *)

Definition handle_filter_command (user_id : Z) (args : str) : M (list event) :=
  match args with
  | [] => ret [Usage]
  | _ =>
      let filter_words := split_ws (lower args) in
      set_user_filters user_id filter_words ;;
      ret [FilterUpdated filter_words]
  end.

Section WithLibrary.
Context {lib : Library}.

Definition handle_youtube_url (provider : str -> execute_outcome)
    (user_id : Z) (url : str) : M (list event) :=
  match process_youtube_url provider url with
  | Raises e => ret [Processing; Raised e]
  | Returns (inl result) => ret [Processing; Error result]
  | Returns (inr []) => ret [Processing; NoLinksFound]
  | Returns (inr links) =>
      filtered <- filter_links user_id links ;;
      let (filtered_links, excluded_count) := filtered in
      match filtered_links with
      | [] => ret [Processing; AllFiltered (length links)]
      | _ => ret [Processing; Found (length links) excluded_count filtered_links]
      end
  end.

Definition handle_message (provider : str -> execute_outcome)
    (user_id : Z) (text : str) : M (list event) :=
  if startswith "/start" text then ret [Welcome]
  else if startswith "/filter" text then
    handle_filter_command user_id (strip (skipn 7 text))
  else if contains "youtube.com" text || contains "youtu.be" text then
    handle_youtube_url provider user_id (strip text)
  else ret [SendUrlPlease].

End WithLibrary.

End SimpleBot.

Import SimpleBot.

(** ** bot.py: the command [/addfilter]

    A reply is recorded by its template and the keyword put into it;
    [args] is the list of words behind the command. *)

Module BotCommands.

Local Open Scope py_scope.

(** [sep.join(l)] *)
Fixpoint join (sep : str) (l : list str) : str :=
  match l with
  | [] => []
  | [x] => x
  | x :: l' => x ++ sep ++ join sep l'
  end.

Inductive reply : Type :=
| AddUsage                        (* Please provide a keyword to filter. *)
| AlreadyListed (keyword : str)   (* {keyword} is already in your filter list. *)
| Added (keyword : str).          (* Added {keyword} to your filter list. *)

Definition addfilter_command (user_id : Z) (args : list str) : M reply :=
  match args with
  | [] => ret AddUsage
  | _ =>
      let keyword := strip (join " " args) in
      current_filters <- get_user_filters user_id ;;
      content <- read current_filters ;;
      if bool_decide (lower keyword ∈ content) then ret (AlreadyListed keyword)
      else
        add_filter_word user_id keyword ;;
        ret (Added keyword)
  end.

End BotCommands.

Import BotCommands.

(** ** Vocabulary of the statements *)

(** The references of a state are in order: the default list holds
    [default_words], every user's reference points to a list object other
    than the default list, and no two users share a list object. *)
Definition wf (default_words : list str) (st : state) : Prop :=
  heap st !! DEFAULT_FILTER_WORDS = Some default_words
  /\ (forall u r, user_filters st !! u = Some r ->
        r <> DEFAULT_FILTER_WORDS /\ is_Some (heap st !! r))
  /\ (forall u u' r, user_filters st !! u = Some r ->
        user_filters st !! u' = Some r -> u = u').

(** The state [get_user_filters] leaves: one more copy of the default list. *)
Definition with_copy (st : state) : state :=
  {| heap := <[fresh (dom (heap st)) :=
                 default [] (heap st !! DEFAULT_FILTER_WORDS)]> (heap st);
     user_filters := user_filters st |}.

(** Binding a user to a list object with a given content. *)
Definition assign (u : Z) (r : ref) (content : list str) (st : state) : state :=
  {| heap := <[r := content]> (heap st);
     user_filters := <[u := r]> (user_filters st) |}.

(** The filter words a state holds for a user: the content of the user's
    list object, or of the default list when the user has none. *)
Definition stored (st : state) (u : Z) : list str :=
  match user_filters st !! u with
  | Some r => default [] (heap st !! r)
  | None => default [] (heap st !! DEFAULT_FILTER_WORDS)
  end.

(** What a call made for user [u] can do to the state: nothing, leave a copy
    of the default list behind, bind [u] to a new list object, or change the
    list object [u] is bound to. *)
Inductive effect (u : Z) (st : state) : state -> Prop :=
| effect_none : effect u st st
| effect_copy : effect u st (with_copy st)
| effect_new (f : ref) (v : list str) :
    heap st !! f = None -> effect u st (assign u f v st)
| effect_own (r : ref) (v : list str) :
    user_filters st !! u = Some r -> effect u st (assign u r v (with_copy st)).

(** The reading of [add_filter_word] on a user without an entry that takes
    every word alike: afterwards the user's filters are the default list,
    with the normalized word appended unless the default list holds it. *)
Definition first_add_appends (default_words : list str) (u : Z) (word : str)
  : Prop :=
  let w := strip (lower word) in
  filters_of (snd (add_filter_word u word (init default_words))) u
  = if bool_decide (w ∈ default_words) then default_words
    else default_words ++ [w].

(** The typed failures of the fetch, and the message [get_video_description]
    returns for each of them. *)
Inductive FetchError : Type :=
| NotFound
| QuotaExceeded
| Forbidden
| ProviderError (reason : str)
| UnknownError (detail : str).

Definition renders (e : FetchError) (message : str) : Prop :=
  match e with
  | NotFound => message = msg_not_found_items \/ message = msg_not_found_status
  | QuotaExceeded => message = msg_quota
  | Forbidden => message = msg_forbidden
  | ProviderError reason => message = msg_api_error reason
  | UnknownError detail => message = msg_unexpected detail
  end.

Definition fails_with (outcome : execute_outcome) (e : FetchError) : Prop :=
  exists message,
    get_video_description outcome = Returns (false, message)
    /\ renders e message.

(** The position of the first [x] in [l] (the length of [l] when there is
    none). *)
Fixpoint first_index (x : str) (l : list str) : nat :=
  match l with
  | [] => 0
  | y :: l' => if bool_decide (y = x) then 0 else S (first_index x l')
  end.

(** The cleaned matches of a text, before duplicates are dropped. *)
Definition cleaned_matches (text : str) : list str :=
  map (sub_empty trailing_pattern) (findall https_pattern text).

(** The bookkeeping of [clean_step] on an already cleaned link. *)
Definition add_new (cleaned : list str) (link : str) : list str :=
  if negb (bool_decide (link = [])) && negb (bool_decide (link ∈ cleaned))
  then cleaned ++ [link]
  else cleaned.

(** [l] is a prefix of [s] up to the case of letters. *)
Fixpoint ci_prefix (l s : str) : bool :=
  match l, s with
  | [], _ => true
  | a :: l', b :: s' => ch_eqb (lower_char b) (lower_char a) && ci_prefix l' s'
  | _ :: _, [] => false
  end.

(** A link starts at the head of [s]: the secure-scheme prefix, in any case
    of its letters, and one more character that can be part of a link. *)
Definition starts_link (s : str) : Prop :=
  exists pfx c rest,
    s = pfx ++ c :: rest /\ lower pfx = ("https://" : str) /\ is_link_char c = true.

(** The text behind a link: the end of the text, or a character that cannot
    be part of a link (white space, an angle bracket, the double quote). *)
Definition run_ends (tail : str) : Prop :=
  match tail with
  | [] => True
  | d :: _ => is_link_char d = false
  end.

(** The scan of a text for links, in the words of the specification: where
    no link starts the scan moves on by one character; where one starts it
    extends up to the first character that ends it, and the scan resumes
    behind it. *)
Inductive LinkScan : str -> list str -> Prop :=
| scan_end : LinkScan [] []
| scan_skip (c : ascii) (s : str) (ls : list str) :
    ~ starts_link (c :: s) -> LinkScan s ls -> LinkScan (c :: s) ls
| scan_link (pfx body tail : str) (ls : list str) :
    lower pfx = ("https://" : str) ->
    body <> [] ->
    forallb is_link_char body = true ->
    run_ends tail ->
    LinkScan tail ls ->
    LinkScan (pfx ++ body ++ tail) ((pfx ++ body) :: ls).

(** [core] does not end in a character of the trailing-punctuation set. *)
Definition ends_clean (core : str) : Prop :=
  forall front c, core = front ++ [c] -> is_trailing_punct c = false.

(** The 256 characters of the text model. *)
Definition all_ascii : list ascii := map ascii_of_nat (seq 0 256).

(** Tab, carriage return and line feed, which [urlsplit] removes. *)
Definition unsafe_chars : str := ["009"; "013"; "010"]%char.

(** No character of [s] is in [set]. *)
Definition avoids (set s : str) : bool :=
  forallb (fun c => negb (has_char c set)) s.

(** The end of a URL: nothing, or the question mark and a query. *)
Definition query_part (q : option str) : str :=
  match q with
  | None => []
  | Some qry => "?"%char :: qry
  end.

(** The text starts with an ASCII letter. *)
Definition is_head_alpha (s : str) : bool :=
  match s with
  | c :: _ => is_ascii_alpha c
  | [] => false
  end.

(** The text is empty or starts with a slash. *)
Definition is_path (pth : str) : bool :=
  match pth with
  | [] => true
  | c :: _ => ch_eqb c "/"
  end.

(** The characters the parsers react to. *)
Definition reserved : str := ("/?#[];&=+%:@" : str) ++ unsafe_chars.

(** A video identifier: a non-empty run of the characters the pattern of
    [bot.py] takes for one, the class of word characters and the hyphen. *)
Definition is_video_id (id : str) : Prop :=
  id <> [] /\ forallb is_id_char id = true.

(** The hosting domains of [extract_video_id]. *)
Definition youtube_hosts : list str :=
  ["www.youtube.com" : str; "youtube.com" : str; "m.youtube.com" : str].

(** The URL shapes the pattern of [bot.py] accepts without a scheme. *)
Definition schemeless_prefixes : list str :=
  [ "youtube.com/watch?v=" : str; "www.youtube.com/watch?v=" : str;
    "youtube.com/embed/" : str; "www.youtube.com/embed/" : str;
    "youtube.com/v/" : str; "www.youtube.com/v/" : str;
    "youtu.be/" : str; "www.youtu.be/" : str ].

(** An instance of the library parameters for closed examples; none of
    them reaches either routine. *)
Definition sample_library : Library :=
  {| is_ipv6_address := fun _ => false; decode_escapes := fun s => s |}.

(** The normal form of a filter word: [word.lower().strip()]. *)
Definition normalize (word : str) : str := strip (lower word).

(** A word as [set_user_filters] and [add_filter_word] store it. *)
Definition is_normal (w : str) : Prop := w <> [] /\ normalize w = w.

(** The list [set_user_filters] builds from its argument. *)
Definition normalized_words (filter_words : list str) : list str :=
  map normalize
    (List.filter (fun word => negb (bool_decide (strip word = []))) filter_words).

(** The words of a filter list without upper-case letters. *)
Definition lowercase_only (filter_words : list str) : list str :=
  List.filter (fun w => negb (existsb is_upper w)) filter_words.

(** The characters that may follow an identifier in a URL without ending
    the URL: anything but the fragment sign and the characters [urlsplit]
    removes. *)
Definition is_query_tail (rest : str) : bool :=
  avoids ("#"%char :: unsafe_chars) rest.

(** The domain part of a URL: user information, host name and port. *)
Definition authority (user : option str) (host : str) (port : option str) : str :=
  match user with Some u => u ++ ["@"%char] | None => [] end
  ++ host
  ++ match port with Some p => ":"%char :: p | None => [] end.

(** A host name without user information, port, brackets or zone. *)
Definition is_plain_host (host : str) : Prop :=
  host <> [] /\ avoids (("/?#[]@:%" : str) ++ unsafe_chars) host = true.

(** The text behind an identifier in a message: nothing, or a character
    that cannot be part of an identifier. *)
Definition ends_id (tail : str) : bool :=
  match tail with
  | [] => true
  | w :: _ => negb (is_id_char w)
  end.

(** The three ways a hosting domain carries an identifier. *)
Definition path_shapes : list str :=
  ["/watch?v=" : str; "/embed/" : str; "/v/" : str].

(** The part of [youtube_url_pattern] in front of the identifier. *)
Definition url_beginning : regex :=
  match youtube_url_pattern with
  | Seq scheme (Seq www (Seq domain _)) => Seq scheme (Seq www domain)
  | _ => Eps
  end.

(** The beginnings of a URL in lower case that the pattern accepts: a
    scheme or none, [www.] or not, and one of the four domain shapes. *)
Definition accepted_beginnings : list str :=
  flat_map (fun sch =>
    flat_map (fun www =>
      map (fun shape => sch ++ www ++ shape)
        ["youtube.com/watch?v=" : str; "youtube.com/embed/" : str;
         "youtube.com/v/" : str; "youtu.be/" : str])
      [[] ; ("www." : str)])
    [[] ; ("http://" : str); ("https://" : str)].

(** A word as [split] without arguments gives them: not empty and free of
    white space. *)
Definition is_token (w : str) : Prop :=
  w <> [] /\ forallb (fun c => negb (isspace c)) w = true.

(** The beginning of a text without its leading run of characters of a
    class, and the same at the end. *)
Fixpoint drop_run {A : Type} (p : A -> bool) (s : list A) : list A :=
  match s with
  | c :: s' => if p c then drop_run p s' else s
  | [] => []
  end.

Definition drop_run_end {A : Type} (p : A -> bool) (s : list A) : list A :=
  rev (drop_run p (rev s)).

(** [pfx] is [https://] as the pattern takes it: each of its characters is
    one of those the character of the pattern at its place matches. *)
Definition is_https_prefix (pfx : list N) : Prop :=
  Forall2 (fun x set => In x set) pfx Wide.https_prefix.

(** The text starts with characters out of the sets, one after the other. *)
Fixpoint starts_with_sets (sets : list (list N)) (s : list N) : bool :=
  match sets, s with
  | [], _ => true
  | set :: sets', x :: s' => existsb (N.eqb x) set && starts_with_sets sets' s'
  | _ :: _, [] => false
  end.

(** A link starts at the head of [s]: the prefix as the pattern takes it
    and one more character that can be part of a link. *)
Definition wide_starts_link (s : list N) : Prop :=
  exists pfx c rest,
    s = pfx ++ c :: rest /\ is_https_prefix pfx /\ Wide.is_link_char c = true.

(** The text behind a link: the end of the text, or a character that cannot
    be part of a link. *)
Definition wide_run_ends (tail : list N) : Prop :=
  match tail with
  | [] => True
  | d :: _ => Wide.is_link_char d = false
  end.

(** The scan of a text of code points for links, in the words of the
    specification. *)
Inductive WideScan : list N -> list (list N) -> Prop :=
| wide_scan_end : WideScan [] []
| wide_scan_skip (c : N) (s : list N) (ls : list (list N)) :
    ~ wide_starts_link (c :: s) -> WideScan s ls -> WideScan (c :: s) ls
| wide_scan_link (pfx body tail : list N) (ls : list (list N)) :
    is_https_prefix pfx ->
    body <> [] ->
    forallb Wide.is_link_char body = true ->
    wide_run_ends tail ->
    WideScan tail ls ->
    WideScan (pfx ++ body ++ tail) ((pfx ++ body) :: ls).

Definition wide_ends_clean (core : list N) : Prop :=
  forall front c, core = front ++ [c] -> Wide.is_trailing_punct c = false.

Definition wide_cleaned_matches (text : list N) : list (list N) :=
  map (Wide.sub_empty Wide.trailing_pattern)
    (Wide.findall Wide.https_pattern text).

Definition wide_add_new (cleaned : list (list N)) (link : list N)
  : list (list N) :=
  if negb (bool_decide (link = [])) && negb (bool_decide (link ∈ cleaned))
  then cleaned ++ [link]
  else cleaned.

(** A pattern on Latin-1 text and a pattern on code points that are built
    alike, with classes that agree on the Latin-1 range. *)
Inductive regex_sim : regex -> Wide.regex -> Prop :=
| sim_chr (p : ascii -> bool) (q : N -> bool) :
    (forall c, q (N_of_ascii c) = p c) -> regex_sim (Chr p) (Wide.Chr q)
| sim_eps : regex_sim Eps Wide.Eps
| sim_seq (r1 r2 : regex) (w1 w2 : Wide.regex) :
    regex_sim r1 w1 -> regex_sim r2 w2 ->
    regex_sim (Seq r1 r2) (Wide.Seq w1 w2)
| sim_plus (p : ascii -> bool) (q : N -> bool) :
    (forall c, q (N_of_ascii c) = p c) -> regex_sim (Plus p) (Wide.Plus q)
| sim_eos : regex_sim Eos Wide.Eos.

(** * Properties *)

(** ** Text *)

Lemma ch_eqb_true (a b : ascii) : ch_eqb a b = true <-> a = b.
Proof. unfold ch_eqb. apply Ascii.eqb_eq. Qed.

Lemma ch_eqb_false (a b : ascii) : ch_eqb a b = false <-> a <> b.
Proof. unfold ch_eqb. apply Ascii.eqb_neq. Qed.

Lemma ch_eqb_refl (a : ascii) : ch_eqb a a = true.
Proof. apply ch_eqb_true. reflexivity. Qed.

Lemma ch_eqb_sym (a b : ascii) : ch_eqb a b = ch_eqb b a.
Proof. unfold ch_eqb. apply Ascii.eqb_sym. Qed.

Lemma has_char_cons (x c : ascii) (s : str) :
  has_char x (c :: s) = ch_eqb x c || has_char x s.
Proof. reflexivity. Qed.

Lemma has_char_false (x : ascii) (s : str) :
  has_char x s = false <-> forallb (fun c => negb (ch_eqb x c)) s = true.
Proof.
  induction s as [|c s IH]; [split; reflexivity|].
  rewrite has_char_cons. simpl forallb.
  rewrite orb_false_iff, andb_true_iff, negb_true_iff, IH. reflexivity.
Qed.

(** [startswith] is the prefix relation. *)
Lemma startswith_spec (p s : str) :
  startswith p s = true <-> exists post, s = p ++ post.
Proof.
  revert s. induction p as [|a p IH]; intros s; simpl.
  - split; [intros _; exists s; reflexivity | reflexivity].
  - destruct s as [|b s].
    + split; [discriminate | intros [post H]; discriminate].
    + rewrite andb_true_iff, ch_eqb_true, IH. split.
      * intros [-> [post ->]]. exists post. reflexivity.
      * intros [post H]. injection H as -> ->. split; [reflexivity | eauto].
Qed.

(** [contains] is the substring relation. *)
Lemma contains_spec (p s : str) :
  contains p s = true <-> exists pre post, s = pre ++ p ++ post.
Proof.
  induction s as [|c s IH].
  - simpl. rewrite orb_false_r, startswith_spec. split.
    + intros [post H]. exists [], post. exact H.
    + intros [pre [post H]]. destruct pre as [|x pre]; [|discriminate].
      exists post. exact H.
  - change (contains p (c :: s))
      with (startswith p (c :: s) || contains p s).
    rewrite orb_true_iff, startswith_spec, IH. split.
    + intros [[post H] | [pre [post H]]].
      * exists [], post. exact H.
      * exists (c :: pre), post. rewrite H. reflexivity.
    + intros [pre [post H]]. destruct pre as [|x pre].
      * left. exists post. exact H.
      * right. injection H as -> H. exists pre, post. exact H.
Qed.

(** ** link_filter.py: [filter_links] *)

Lemma should_exclude_spec (filter_words : list str) (link : str) :
  should_exclude filter_words link = true <->
  exists w, In w filter_words /\ exists pre post, lower link = pre ++ w ++ post.
Proof.
  unfold should_exclude. rewrite existsb_exists.
  split; intros [w [Hin H]]; exists w; split; try assumption;
    apply contains_spec; assumption.
Qed.

(** The outer loop keeps the links that are not excluded, in their order,
    and counts the others. *)
Lemma filter_loop (filter_words : list str) (links kept : list str) (n : nat) :
  fold_left (filter_step filter_words) links (kept, n) =
  (kept ++ List.filter (fun l => negb (should_exclude filter_words l)) links,
   n + length (List.filter (should_exclude filter_words) links)).
Proof.
  revert kept n. induction links as [|l links IH]; intros kept n; simpl.
  - rewrite app_nil_r, Nat.add_0_r. reflexivity.
  - destruct (should_exclude filter_words l) eqn:E; simpl; rewrite IH.
    + f_equal. simpl. lia.
    + rewrite <- app_assoc. reflexivity.
Qed.

Lemma filter_split_length {A : Type} (p : A -> bool) (l : list A) :
  length (List.filter (fun x => negb (p x)) l) + length (List.filter p l)
  = length l.
Proof.
  induction l as [|x l IH]; simpl; [reflexivity|].
  destruct (p x); simpl; lia.
Qed.

Lemma filter_all {A : Type} (p : A -> bool) (l : list A) :
  (forall x, p x = true) -> List.filter p l = l.
Proof.
  intros H. induction l as [|x l IH]; simpl; [reflexivity|].
  rewrite H, IH. reflexivity.
Qed.

Lemma filter_none {A : Type} (p : A -> bool) (l : list A) :
  (forall x, p x = false) -> List.filter p l = [].
Proof.
  intros H. induction l as [|x l IH]; simpl; [reflexivity|].
  rewrite H, IH. reflexivity.
Qed.

Lemma filter_links_value (user_id : Z) (links : list str) (st : state) :
  fst (filter_links user_id links st) =
  match links with
  | [] => ([], 0)
  | _ =>
      match filters_of st user_id with
      | [] => (links, 0)
      | _ => fold_left (filter_step (filters_of st user_id)) links ([], 0)
      end
  end.
Proof.
  destruct links as [|l links]; [reflexivity|].
  unfold filter_links, filters_of, bind, read, ret.
  destruct (get_user_filters user_id st) as [r st'].
  cbn [fst]. destruct (default [] (heap st' !! r)); reflexivity.
Qed.

(** C1. For every user and every list of links, [filter_links] returns the
    links that are not excluded, in the order of the input, and the number
    of excluded ones; a link is excluded exactly when its lower-cased form
    contains a keyword of the user's filters (what [get_user_filters] shows
    for that user) as a substring; the two parts add up to the input. *)
Theorem filter_links_partition (user_id : Z) (links : list str) (st : state) :
  let filter_words := filters_of st user_id in
  let kept := fst (fst (filter_links user_id links st)) in
  let excluded_count := snd (fst (filter_links user_id links st)) in
  (forall link, should_exclude filter_words link = true <->
     exists w, In w filter_words /\
       exists pre post, lower link = pre ++ w ++ post)
  /\ kept = List.filter (fun link => negb (should_exclude filter_words link)) links
  /\ excluded_count = length (List.filter (should_exclude filter_words) links)
  /\ length kept + excluded_count = length links.
Proof.
  intros filter_words kept excluded_count.
  split; [intros link; apply should_exclude_spec|].
  assert (Hv : (kept, excluded_count) =
    (List.filter (fun link => negb (should_exclude filter_words link)) links,
     length (List.filter (should_exclude filter_words) links))).
  { subst kept excluded_count. rewrite <- surjective_pairing.
    rewrite filter_links_value. fold filter_words.
    destruct links as [|l links]; [reflexivity|].
    destruct filter_words as [|w ws] eqn:E.
    - rewrite filter_all, filter_none by reflexivity. reflexivity.
    - rewrite filter_loop. reflexivity. }
  injection Hv as Hk Hn. repeat split; try assumption.
  rewrite Hk, Hn. apply filter_split_length.
Qed.

(** ** link_filter.py: the store of filter lists *)

Lemma fresh_unused (st : state) : heap st !! fresh (dom (heap st)) = None.
Proof. apply not_elem_of_dom. apply is_fresh. Qed.

Lemma get_user_filters_eq (user_id : Z) (st : state) :
  get_user_filters user_id st =
  (default (fresh (dom (heap st))) (user_filters st !! user_id), with_copy st).
Proof. reflexivity. Qed.

Lemma wf_init (default_words : list str) : wf default_words (init default_words).
Proof.
  unfold wf, init; simpl. split; [apply lookup_singleton_eq|].
  split; intros u; intros; rewrite lookup_empty in *; discriminate.
Qed.

(** A new list object disturbs nothing. *)
Lemma wf_alloc (dw : list str) (st : state) (f : ref) (v : list str) :
  wf dw st -> heap st !! f = None ->
  wf dw {| heap := <[f := v]> (heap st); user_filters := user_filters st |}.
Proof.
  intros (Hd & Hu & Hi) Hf. unfold wf; simpl. split; [|split].
  - rewrite lookup_insert_ne; [exact Hd | congruence].
  - intros u r Hr. destruct (Hu u r Hr) as [Hne Hs]. split; [exact Hne|].
    rewrite lookup_insert_ne; [exact Hs|]. intros ->. rewrite Hf in Hs.
    destruct Hs; discriminate.
  - exact Hi.
Qed.

(** Binding a user to a new list object. *)
Lemma wf_bind_new (dw : list str) (st : state) (f : ref) (v : list str) (u : Z) :
  wf dw st -> heap st !! f = None ->
  wf dw {| heap := <[f := v]> (heap st);
           user_filters := <[u := f]> (user_filters st) |}.
Proof.
  intros (Hd & Hu & Hi) Hf.
  assert (Hother : forall u' r, user_filters st !! u' = Some r -> r <> f).
  { intros u' r Hr ->. destruct (Hu u' f Hr) as [_ [x Hx]]. congruence. }
  unfold wf; simpl. split; [|split].
  - rewrite lookup_insert_ne; [exact Hd | congruence].
  - intros u' r. destruct (decide (u = u')) as [<-|Hne].
    + rewrite lookup_insert_eq. intros [= <-]. split; [congruence|].
      rewrite lookup_insert_eq. eauto.
    + rewrite lookup_insert_ne by exact Hne. intros Hr.
      destruct (Hu u' r Hr) as [H1 H2]. split; [exact H1|].
      rewrite lookup_insert_ne; [exact H2|]. intros <-.
      exact (Hother u' f Hr eq_refl).
  - intros u1 u2 r.
    destruct (decide (u = u1)) as [<-|N1]; destruct (decide (u = u2)) as [<-|N2];
      rewrite ?lookup_insert_eq, ?lookup_insert_ne by assumption.
    + reflexivity.
    + intros [= <-] H2. destruct (Hother u2 f H2 eq_refl).
    + intros H1 [= <-]. destruct (Hother u1 f H1 eq_refl).
    + apply Hi.
Qed.

(** Changing a user's own list object in place. *)
Lemma wf_write_own (dw : list str) (st : state) (r : ref) (v : list str) (u : Z) :
  wf dw st -> user_filters st !! u = Some r ->
  wf dw {| heap := <[r := v]> (heap st);
           user_filters := <[u := r]> (user_filters st) |}.
Proof.
  intros (Hd & Hu & Hi) Hr. rewrite (insert_id _ _ _ Hr).
  destruct (Hu u r Hr) as [Hne _].
  unfold wf; simpl. split; [|split].
  - rewrite lookup_insert_ne; [exact Hd | exact Hne].
  - intros u' r' Hr'. destruct (Hu u' r' Hr') as [H1 H2]. split; [exact H1|].
    destruct (decide (r = r')) as [<-|N].
    + rewrite lookup_insert_eq. eauto.
    + rewrite lookup_insert_ne by exact N. exact H2.
  - exact Hi.
Qed.

Lemma wf_with_copy (dw : list str) (st : state) : wf dw st -> wf dw (with_copy st).
Proof. intros H. apply wf_alloc; [exact H | apply fresh_unused]. Qed.

Lemma assign_over_copy (u : Z) (v : list str) (st : state) :
  assign u (fresh (dom (heap st))) v (with_copy st)
  = assign u (fresh (dom (heap st))) v st.
Proof. unfold assign, with_copy; simpl. rewrite insert_insert_eq. reflexivity. Qed.

(** A call for a user without a list object that writes to the copy it got. *)
Lemma effect_default_copy (u : Z) (v : list str) (st : state) :
  user_filters st !! u = None ->
  effect u st (assign u (default (fresh (dom (heap st))) (user_filters st !! u))
                 v (with_copy st)).
Proof.
  intros ->. simpl. rewrite assign_over_copy. apply effect_new, fresh_unused.
Qed.

Lemma effect_current (u : Z) (v : list str) (st : state) :
  effect u st (assign u (default (fresh (dom (heap st))) (user_filters st !! u))
                 v (with_copy st)).
Proof.
  destruct (user_filters st !! u) as [r|] eqn:E.
  - simpl. apply effect_own. exact E.
  - rewrite <- E. apply effect_default_copy. exact E.
Qed.

Lemma add_filter_word_state (u : Z) (word : str) (st : state) :
  let w := strip (lower word) in
  let c := default (fresh (dom (heap st))) (user_filters st !! u) in
  let content := default [] (heap (with_copy st) !! c) in
  snd (add_filter_word u word st) =
  if negb (bool_decide (w = [])) && negb (bool_decide (w ∈ content))
  then assign u c (content ++ [w]) (with_copy st)
  else with_copy st.
Proof.
  intros w c content. unfold add_filter_word, bind.
  rewrite get_user_filters_eq. unfold read at 1. fold w c content.
  destruct (negb (bool_decide (w = [])) && negb (bool_decide (w ∈ content)));
    reflexivity.
Qed.

Lemma remove_filter_word_state (u : Z) (word : str) (st : state) :
  let w := strip (lower word) in
  let c := default (fresh (dom (heap st))) (user_filters st !! u) in
  let content := default [] (heap (with_copy st) !! c) in
  remove_filter_word u word st =
  if bool_decide (w ∈ content)
  then (true, assign u c (list_remove w content) (with_copy st))
  else (false, with_copy st).
Proof.
  intros w c content. unfold remove_filter_word, bind.
  rewrite get_user_filters_eq. unfold read at 1. fold w c content.
  destruct (bool_decide (w ∈ content)); reflexivity.
Qed.

Lemma filter_links_state (u : Z) (links : list str) (st : state) :
  snd (filter_links u links st) =
  match links with [] => st | _ => with_copy st end.
Proof.
  destruct links as [|l links]; [reflexivity|].
  unfold filter_links, bind. rewrite get_user_filters_eq. unfold read at 1.
  destruct (default [] _); reflexivity.
Qed.

(** Every call has one of the four effects, for its caller. *)
Lemma exec_effect (c : call) (st : state) : effect (caller c) st (exec c st).
Proof.
  destruct c as [u ws|u w|u w|u|u|u links]; simpl.
  - apply (effect_new u st (fresh (dom (heap st)))), fresh_unused.
  - rewrite add_filter_word_state.
    destruct (_ && _); [apply effect_current | apply effect_copy].
  - rewrite remove_filter_word_state.
    destruct (bool_decide _); simpl; [apply effect_current | apply effect_copy].
  - apply (effect_new u st (fresh (dom (heap st)))), fresh_unused.
  - apply effect_copy.
  - rewrite filter_links_state. destruct links; [apply effect_none | apply effect_copy].
Qed.

Lemma effect_wf (dw : list str) (u : Z) (st st' : state) :
  wf dw st -> effect u st st' -> wf dw st'.
Proof.
  intros Hwf He. destruct He as [| |f v Hf|r v Hr].
  - exact Hwf.
  - apply wf_with_copy, Hwf.
  - apply wf_bind_new; assumption.
  - apply wf_write_own; [apply wf_with_copy, Hwf | exact Hr].
Qed.

Lemma run_snoc (calls : list call) (c : call) (st : state) :
  run (calls ++ [c]) st = exec c (run calls st).
Proof. unfold run. rewrite fold_left_app. reflexivity. Qed.

(** The invariant holds in every state a run of calls reaches. *)
Lemma wf_run (dw : list str) (calls : list call) : wf dw (run calls (init dw)).
Proof.
  induction calls as [|c calls IH] using rev_ind.
  - apply wf_init.
  - rewrite run_snoc. eapply effect_wf; [exact IH | apply exec_effect].
Qed.

(** In such a state a new copy of the default list is seen by nobody. *)
Lemma stored_with_copy (dw : list str) (st : state) (u : Z) :
  wf dw st -> stored (with_copy st) u = stored st u.
Proof.
  intros (Hd & Hu & _). unfold stored, with_copy; simpl.
  assert (Hf := fresh_unused st).
  destruct (user_filters st !! u) as [r|] eqn:E.
  - destruct (Hu u r E) as [_ [x Hx]].
    rewrite lookup_insert_ne; [reflexivity | congruence].
  - rewrite lookup_insert_ne; [reflexivity | congruence].
Qed.

Lemma stored_assign_same (u : Z) (r : ref) (v : list str) (st : state) :
  stored (assign u r v st) u = v.
Proof. unfold stored, assign; simpl. rewrite !lookup_insert_eq. reflexivity. Qed.

Lemma stored_assign_other (dw : list str) (u u' : Z) (r : ref) (v : list str)
    (st : state) :
  wf dw st -> u' <> u ->
  (heap st !! r = None \/ user_filters st !! u = Some r) ->
  stored (assign u r v st) u' = stored st u'.
Proof.
  intros (Hd & Hu & Hi) Hne Hr. unfold stored, assign; simpl.
  rewrite lookup_insert_ne by congruence.
  destruct (user_filters st !! u') as [r'|] eqn:E.
  - rewrite lookup_insert_ne; [reflexivity|]. intros <-.
    destruct Hr as [Hr|Hr].
    + destruct (Hu u' r E) as [_ [x Hx]]. congruence.
    + apply Hne. exact (Hi u' u r E Hr).
  - rewrite lookup_insert_ne; [reflexivity|]. intros ->.
    destruct Hr as [Hr|Hr]; [congruence|].
    destruct (Hu u _ Hr) as [N _]. apply N. reflexivity.
Qed.

(** The effect of a call for [u] is invisible to every other user. *)
Lemma effect_frame (dw : list str) (u u' : Z) (st st' : state) :
  wf dw st -> effect u st st' -> u' <> u -> stored st' u' = stored st u'.
Proof.
  intros Hwf He Hne. destruct He as [| |f v Hf|r v Hr].
  - reflexivity.
  - eapply stored_with_copy, Hwf.
  - eapply stored_assign_other; eauto.
  - rewrite (stored_assign_other dw); [eapply stored_with_copy, Hwf | | exact Hne |].
    + apply wf_with_copy, Hwf.
    + right. exact Hr.
Qed.

(** What [get_user_filters] shows is what the state holds. *)
Lemma filters_of_stored (dw : list str) (st : state) (u : Z) :
  wf dw st -> filters_of st u = stored st u.
Proof.
  intros Hwf. unfold filters_of. rewrite get_user_filters_eq. unfold read; simpl.
  rewrite <- (stored_with_copy dw st u Hwf).
  unfold stored. simpl user_filters.
  destruct (user_filters st !! u) as [r|] eqn:E; simpl; [reflexivity|].
  destruct Hwf as (Hd & _). unfold with_copy; simpl.
  rewrite lookup_insert_eq.
  rewrite lookup_insert_ne; [reflexivity|].
  intros Heq. pose proof (fresh_unused st) as Hf. rewrite Heq in Hf. congruence.
Qed.

Lemma stored_unbound (dw : list str) (st : state) (u : Z) :
  wf dw st -> user_filters st !! u = None -> stored st u = dw.
Proof. intros (Hd & _) E. unfold stored. rewrite E, Hd. reflexivity. Qed.

Lemma current_content (dw : list str) (st : state) (u : Z) :
  wf dw st ->
  default [] (heap (with_copy st)
                !! default (fresh (dom (heap st))) (user_filters st !! u))
  = stored st u.
Proof.
  intros Hwf. rewrite <- (filters_of_stored dw st u Hwf). reflexivity.
Qed.


Lemma bool_decide_in (x : str) (l : list str) :
  bool_decide (x ∈ l) = true <-> In x l.
Proof. rewrite bool_decide_eq_true. apply list_elem_of_In. Qed.

Lemma default_content_wf (dw : list str) (st : state) :
  wf dw st -> default_content st = dw.
Proof. intros (Hd & _). unfold default_content, read; simpl. rewrite Hd. reflexivity. Qed.


Lemma run_app (calls more : list call) (st : state) :
  run (calls ++ more) st = run more (run calls st).
Proof. unfold run. apply fold_left_app. Qed.

Lemma wf_run_from (dw : list str) (more : list call) (st : state) :
  wf dw st -> wf dw (run more st).
Proof.
  revert st. induction more as [|c more IH]; intros st H; [exact H|].
  apply (IH (exec c st)). eapply effect_wf; [exact H | apply exec_effect].
Qed.

(** Calls made for other users leave a user's filters alone. *)
Lemma run_frame (dw : list str) (more : list call) (st : state) (u' : Z) :
  wf dw st -> Forall (fun c => caller c <> u') more ->
  stored (run more st) u' = stored st u'.
Proof.
  revert st. induction more as [|c more IH]; intros st Hwf Hall; [reflexivity|].
  inversion Hall as [|? ? Hc Hmore]; subst.
  change (run (c :: more) st) with (run more (exec c st)).
  rewrite IH.
  - eapply effect_frame; [exact Hwf | apply exec_effect | congruence].
  - eapply effect_wf; [exact Hwf | apply exec_effect].
  - exact Hmore.
Qed.

(** C9. For a user without an entry [get_user_filters] returns a list object
    that did not exist before the call, is not the default list, and holds
    the default words. After any run of calls the default list holds the
    words it was built with, and calls made for other users leave the
    filters [get_user_filters] shows for a user as they were. *)
Theorem default_list_never_shared (default_words : list str)
    (calls more : list call) (u u' : Z) :
  let st := run calls (init default_words) in
  let st' := run more st in
  (user_filters st !! u = None ->
     let r := fst (get_user_filters u st) in
     r <> DEFAULT_FILTER_WORDS
     /\ heap st !! r = None
     /\ fst (read r (snd (get_user_filters u st))) = default_words)
  /\ default_content st' = default_words
  /\ (Forall (fun c => caller c <> u') more ->
        filters_of st' u' = filters_of st u').
Proof.
  intros st st'.
  assert (Hwf : wf default_words st) by apply wf_run.
  assert (Hwf' : wf default_words st') by (apply wf_run_from, Hwf).
  split; [|split].
  - intros Hu r. subst r. rewrite get_user_filters_eq. simpl. rewrite Hu. simpl.
    pose proof (fresh_unused st) as Hf. destruct Hwf as (Hd & _).
    split; [congruence|]. split; [exact Hf|].
    unfold read; simpl. rewrite lookup_insert_eq, Hd. reflexivity.
  - apply default_content_wf, Hwf'.
  - intros Hall. rewrite !(filters_of_stored default_words) by assumption.
    apply (run_frame default_words); assumption.
Qed.

Lemma default_list_never_shared_witness :
  let dw := ["t.me" : str; "whatsapp.com" : str] in
  let st := run [AddFilter 1 "spam"] (init dw) in
  let st' := run [RemoveFilter 1 "t.me"; ClearFilters 3; SetFilters 1 ["x" : str]] st in
  filters_of st' 2 = filters_of st 2 /\ default_content st' = dw.
Proof.
  intros dw st st'.
  destruct (default_list_never_shared dw [AddFilter 1 "spam"]
              [RemoveFilter 1 "t.me"; ClearFilters 3; SetFilters 1 ["x" : str]] 2 2)
    as (_ & Hd & Hf).
  split; [apply Hf | exact Hd].
  repeat constructor; simpl; lia.
Defined.

(** C10 as stated fails for a word that is empty after normalization:
    nothing is appended and nothing is stored. *)
Lemma first_add_appends_counterexample :
  ~ first_add_appends ["t.me" : str; "whatsapp.com" : str] 1 "  ".
Proof. unfold first_add_appends. vm_compute. discriminate. Qed.

(** C10 (amended). For a user without an entry, in any reachable state:
    [add_filter_word] with a word that is non-empty after normalization and
    not in the default list binds the user to a new list object holding the
    default words followed by that word; with a word that is empty or in the
    default list it stores nothing and the user stays on the default;
    [remove_filter_word] with a word of the default list returns [True] and
    binds the user to a new list object holding the default words without
    the first occurrence of that word. The default list itself is unchanged
    throughout. *)
Theorem first_change_copies_default (default_words : list str)
    (calls : list call) (u : Z) (word : str) :
  let st := run calls (init default_words) in
  let w := strip (lower word) in
  let added := snd (add_filter_word u word st) in
  let removed := snd (remove_filter_word u word st) in
  user_filters st !! u = None ->
  (w <> [] -> ~ In w default_words ->
     exists r, user_filters added !! u = Some r
       /\ r <> DEFAULT_FILTER_WORDS
       /\ heap st !! r = None
       /\ heap added !! r = Some (default_words ++ [w])
       /\ filters_of added u = default_words ++ [w]
       /\ default_content added = default_words)
  /\ (w = [] \/ In w default_words ->
        user_filters added !! u = None
        /\ filters_of added u = default_words)
  /\ (In w default_words ->
        fst (remove_filter_word u word st) = true
        /\ exists r, user_filters removed !! u = Some r
             /\ r <> DEFAULT_FILTER_WORDS
             /\ heap st !! r = None
             /\ heap removed !! r = Some (list_remove w default_words)
             /\ filters_of removed u = list_remove w default_words
             /\ default_content removed = default_words).
Proof.
  intros st w added removed Hu.
  assert (Hwf : wf default_words st) by apply wf_run.
  assert (Hwa : wf default_words added).
  { eapply effect_wf; [exact Hwf | apply (exec_effect (AddFilter u word))]. }
  assert (Hwr : wf default_words removed).
  { eapply effect_wf; [exact Hwf | apply (exec_effect (RemoveFilter u word))]. }
  pose proof (add_filter_word_state u word st) as Ha.
  pose proof (remove_filter_word_state u word st) as Hr.
  cbv zeta in Ha, Hr.
  rewrite (current_content default_words st u Hwf) in Ha, Hr.
  rewrite (stored_unbound default_words st u Hwf Hu) in Ha, Hr.
  fold w added in Ha. fold w in Hr.
  assert (Hf := fresh_unused st).
  assert (Hne : fresh (dom (heap st)) <> DEFAULT_FILTER_WORDS).
  { destruct Hwf as (Hd & _). congruence. }
  rewrite Hu in Ha, Hr. simpl default in Ha, Hr.
  rewrite assign_over_copy in Ha, Hr.
  split; [|split].
  - intros Hw Hin.
    rewrite (proj2 (bool_decide_eq_false _)) in Ha by exact Hw.
    rewrite (proj2 (bool_decide_eq_false _)) in Ha
      by (rewrite list_elem_of_In; exact Hin).
    simpl in Ha. exists (fresh (dom (heap st))).
    rewrite (filters_of_stored default_words added u Hwa).
    rewrite (default_content_wf default_words added Hwa).
    rewrite Ha. rewrite stored_assign_same. unfold assign; simpl.
    rewrite !lookup_insert_eq. auto 10.
  - intros Hw.
    assert (E : negb (bool_decide (w = [])) && negb (bool_decide (w ∈ default_words)) = false).
    { destruct Hw as [Hw|Hw].
      - rewrite (bool_decide_eq_true_2 _ Hw). reflexivity.
      - rewrite (proj2 (bool_decide_in w default_words) Hw). apply andb_false_r. }
    rewrite E in Ha.
    rewrite (filters_of_stored default_words added u Hwa). rewrite Ha.
    split; [exact Hu|].
    rewrite (stored_with_copy default_words st u Hwf).
    apply (stored_unbound default_words); assumption.
  - intros Hin.
    rewrite (proj2 (bool_decide_in w default_words) Hin) in Hr.
    rewrite (filters_of_stored default_words removed u Hwr).
    rewrite (default_content_wf default_words removed Hwr).
    subst removed. rewrite Hr. simpl. split; [reflexivity|].
    exists (fresh (dom (heap st))).
    rewrite stored_assign_same. unfold assign; simpl.
    rewrite !lookup_insert_eq. auto 10.
Qed.

Lemma first_change_copies_default_witness :
  let dw := ["t.me" : str; "whatsapp.com" : str] in
  filters_of (snd (add_filter_word 7 " Spam " (init dw))) 7
    = dw ++ ["spam" : str]
  /\ fst (remove_filter_word 7 "T.ME" (init dw)) = true
  /\ filters_of (snd (remove_filter_word 7 "T.ME" (init dw))) 7
    = ["whatsapp.com" : str].
Proof.
  intros dw.
  pose proof (first_change_copies_default dw [] 7 " Spam " eq_refl) as (Ha & _ & _).
  pose proof (first_change_copies_default dw [] 7 "T.ME" eq_refl) as (_ & _ & Hr).
  split; [|split].
  - destruct Ha as (r & _ & _ & _ & _ & H & _).
    + vm_compute. discriminate.
    + vm_compute. intros [H|[H|[]]]; discriminate.
    + exact H.
  - destruct Hr as (H & _); [vm_compute; auto | exact H].
  - destruct Hr as (_ & r & _ & _ & _ & _ & H & _); [vm_compute; auto | exact H].
Defined.

(** ** youtube_extractor.py: [get_video_description] *)

(** C7 fails on the code. For error details that are a list of entries,
    and for details that are empty, [get_video_description] maps what the
    provider did to the typed failures as the claim says: no items give
    NotFound; status 403 gives QuotaExceeded when the reason contains
    [quotaExceeded] and Forbidden otherwise; status 404 gives NotFound; any
    other status gives ProviderError with the reason; a first item with a
    snippet gives success with its description. For error details that are
    a text that is not empty (the body of an error response that is no
    JSON, or that holds a message only) the function returns none of the
    failures: with any status it raises [AttributeError]. *)
Theorem get_video_description_outcomes :
  fails_with (Response None) NotFound
  /\ fails_with (Response (Some [])) NotFound
  /\ (forall details reason,
        reason_of details = Returns reason ->
        contains "quotaExceeded" reason = true ->
        fails_with (HttpError 403 details) QuotaExceeded)
  /\ (forall details reason,
        reason_of details = Returns reason ->
        contains "quotaExceeded" reason = false ->
        fails_with (HttpError 403 details) Forbidden)
  /\ (forall details reason,
        reason_of details = Returns reason ->
        fails_with (HttpError 404 details) NotFound)
  /\ (forall status details reason,
        reason_of details = Returns reason ->
        status <> 403%Z -> status <> 404%Z ->
        fails_with (HttpError status details) (ProviderError reason))
  /\ (forall sn items,
        get_video_description (Response (Some (Some sn :: items)))
        = Returns (true, default [] (description sn)))
  /\ (forall status c text,
        get_video_description (HttpError status (Body (c :: text)))
        = Raises AttributeError)
  /\ (forall e, ~ fails_with (HttpError 403 (Body "Forbidden")) e)
  /\ (forall e, ~ fails_with (HttpError 500 (Body "Bad Gateway")) e).
Proof.
  unfold fails_with. repeat split.
  - eexists. split; [reflexivity | left; reflexivity].
  - eexists. split; [reflexivity | left; reflexivity].
  - intros details reason Hr H. eexists. split; [|reflexivity].
    unfold get_video_description. rewrite Hr, H. reflexivity.
  - intros details reason Hr H. eexists. split; [|reflexivity].
    unfold get_video_description. rewrite Hr, H. reflexivity.
  - intros details reason Hr. eexists. split; [|right; reflexivity].
    unfold get_video_description. rewrite Hr. reflexivity.
  - intros status details reason Hr H3 H4. eexists. split; [|reflexivity].
    unfold get_video_description. rewrite Hr.
    rewrite (proj2 (Z.eqb_neq status 403) H3), (proj2 (Z.eqb_neq status 404) H4).
    reflexivity.
  - intros e (message & H & _). discriminate H.
  - intros e (message & H & _). discriminate H.
Qed.

Lemma get_video_description_outcomes_witness :
  fails_with (HttpError 403 (Entries [Some ("quotaExceeded" : str)])) QuotaExceeded
  /\ fails_with (HttpError 403 (Entries [Some ("forbidden" : str)])) Forbidden
  /\ fails_with (HttpError 500 (Body [])) (ProviderError "Unknown error").
Proof.
  destruct get_video_description_outcomes as (_ & _ & Hq & Hf & _ & Hp & _).
  split; [|split].
  - apply (Hq _ "quotaExceeded"); reflexivity.
  - apply (Hf _ "forbidden"); reflexivity.
  - apply (Hp 500%Z (Body []) "Unknown error"); [reflexivity | discriminate..].
Defined.

(** ** youtube_extractor.py: duplicates and order in [extract_https_links] *)

Lemma first_index_app_in (x : str) (l l' : list str) :
  In x l -> first_index x (l ++ l') = first_index x l.
Proof.
  induction l as [|y l IH]; intros Hin; [destruct Hin|]. simpl.
  destruct (bool_decide (y = x)) eqn:E; [reflexivity|].
  apply bool_decide_eq_false in E. destruct Hin as [H|H]; [contradiction|].
  rewrite IH by exact H. reflexivity.
Qed.

Lemma first_index_lt (x : str) (l : list str) :
  In x l -> first_index x l < length l.
Proof.
  induction l as [|y l IH]; intros Hin; [destruct Hin|]. simpl.
  destruct (bool_decide (y = x)) eqn:E; [lia|].
  apply bool_decide_eq_false in E. destruct Hin as [H|H]; [contradiction|].
  specialize (IH H). lia.
Qed.

Lemma first_index_new (x : str) (l : list str) :
  ~ In x l -> first_index x (l ++ [x]) = length l.
Proof.
  induction l as [|y l IH]; intros Hn; simpl.
  - rewrite bool_decide_eq_true_2; reflexivity.
  - rewrite bool_decide_eq_false_2 by (intros ->; apply Hn; left; reflexivity).
    rewrite IH; [reflexivity|]. intros H. apply Hn. right. exact H.
Qed.

Lemma fold_clean_step (links : list str) (acc : list str) :
  fold_left clean_step links acc
  = fold_left add_new (map (sub_empty trailing_pattern) links) acc.
Proof.
  revert acc. induction links as [|l links IH]; intros acc; [reflexivity|].
  simpl. rewrite <- IH. reflexivity.
Qed.

Lemma extract_https_links_eq (text : str) :
  extract_https_links text = fold_left add_new (cleaned_matches text) [].
Proof.
  unfold extract_https_links, cleaned_matches.
  destruct text; [reflexivity|]. apply fold_clean_step.
Qed.

(** The loop invariant of the cleaning loop, after the links [seen]. *)
Lemma add_new_invariant (seen : list str) :
  let out := fold_left add_new seen [] in
  NoDup out
  /\ (forall l, In l out <-> In l seen /\ l <> [])
  /\ (forall i j x y, out !! i = Some x -> out !! j = Some y -> i < j ->
        first_index x seen < first_index y seen).
Proof.
  induction seen as [|y seen IH] using rev_ind; simpl.
  - split; [constructor|]. split.
    + intros l. split; [intros [] | intros [[] _]].
    + intros i j x y Hi. rewrite lookup_nil in Hi. discriminate.
  - rewrite fold_left_app. simpl.
    set (out := fold_left add_new seen []) in *.
    destruct IH as (Hnd & Hmem & Hord).
    assert (Hkeep : forall x, In x out -> first_index x (seen ++ [y]) = first_index x seen).
    { intros x Hx. apply first_index_app_in. apply Hmem. exact Hx. }
    unfold add_new.
    destruct (bool_decide (y = [])) eqn:Ey; simpl;
      [|destruct (bool_decide (y ∈ out)) eqn:Eo; simpl].
    + apply bool_decide_eq_true in Ey. subst y.
      split; [exact Hnd|]. split.
      * intros l. rewrite Hmem, in_app_iff. simpl. intuition congruence.
      * intros i j x y Hi Hj Hlt.
        rewrite !Hkeep by (apply list_elem_of_In; eapply list_elem_of_lookup_2; eassumption).
        eauto.
    + apply bool_decide_eq_true, list_elem_of_In in Eo.
      apply bool_decide_eq_false in Ey.
      split; [exact Hnd|]. split.
      * intros l. rewrite Hmem, in_app_iff. simpl.
        split; [tauto|]. intros [[H|[<-|[]]] Hl]; [tauto|].
        apply Hmem. exact Eo.
      * intros i j x y' Hi Hj Hlt.
        rewrite !Hkeep by (apply list_elem_of_In; eapply list_elem_of_lookup_2; eassumption).
        eauto.
    + apply bool_decide_eq_false in Eo. apply bool_decide_eq_false in Ey.
      assert (Hny : ~ In y seen).
      { intros H. apply Eo. apply list_elem_of_In, Hmem. auto. }
      split; [|split].
      * apply NoDup_app. split; [exact Hnd|]. split.
        -- intros x Hx Hx'. apply list_elem_of_singleton in Hx'. subst x.
           exact (Eo Hx).
        -- apply NoDup_singleton.
      * intros l. rewrite !in_app_iff, Hmem. simpl.
        split; [intros [H|[<-|[]]]; tauto | tauto].
      * intros i j x y' Hi Hj Hlt.
        assert (Hi' : out !! i = Some x).
        { rewrite lookup_app_l in Hi; [exact Hi|].
          apply lookup_lt_Some in Hj. rewrite length_app in Hj. simpl in Hj. lia. }
        assert (Hx : In x out).
        { apply list_elem_of_In. eapply list_elem_of_lookup_2. exact Hi'. }
        rewrite (Hkeep x Hx).
        destruct (decide (j < length out)) as [Hj'|Hj'].
        -- rewrite lookup_app_l in Hj by exact Hj'.
           rewrite Hkeep by (apply list_elem_of_In; eapply list_elem_of_lookup_2; eassumption).
           eauto.
        -- rewrite lookup_app_r in Hj by lia.
           destruct (j - length out) as [|k] eqn:Ek; simpl in Hj; [|discriminate].
           injection Hj as <-. rewrite first_index_new by exact Hny.
           apply first_index_lt. apply Hmem. exact Hx.
Qed.

(** ** The matcher *)

Lemma match_lit_ci (l s : str) (k : str -> option str) :
  match_k (lit_ci l) s k
  = if ci_prefix l s then k (skipn (length l) s) else None.
Proof.
  revert s. induction l as [|a l IH]; intros s; [reflexivity|].
  destruct l as [|a' l].
  - destruct s as [|c s]; [reflexivity|]. simpl.
    rewrite andb_true_r. destruct (ch_eqb _ _); reflexivity.
  - change (lit_ci (a :: a' :: l)) with (Seq (chr_ci a) (lit_ci (a' :: l))).
    destruct s as [|c s]; [reflexivity|].
    change (match_k (Seq (chr_ci a) (lit_ci (a' :: l))) (c :: s) k)
      with (if ch_eqb (lower_char c) (lower_char a)
            then match_k (lit_ci (a' :: l)) s k else None).
    rewrite IH.
    change (ci_prefix (a :: a' :: l) (c :: s))
      with (ch_eqb (lower_char c) (lower_char a) && ci_prefix (a' :: l) s).
    destruct (ch_eqb _ _); reflexivity.
Qed.

Lemma ci_prefix_spec (l s : str) :
  ci_prefix l s = true <-> exists pfx rest, s = pfx ++ rest /\ lower pfx = lower l.
Proof.
  revert s. induction l as [|a l IH]; intros s; simpl.
  - split; [intros _; exists [], s; auto | reflexivity].
  - destruct s as [|b s].
    + split; [discriminate|]. intros (pfx & rest & H & Hl).
      destruct pfx; [discriminate Hl | discriminate H].
    + rewrite andb_true_iff, ch_eqb_true, IH. split.
      * intros [Hb (pfx & rest & -> & Hl)]. exists (b :: pfx), rest.
        split; [reflexivity|]. unfold lower in *. simpl. rewrite Hb, Hl.
        reflexivity.
      * intros (pfx & rest & H & Hl). destruct pfx as [|b' pfx]; [discriminate Hl|].
        simpl in H, Hl. injection H as <- ->. injection Hl as Hb Hl.
        split; [exact Hb|]. exists pfx, rest. auto.
Qed.

(** With a continuation that always accepts, a greedy class takes the whole
    run. *)
Lemma star_k_greedy (p : ascii -> bool) (s : str) :
  star_k p s Some = Some (lstrip_of p s).
Proof.
  induction s as [|c s IH]; [reflexivity|]. simpl.
  destruct (p c); [rewrite IH|]; reflexivity.
Qed.

Lemma lstrip_split (p : ascii -> bool) (s : str) :
  exists run, s = run ++ lstrip_of p s /\ forallb p run = true
    /\ match lstrip_of p s with [] => True | d :: _ => p d = false end.
Proof.
  induction s as [|c s (run & Hs & Hp & He)]; [exists []; simpl; auto|].
  simpl. destruct (p c) eqn:E.
  - exists (c :: run). simpl. rewrite E, Hp. rewrite <- Hs. auto.
  - exists []. simpl. auto.
Qed.

Lemma findall_scan_skip (r : regex) (xs tail : str) :
  findall_scan r (length xs) (xs ++ tail) = findall_scan r 0 tail.
Proof. induction xs as [|x xs IH]; [reflexivity | exact IH]. Qed.

(** At a match the scan reports the matched text and resumes behind it. *)
Lemma findall_scan_match (r : regex) (m rest : str) :
  m <> [] -> match_at r (m ++ rest) = Some rest ->
  findall_scan r 0 (m ++ rest) = m :: findall_scan r 0 rest.
Proof.
  intros Hm H. destruct m as [|c m]; [contradiction|].
  change (findall_scan r 0 ((c :: m) ++ rest))
    with (match match_at r ((c :: m) ++ rest) with
          | Some rest' =>
              firstn (length ((c :: m) ++ rest) - length rest') ((c :: m) ++ rest)
              :: findall_scan r
                   (length ((c :: m) ++ rest) - length rest' - 1) (m ++ rest)
          | None => findall_scan r 0 (m ++ rest)
          end).
  rewrite H.
  assert (E : length ((c :: m) ++ rest) - length rest = S (length m)).
  { rewrite length_app. simpl. lia. }
  rewrite E. f_equal.
  - apply (take_app_length (c :: m) rest).
  - replace (S (length m) - 1) with (length m) by lia.
    apply findall_scan_skip.
Qed.

Lemma findall_scan_nomatch (r : regex) (c : ascii) (s : str) :
  match_at r (c :: s) = None ->
  findall_scan r 0 (c :: s) = findall_scan r 0 s.
Proof.
  intros H.
  change (findall_scan r 0 (c :: s))
    with (match match_at r (c :: s) with
          | Some rest' =>
              firstn (length (c :: s) - length rest') (c :: s)
              :: findall_scan r (length (c :: s) - length rest' - 1) s
          | None => findall_scan r 0 s
          end).
  rewrite H. reflexivity.
Qed.

(** ** youtube_extractor.py: the scan for links *)

Lemma https_match_at (s : str) :
  match_at https_pattern s
  = if ci_prefix "https://" s then
      match skipn 8 s with
      | c :: s' => if is_link_char c then Some (lstrip_of is_link_char s') else None
      | [] => None
      end
    else None.
Proof.
  unfold match_at, https_pattern.
  change (match_k (Seq (lit_ci "https://") (Plus is_link_char)) s Some)
    with (match_k (lit_ci "https://") s (fun s' => match_k (Plus is_link_char) s' Some)).
  rewrite match_lit_ci. destruct (ci_prefix _ s); [|reflexivity].
  change (length (list_ascii_of_string "https://")) with 8.
  destruct (skipn 8 s) as [|c s']; [reflexivity|]. simpl.
  destruct (is_link_char c); [apply star_k_greedy | reflexivity].
Qed.

Lemma https_prefix_length (pfx : str) :
  lower pfx = ("https://" : str) -> length pfx = 8.
Proof.
  intros H. apply (f_equal (@length ascii)) in H.
  unfold lower in H. rewrite length_map in H. exact H.
Qed.

Lemma https_match_some (s rest : str) :
  match_at https_pattern s = Some rest ->
  exists pfx body,
    s = pfx ++ body ++ rest /\ lower pfx = ("https://" : str) /\ body <> []
    /\ forallb is_link_char body = true /\ run_ends rest.
Proof.
  rewrite https_match_at. destruct (ci_prefix _ s) eqn:E; [|discriminate].
  apply ci_prefix_spec in E. destruct E as (pfx & tl & -> & Hl).
  change (lower (list_ascii_of_string "https://")) with ("https://" : str) in Hl.
  rewrite <- (https_prefix_length pfx Hl), drop_app_length.
  destruct tl as [|c s']; [discriminate|].
  destruct (is_link_char c) eqn:Ec; [|discriminate]. intros [= <-].
  destruct (lstrip_split is_link_char s') as (run & Hs & Hp & He).
  exists pfx, (c :: run). repeat split; try assumption.
  - simpl. rewrite <- Hs. reflexivity.
  - discriminate.
  - simpl. rewrite Ec, Hp. reflexivity.
Qed.

Lemma https_match_none (s : str) :
  match_at https_pattern s = None -> ~ starts_link s.
Proof.
  rewrite https_match_at. intros H (pfx & c & rest & -> & Hl & Hc).
  rewrite (proj2 (ci_prefix_spec _ _)) in H by (exists pfx, (c :: rest); auto).
  rewrite <- (https_prefix_length pfx Hl), drop_app_length in H.
  rewrite Hc in H. discriminate.
Qed.

(** [findall] with [https_pattern] is the scan of the specification. *)
Lemma findall_is_scan (text : str) : LinkScan text (findall https_pattern text).
Proof.
  unfold findall.
  remember (length text) as n eqn:Hn.
  assert (Hle : length text <= n) by lia. clear Hn.
  revert text Hle. induction n as [|n IH]; intros text Hle.
  - destruct text; [|simpl in Hle; lia]. apply scan_end.
  - destruct text as [|c s]; [apply scan_end|].
    destruct (match_at https_pattern (c :: s)) as [rest|] eqn:E.
    + destruct (https_match_some _ _ E) as (pfx & body & Hs & Hl & Hb & Hp & He).
      rewrite Hs in *. rewrite app_assoc in E |- *.
      rewrite findall_scan_match; [| |exact E].
      * rewrite <- app_assoc. apply scan_link; try assumption.
        apply IH. pose proof (https_prefix_length pfx Hl).
        rewrite !length_app in Hle. simpl in Hle. lia.
      * destruct pfx; [discriminate Hl | discriminate].
    + rewrite findall_scan_nomatch by exact E.
      apply scan_skip; [apply https_match_none; exact E|].
      apply IH. simpl in Hle. lia.
Qed.

(** ** Facts about single characters, checked on all of them *)

Lemma ascii_forall (P : ascii -> bool) :
  forallb P all_ascii = true -> forall c, P c = true.
Proof.
  intros H c. rewrite forallb_forall in H. apply H.
  unfold all_ascii. rewrite <- (ascii_nat_embedding c).
  apply in_map, in_seq. pose proof (nat_ascii_bounded c). lia.
Qed.

Lemma link_char_lower (c : ascii) : is_link_char (lower_char c) = is_link_char c.
Proof.
  apply eqb_prop.
  apply (ascii_forall (fun c => Bool.eqb (is_link_char (lower_char c)) (is_link_char c))).
  vm_compute. reflexivity.
Qed.

Lemma link_char_not_newline (c : ascii) :
  is_link_char c = true -> ch_eqb "010" c = false.
Proof.
  intros H.
  pose proof (ascii_forall (fun c => negb (is_link_char c) || negb (ch_eqb "010" c))
                eq_refl c) as F.
  simpl in F. rewrite H in F. simpl in F. apply negb_true_iff in F. exact F.
Qed.

Lemma punct_not_newline (c : ascii) :
  is_trailing_punct c = true -> ch_eqb c "010" = false.
Proof.
  intros H.
  pose proof (ascii_forall (fun c => negb (is_trailing_punct c) || negb (ch_eqb c "010"))
                eq_refl c) as F.
  simpl in F. rewrite H in F. simpl in F. apply negb_true_iff in F. exact F.
Qed.

Lemma letter_h_not_punct (c : ascii) :
  lower_char c = "h"%char -> is_trailing_punct c = false.
Proof.
  intros H.
  pose proof (ascii_forall
                (fun c => negb (ch_eqb (lower_char c) "h") || negb (is_trailing_punct c))
                eq_refl c) as F.
  simpl in F. rewrite H in F. simpl in F. apply negb_true_iff in F. exact F.
Qed.

(** ** youtube_extractor.py: the trailing punctuation *)

Lemma forallb_rev_eq {A : Type} (p : A -> bool) (l : list A) :
  forallb p (rev l) = forallb p l.
Proof.
  induction l as [|x l IH]; [reflexivity|]. simpl.
  rewrite forallb_app, IH. simpl. rewrite andb_true_r. apply andb_comm.
Qed.

Lemma lstrip_app_last (p : ascii -> bool) (l : str) (c : ascii) :
  lstrip_of p (l ++ [c])
  = if forallb p l then (if p c then [] else [c]) else lstrip_of p l ++ [c].
Proof.
  induction l as [|x l IH]; [reflexivity|]. simpl.
  destruct (p x); [exact IH | reflexivity].
Qed.

Lemma rstrip_cons (p : ascii -> bool) (c : ascii) (s : str) :
  rstrip_of p (c :: s) = if forallb p (c :: s) then [] else c :: rstrip_of p s.
Proof.
  unfold rstrip_of. simpl rev. rewrite lstrip_app_last, forallb_rev_eq. simpl.
  destruct (forallb p s) eqn:E.
  - destruct (p c); simpl; [reflexivity|].
    f_equal. clear c. symmetry.
    assert (H : lstrip_of p (rev s) = []).
    { rewrite <- forallb_rev_eq in E. induction (rev s) as [|x l IH]; [reflexivity|].
      simpl in *. apply andb_true_iff in E. destruct E as [-> E]. auto. }
    rewrite H. reflexivity.
  - rewrite andb_false_r, rev_app_distr. reflexivity.
Qed.

(** What [rstrip_of] does, in words: a run of characters of the set at the
    end of the text goes, the text before it stays. *)
Lemma rstrip_run (p : ascii -> bool) (core run : str) :
  forallb p run = true ->
  (forall front c, core = front ++ [c] -> p c = false) ->
  rstrip_of p (core ++ run) = core.
Proof.
  intros Hrun Hcore. unfold rstrip_of. rewrite rev_app_distr.
  assert (H : forall l, forallb p l = true -> forall t, lstrip_of p (l ++ t) = lstrip_of p t).
  { induction l as [|x l IH]; intros Hl t; [reflexivity|]. simpl in *.
    apply andb_true_iff in Hl. destruct Hl as [-> Hl]. auto. }
  rewrite H by (rewrite forallb_rev_eq; exact Hrun).
  destruct (rev core) as [|c t] eqn:E.
  - apply (f_equal (@rev ascii)) in E. rewrite rev_involutive in E. subst core.
    reflexivity.
  - simpl. rewrite (Hcore (rev t) c).
    + rewrite <- E. apply rev_involutive.
    + apply (f_equal (@rev ascii)) in E. rewrite rev_involutive in E. exact E.
Qed.

Lemma star_then_eos (s : str) :
  has_char "010" s = false ->
  star_k is_trailing_punct s (fun s' => match_k Eos s' Some)
  = if forallb is_trailing_punct s then Some [] else None.
Proof.
  induction s as [|c s IH]; intros Hn; [reflexivity|].
  rewrite has_char_cons in Hn. apply orb_false_iff in Hn. destruct Hn as [Hc Hn].
  cbn [star_k forallb]. rewrite (IH Hn).
  assert (Hk : match_k Eos (c :: s) Some = None).
  { destruct s as [|d s]; [|reflexivity].
    cbn [match_k]. rewrite ch_eqb_sym, Hc. reflexivity. }
  rewrite Hk.
  destruct (is_trailing_punct c); [|reflexivity].
  destruct (forallb is_trailing_punct s); reflexivity.
Qed.

Lemma trailing_match_at (s : str) :
  has_char "010" s = false ->
  match_at trailing_pattern s
  = match s with
    | [] => None
    | _ => if forallb is_trailing_punct s then Some [] else None
    end.
Proof.
  intros Hn. destruct s as [|c s]; [reflexivity|].
  unfold match_at, trailing_pattern.
  change (match_k (Seq (Plus is_trailing_punct) Eos) (c :: s) Some)
    with (if is_trailing_punct c
          then star_k is_trailing_punct s (fun s' => match_k Eos s' Some)
          else None).
  rewrite has_char_cons in Hn. apply orb_false_iff in Hn. destruct Hn as [_ Hn].
  rewrite (star_then_eos s Hn). cbn [forallb].
  destruct (is_trailing_punct c); reflexivity.
Qed.

Lemma sub_scan_skip_all (r : regex) (s : str) : sub_scan r (length s) s = [].
Proof.
  induction s as [|c s IH]; [|exact IH].
  simpl. destruct (match_at r []); reflexivity.
Qed.

(** On a text without a line feed, the substitution with [trailing_pattern]
    removes the run of trailing punctuation. *)
Lemma sub_trailing (s : str) :
  has_char "010" s = false ->
  sub_empty trailing_pattern s = rstrip_of is_trailing_punct s.
Proof.
  unfold sub_empty. induction s as [|c s IH]; intros Hn; [reflexivity|].
  rewrite rstrip_cons.
  change (sub_scan trailing_pattern 0 (c :: s))
    with (match match_at trailing_pattern (c :: s) with
          | Some rest =>
              if length (c :: s) - length rest =? 0
              then c :: sub_scan trailing_pattern 0 s
              else sub_scan trailing_pattern (length (c :: s) - length rest - 1) s
          | None => c :: sub_scan trailing_pattern 0 s
          end).
  rewrite (trailing_match_at (c :: s) Hn).
  destruct (forallb is_trailing_punct (c :: s)).
  - simpl. rewrite Nat.sub_0_r. apply sub_scan_skip_all.
  - f_equal. apply IH. rewrite has_char_cons in Hn.
    apply orb_false_iff in Hn. tauto.
Qed.

Lemma link_chars_no_newline (s : str) :
  forallb is_link_char s = true -> has_char "010" s = false.
Proof.
  induction s as [|c s IH]; [reflexivity|]. cbn [forallb].
  intros H. apply andb_true_iff in H. destruct H as [Hc Hs].
  rewrite has_char_cons, (link_char_not_newline c Hc), (IH Hs). reflexivity.
Qed.

(** Every text the scan reports is a link: the prefix and a run of link
    characters. *)
Lemma scan_reports_links (text : str) (ls : list str) :
  LinkScan text ls ->
  forall m, In m ls ->
    exists pfx body, m = pfx ++ body /\ lower pfx = ("https://" : str)
      /\ body <> [] /\ forallb is_link_char body = true.
Proof.
  induction 1 as [|c s ls Hn Hs IH|pfx body tail ls Hl Hb Hp He Hs IH];
    intros m Hm.
  - destruct Hm.
  - apply IH, Hm.
  - destruct Hm as [<-|Hm]; [|apply IH, Hm]. exists pfx, body. auto.
Qed.

Lemma https_prefix_link_chars (pfx : str) :
  lower pfx = ("https://" : str) -> forallb is_link_char pfx = true.
Proof.
  intros H.
  assert (E : forallb is_link_char (lower pfx) = true) by (rewrite H; reflexivity).
  clear H. induction pfx as [|c pfx IH]; [reflexivity|].
  simpl in *. rewrite link_char_lower in E.
  apply andb_true_iff in E. destruct E as [-> E]. auto.
Qed.

(** A cleaned match is never empty: the cleaning stops at the prefix. *)
Lemma cleaned_matches_nonempty (text : str) (l : str) :
  In l (cleaned_matches text) -> l <> [].
Proof.
  unfold cleaned_matches. rewrite in_map_iff. intros (m & <- & Hm).
  destruct (scan_reports_links _ _ (findall_is_scan text) m Hm)
    as (pfx & body & -> & Hl & Hb & Hp).
  rewrite sub_trailing.
  - destruct pfx as [|c pfx]; [discriminate Hl|].
    simpl app. rewrite rstrip_cons. simpl forallb.
    injection Hl as Hc _. rewrite (letter_h_not_punct c Hc). discriminate.
  - apply link_chars_no_newline. rewrite forallb_app, Hp.
    rewrite (https_prefix_link_chars pfx Hl). reflexivity.
Qed.

(** A run of link characters and what ends it are determined by the text. *)
Lemma run_unique (a a' tail tail' : str) :
  forallb is_link_char a = true -> forallb is_link_char a' = true ->
  run_ends tail -> run_ends tail' ->
  a ++ tail = a' ++ tail' -> a = a' /\ tail = tail'.
Proof.
  revert a'. induction a as [|x a IH]; intros a' Ha Ha' Ht Ht' E.
  - destruct a' as [|y a']; [auto|]. simpl in *. subst tail.
    apply andb_true_iff in Ha'. simpl in Ht. destruct Ha'. congruence.
  - destruct a' as [|y a']; simpl in *.
    + subst tail'. apply andb_true_iff in Ha. simpl in Ht'. destruct Ha. congruence.
    + injection E as <- E. apply andb_true_iff in Ha, Ha'.
      destruct (IH a') as [-> ->]; tauto.
Qed.

(** The scan of the specification has one result. *)
Lemma scan_functional (text : str) (ls ls' : list str) :
  LinkScan text ls -> LinkScan text ls' -> ls = ls'.
Proof.
  intros H. revert ls'.
  induction H as [|c s ls Hn Hs IH|pfx body tail ls Hl Hb Hp He Hs IH];
    intros ls' H'.
  - inversion H' as [| |pfx body tail ls0 Hl Hb Hp He Hs E]; [reflexivity|].
    destruct pfx; [discriminate Hl | discriminate E].
  - inversion H' as [|c0 s0 ls0 Hn0 Hs0|pfx body tail ls0 Hl Hb Hp He Hs0 E]; subst.
    + apply IH. exact Hs0.
    + exfalso. apply Hn. rewrite <- E.
      destruct body as [|b body]; [contradiction|].
      exists pfx, b, (body ++ tail). simpl in Hp.
      apply andb_true_iff in Hp. tauto.
  - assert (Hstart : starts_link (pfx ++ body ++ tail)).
    { destruct body as [|b body]; [contradiction|].
      exists pfx, b, (body ++ tail). simpl in Hp.
      apply andb_true_iff in Hp. tauto. }
    inversion H' as [E|c0 s0 ls0 Hn0 Hs0 E|pfx' body' tail' ls0 Hl' Hb' Hp' He' Hs0 E].
    + destruct pfx; [discriminate Hl | discriminate E].
    + exfalso. apply Hn0. rewrite E. exact Hstart.
    + assert (Hpfx : pfx' = pfx /\ body' ++ tail' = body ++ tail).
      { apply app_inj_1; [|exact E].
        rewrite (https_prefix_length pfx Hl), (https_prefix_length pfx' Hl').
        reflexivity. }
      destruct Hpfx as [-> E'].
      destruct (run_unique body' body tail' tail Hp' Hp He' He E') as [-> ->].
      f_equal. apply IH. exact Hs0.
Qed.

(** C4. For every text the list [extract_https_links] returns has no
    duplicates and no empty string, holds exactly the cleaned matches of the
    text, and orders them by their first appearance among the cleaned
    matches; the text of the example gives its link once. *)
Theorem extract_https_links_distinct (text : str) :
  let out := extract_https_links text in
  NoDup out
  /\ ~ In [] out
  /\ (forall l, In l out <-> In l (cleaned_matches text))
  /\ (forall i j x y, out !! i = Some x -> out !! j = Some y -> i < j ->
        first_index x (cleaned_matches text) < first_index y (cleaned_matches text))
  /\ extract_https_links "https://a.com https://a.com" = ["https://a.com" : str].
Proof.
  intros out. subst out. rewrite extract_https_links_eq.
  destruct (add_new_invariant (cleaned_matches text)) as (Hnd & Hmem & Hord).
  split; [exact Hnd|]. split; [|split; [|split]].
  - intros H. apply Hmem in H. destruct H as [_ H]. apply H. reflexivity.
  - intros l. rewrite Hmem. split; [tauto|].
    intros H. split; [exact H|]. exact (cleaned_matches_nonempty text l H).
  - exact Hord.
  - vm_compute. reflexivity.
Qed.

(** ** urllib.parse and [extract_video_id] *)

Lemma avoids_app (set a b : str) :
  avoids set (a ++ b) = avoids set a && avoids set b.
Proof. apply forallb_app. Qed.

Lemma avoids_weaken (set set' s : str) :
  forallb (fun c => has_char c set) set' = true ->
  avoids set s = true -> avoids set' s = true.
Proof.
  intros Hsub. unfold avoids. rewrite !forallb_forall. intros H c Hc.
  specialize (H c Hc). apply negb_true_iff in H. apply negb_true_iff.
  destruct (has_char c set') eqn:E; [|reflexivity].
  unfold has_char in E. apply existsb_exists in E. destruct E as (x & Hx & Hcx).
  apply ch_eqb_true in Hcx. subst x.
  rewrite forallb_forall in Hsub. rewrite (Hsub c Hx) in H. discriminate.
Qed.

Lemma avoids_has_char (set s : str) (x : ascii) :
  has_char x set = true -> avoids set s = true -> has_char x s = false.
Proof.
  intros Hx H. apply has_char_false. unfold avoids in H.
  rewrite forallb_forall in *. intros c Hc. specialize (H c Hc).
  apply negb_true_iff. apply negb_true_iff in H.
  destruct (ch_eqb x c) eqn:E; [|reflexivity].
  apply ch_eqb_true in E. subst c. congruence.
Qed.

Lemma find_from_none (n : nat) (x : ascii) (s : str) :
  has_char x s = false -> find_from n x s = None.
Proof.
  revert n. induction s as [|c s IH]; intros n H; [reflexivity|].
  rewrite has_char_cons in H. apply orb_false_iff in H. destruct H as [Hc Hs].
  cbn [find_from]. rewrite Hc. apply IH, Hs.
Qed.

Lemma find_from_app (n : nat) (x : ascii) (a b : str) :
  has_char x a = false -> find_from n x (a ++ x :: b) = Some (n + length a).
Proof.
  revert n. induction a as [|c a IH]; intros n H.
  - simpl. rewrite ch_eqb_refl. f_equal. lia.
  - rewrite has_char_cons in H. apply orb_false_iff in H. destruct H as [Hc Hs].
    simpl app. cbn [find_from]. rewrite Hc, IH by exact Hs. simpl. f_equal. lia.
Qed.

Lemma find_none (x : ascii) (s : str) : has_char x s = false -> find x s = None.
Proof. apply find_from_none. Qed.

Lemma find_app (x : ascii) (a b : str) :
  has_char x a = false -> find x (a ++ x :: b) = Some (length a).
Proof. intros H. unfold find. rewrite find_from_app by exact H. reflexivity. Qed.

Lemma remove_char_id (x : ascii) (s : str) :
  has_char x s = false -> remove_char x s = s.
Proof.
  intros H. apply has_char_false in H. unfold remove_char.
  induction s as [|c s IH]; [reflexivity|]. simpl in *.
  apply andb_true_iff in H. destruct H as [-> H]. rewrite IH by exact H. reflexivity.
Qed.

Lemma remove_unsafe_id (s : str) :
  avoids unsafe_chars s = true -> remove_unsafe s = s.
Proof.
  intros H. unfold remove_unsafe.
  rewrite (remove_char_id "009" s)
    by (eapply avoids_has_char; [|exact H]; reflexivity).
  rewrite (remove_char_id "013" s)
    by (eapply avoids_has_char; [|exact H]; reflexivity).
  apply remove_char_id. eapply avoids_has_char; [|exact H]. reflexivity.
Qed.

Lemma span_until_app (p : ascii -> bool) (a b : str) :
  forallb (fun c => negb (p c)) a = true ->
  match b with [] => True | d :: _ => p d = true end ->
  span_until p (a ++ b) = (a, b).
Proof.
  intros Ha Hb. induction a as [|c a IH]; simpl in *.
  - destruct b as [|d b]; [reflexivity|]. simpl. rewrite Hb. reflexivity.
  - apply andb_true_iff in Ha. destruct Ha as [Hc Ha].
    apply negb_true_iff in Hc. rewrite Hc, IH by exact Ha. reflexivity.
Qed.

Lemma has_char_app (x : ascii) (a b : str) :
  has_char x (a ++ b) = has_char x a || has_char x b.
Proof. apply existsb_app. Qed.

Lemma drop_succ_app (a b : str) (x : ascii) :
  drop (S (length a)) (a ++ x :: b) = b.
Proof. induction a as [|c a IH]; [reflexivity | exact IH]. Qed.

Ltac absent H := eapply avoids_has_char; [|exact H]; reflexivity.

Section Parse.
Context {lib : Library}.

Lemma scheme_char_plain (c : ascii) :
  is_scheme_char c = true ->
  negb (has_char c (":"%char :: unsafe_chars)) = true.
Proof.
  intros H.
  pose proof (ascii_forall
    (fun c => negb (is_scheme_char c) || negb (has_char c (":"%char :: unsafe_chars)))
    eq_refl c) as F.
  cbv beta in F. rewrite H in F. exact F.
Qed.

Lemma alpha_not_c0 (c : ascii) :
  is_ascii_alpha c = true -> is_c0_or_space c = false.
Proof.
  intros H.
  pose proof (ascii_forall
    (fun c => negb (is_ascii_alpha c) || negb (is_c0_or_space c)) eq_refl c) as F.
  cbv beta in F. rewrite H in F. apply negb_true_iff in F. exact F.
Qed.

Lemma scheme_avoids (sch : str) :
  forallb is_scheme_char sch = true ->
  avoids (":"%char :: unsafe_chars) sch = true.
Proof.
  unfold avoids. rewrite !forallb_forall. intros H c Hc.
  apply scheme_char_plain, H, Hc.
Qed.

Lemma urlsplit_wellformed (sch host pth : str) (q : option str) :
  is_head_alpha sch = true ->
  forallb is_scheme_char sch = true ->
  avoids (("/?#[]" : str) ++ unsafe_chars) host = true ->
  is_path pth = true ->
  avoids (("?#;" : str) ++ unsafe_chars) pth = true ->
  avoids ("#"%char :: unsafe_chars) (default [] q) = true ->
  urlsplit (sch ++ ("://" : str) ++ host ++ pth ++ query_part q)
  = Some {| scheme := lower sch; netloc := host; path := pth; params := [];
            query := default [] q; fragment := [] |}.
Proof.
  intros Hhead Hsch Hhost Hpath Hpth Hq.
  pose proof (scheme_avoids sch Hsch) as Hs.
  assert (Hsafe : avoids unsafe_chars
                    (sch ++ ("://" : str) ++ host ++ pth ++ query_part q) = true).
  { assert (A1 : avoids unsafe_chars sch = true)
      by (eapply avoids_weaken; [|exact Hs]; reflexivity).
    assert (A2 : avoids unsafe_chars host = true)
      by (eapply avoids_weaken; [|exact Hhost]; reflexivity).
    assert (A3 : avoids unsafe_chars pth = true)
      by (eapply avoids_weaken; [|exact Hpth]; reflexivity).
    assert (A4 : avoids unsafe_chars (query_part q) = true).
    { destruct q as [qry|]; [|reflexivity].
      change (avoids unsafe_chars (query_part (Some qry)))
        with (true && avoids unsafe_chars qry).
      simpl. eapply avoids_weaken; [|exact Hq]. reflexivity. }
    rewrite !avoids_app, A1, A2, A3, A4. reflexivity. }
  set (rest := host ++ pth ++ query_part q) in *.
  change (sch ++ ("://" : str) ++ rest)
    with (sch ++ ":"%char :: "/"%char :: "/"%char :: rest) in *.
  assert (Hl : lstrip_of is_c0_or_space
                 (sch ++ ":"%char :: "/"%char :: "/"%char :: rest)
               = sch ++ ":"%char :: "/"%char :: "/"%char :: rest).
  { destruct sch as [|c0 sch]; [discriminate Hhead|]. simpl in *.
    rewrite (alpha_not_c0 c0 Hhead). reflexivity. }
  assert (Hf : find ":" (sch ++ ":"%char :: "/"%char :: "/"%char :: rest)
               = Some (length sch)).
  { apply (find_app ":" sch).
    eapply avoids_has_char; [|exact Hs]. reflexivity. }
  assert (Hnet : _splitnetloc ("/"%char :: "/"%char :: rest)
                 = (host, pth ++ query_part q)).
  { unfold _splitnetloc. simpl skipn. subst rest. apply span_until_app.
    - eapply avoids_weaken in Hhost; [exact Hhost | reflexivity].
    - destruct pth as [|c pth].
      + destruct q; [reflexivity | exact I].
      + simpl in Hpath. apply ch_eqb_true in Hpath. subst c. reflexivity. }
  assert (Hfrag : split1 "#" (pth ++ query_part q) = [pth ++ query_part q]).
  { unfold split1. rewrite find_none; [reflexivity|].
    rewrite has_char_app.
    assert (P : has_char "#" pth = false) by absent Hpth. rewrite P.
    destruct q as [qry|]; [|reflexivity].
    change (query_part (Some qry)) with ("?"%char :: qry).
    rewrite has_char_cons.
    assert (Q : has_char "#" qry = false) by absent Hq. rewrite Q.
    reflexivity. }
  assert (Hno : has_char "?" pth = false) by absent Hpth.
  assert (Hqry : match split1 "?" (pth ++ query_part q) with
                 | [a; b] => (a, b)
                 | _ => (pth ++ query_part q, [])
                 end = (pth, default [] q)).
  { unfold split1. destruct q as [qry|]; simpl query_part.
    - rewrite find_app by exact Hno.
      rewrite take_app_length, drop_succ_app. reflexivity.
    - rewrite app_nil_r, find_none by exact Hno. reflexivity. }
  unfold urlsplit. rewrite Hl, (remove_unsafe_id _ Hsafe), Hf.
  rewrite take_app_length, drop_succ_app, Hsch.
  destruct sch as [|c0 sch]; [discriminate Hhead|].
  simpl in Hhead. cbn [app length Nat.ltb Nat.leb]. rewrite Hhead. cbn [andb].
  change (startswith "//" ("/"%char :: "/"%char :: rest)) with true.
  cbv iota. rewrite Hnet.
  assert (B1 : has_char "[" host = false) by absent Hhost.
  assert (B2 : has_char "]" host = false) by absent Hhost.
  rewrite B1, B2.
  simpl "&&". simpl "||". cbv iota.
  rewrite Hfrag. rewrite Hqry. reflexivity.
Qed.


Lemma urlparse_wellformed (sch host pth : str) (q : option str) :
  is_head_alpha sch = true ->
  forallb is_scheme_char sch = true ->
  avoids (("/?#[]" : str) ++ unsafe_chars) host = true ->
  is_path pth = true ->
  avoids (("?#;" : str) ++ unsafe_chars) pth = true ->
  avoids ("#"%char :: unsafe_chars) (default [] q) = true ->
  urlparse (sch ++ ("://" : str) ++ host ++ pth ++ query_part q)
  = Some {| scheme := lower sch; netloc := host; path := pth; params := [];
            query := default [] q; fragment := [] |}.
Proof.
  intros Hhead Hsch Hhost Hpath Hpth Hq. unfold urlparse.
  rewrite urlsplit_wellformed by assumption. cbn [path scheme].
  assert (P : has_char ";" pth = false) by absent Hpth.
  rewrite P, andb_false_r. reflexivity.
Qed.

Lemma id_chars_avoid (id : str) :
  forallb is_id_char id = true -> avoids reserved id = true.
Proof.
  unfold avoids. rewrite !forallb_forall. intros H c Hc. specialize (H c Hc).
  pose proof (ascii_forall
    (fun c => negb (is_id_char c) || negb (has_char c reserved)) eq_refl c) as F.
  cbv beta in F. rewrite H in F. exact F.
Qed.

Lemma split_scan_plain (sep cur s : str) (x : ascii) :
  hd_error sep = Some x -> has_char x s = false ->
  split_scan sep 0 cur s = [rev cur ++ s].
Proof.
  intros Hsep. revert cur. induction s as [|c s IH]; intros cur H.
  - simpl. rewrite app_nil_r. reflexivity.
  - rewrite has_char_cons in H. apply orb_false_iff in H. destruct H as [Hc Hs].
    destruct sep as [|y sep]; [discriminate Hsep|]. injection Hsep as ->.
    cbn [split_scan startswith]. rewrite Hc. cbn [andb].
    rewrite IH by exact Hs. simpl rev. rewrite <- app_assoc. reflexivity.
Qed.

Lemma split_plain (sep s : str) (x : ascii) :
  hd_error sep = Some x -> has_char x s = false -> split sep s = [s].
Proof. intros H1 H2. unfold split. rewrite (split_scan_plain sep [] s x H1 H2). reflexivity. Qed.

Lemma replace_char_id (a b : ascii) (s : str) :
  has_char a s = false -> replace_char a b s = s.
Proof.
  intros H. unfold replace_char. induction s as [|c s IH]; [reflexivity|].
  rewrite has_char_cons in H. apply orb_false_iff in H. destruct H as [Hc Hs].
  cbn [map]. rewrite Hc, IH by exact Hs. reflexivity.
Qed.

Lemma unquote_plain (s : str) : has_char "%" s = false -> unquote s = s.
Proof. intros H. unfold unquote. rewrite H. reflexivity. Qed.

Lemma first_v_of_query (id : str) :
  is_video_id id -> first_v (parse_qs (("v=" : str) ++ id)) = Some id.
Proof.
  intros [Hne Hid]. pose proof (id_chars_avoid id Hid) as Ha.
  assert (A1 : has_char "&" id = false) by absent Ha.
  assert (A2 : has_char "+" id = false) by absent Ha.
  assert (A3 : has_char "%" id = false) by absent Ha.
  unfold parse_qs, parse_qsl.
  change (("v=" : str) ++ id) with ("v"%char :: "="%char :: id).
  rewrite (split_plain "&" _ "&" eq_refl)
    by (rewrite !has_char_cons, A1; reflexivity).
  cbn [flat_map]. rewrite app_nil_r.
  unfold parse_field, split1.
  change (find "=" ("v"%char :: "="%char :: id)) with (Some 1).
  cbn [firstn skipn take drop].
  destruct id as [|c id]; [contradiction|].
  change (drop 0 (c :: id)) with (c :: id). cbv iota.
  rewrite (replace_char_id "+" " " (c :: id) A2), (unquote_plain (c :: id) A3).
  reflexivity.
Qed.

Lemma extract_watch (sch host h id : str) :
  is_head_alpha sch = true -> forallb is_scheme_char sch = true ->
  avoids (("/?#[]" : str) ++ unsafe_chars) host = true ->
  hostname_of host = Some h -> In h youtube_hosts ->
  is_video_id id ->
  extract_video_id (sch ++ ("://" : str) ++ host ++ ("/watch?v=" : str) ++ id)
  = Some id.
Proof.
  intros Hhead Hsch Hhost Hh Hin Hid.
  pose proof (id_chars_avoid id (proj2 Hid)) as Ha.
  change (sch ++ ("://" : str) ++ host ++ ("/watch?v=" : str) ++ id)
    with (sch ++ ("://" : str) ++ host ++ ("/watch" : str)
            ++ query_part (Some (("v=" : str) ++ id))).
  unfold extract_video_id. rewrite urlparse_wellformed; try assumption; try reflexivity.
  - unfold hostname. cbn [netloc path query]. rewrite Hh.
    rewrite bool_decide_eq_true_2 by (apply list_elem_of_In; exact Hin).
    rewrite bool_decide_eq_true_2 by reflexivity.
    apply first_v_of_query, Hid.
  - cbn [default]. change (("v=" : str) ++ id) with ("v"%char :: "="%char :: id).
    unfold avoids. cbn [forallb]. apply andb_true_iff. split; [reflexivity|].
    apply andb_true_iff. split; [reflexivity|].
    eapply avoids_weaken; [|exact Ha]. reflexivity.
Qed.

Lemma startswith_app (p s : str) : startswith p (p ++ s) = true.
Proof. apply startswith_spec. exists s. reflexivity. Qed.

Lemma split_scan_skip (sep a cur s : str) :
  split_scan sep (length a) cur (a ++ s) = split_scan sep 0 cur s.
Proof.
  induction a as [|c a IH]; [reflexivity|].
  destruct s as [|d s].
  - rewrite app_nil_r. clear IH. revert c. induction a as [|c' a IH]; intros c.
    + reflexivity.
    + exact (IH c').
  - exact IH.
Qed.

(** A text that starts with the separator and holds it nowhere else. *)
Lemma split_prefix (sep s : str) (x : ascii) :
  hd_error sep = Some x -> has_char x s = false ->
  split sep (sep ++ s) = [[]; s].
Proof.
  intros Hsep Hs. unfold split.
  destruct sep as [|y sep']; [discriminate Hsep|].
  change (split_scan (y :: sep') 0 [] ((y :: sep') ++ s))
    with (if startswith (y :: sep') ((y :: sep') ++ s)
          then rev [] :: split_scan (y :: sep') (length (y :: sep') - 1) [] (sep' ++ s)
          else split_scan (y :: sep') 0 [y] (sep' ++ s)).
  rewrite startswith_app.
  replace (length (y :: sep') - 1) with (length sep') by (simpl; lia).
  rewrite split_scan_skip.
  rewrite (split_scan_plain (y :: sep') [] s x Hsep Hs). reflexivity.
Qed.

Lemma path_piece (sep id : str) (x : ascii) :
  hd_error sep = Some x -> has_char x id = false -> has_char "?" id = false ->
  first_piece (split "?" (last_piece (split sep (sep ++ id)))) = id.
Proof.
  intros Hsep Hx Hq. rewrite (split_prefix sep id x Hsep Hx).
  change (last_piece [[]; id]) with id.
  rewrite (split_plain "?" id "?" eq_refl Hq). reflexivity.
Qed.

Lemma urlparse_path_only (sch host pth : str) :
  is_head_alpha sch = true -> forallb is_scheme_char sch = true ->
  avoids (("/?#[]" : str) ++ unsafe_chars) host = true ->
  is_path pth = true ->
  avoids (("?#;" : str) ++ unsafe_chars) pth = true ->
  urlparse (sch ++ ("://" : str) ++ host ++ pth)
  = Some {| scheme := lower sch; netloc := host; path := pth; params := [];
            query := []; fragment := [] |}.
Proof.
  intros. rewrite <- (app_nil_r pth) at 1.
  apply (urlparse_wellformed sch host pth None); try assumption. reflexivity.
Qed.

Lemma extract_embed (sch host h id : str) :
  is_head_alpha sch = true -> forallb is_scheme_char sch = true ->
  avoids (("/?#[]" : str) ++ unsafe_chars) host = true ->
  hostname_of host = Some h -> In h youtube_hosts ->
  is_video_id id ->
  extract_video_id (sch ++ ("://" : str) ++ host ++ ("/embed/" : str) ++ id)
  = Some id.
Proof.
  intros Hhead Hsch Hhost Hh Hin Hid.
  pose proof (id_chars_avoid id (proj2 Hid)) as Ha.
  assert (A1 : has_char "/" id = false) by absent Ha.
  assert (A2 : has_char "?" id = false) by absent Ha.
  unfold extract_video_id. rewrite urlparse_path_only; try assumption; try reflexivity.
  - unfold hostname. cbn [netloc path query]. rewrite Hh.
    rewrite bool_decide_eq_true_2 by (apply list_elem_of_In; exact Hin).
    rewrite bool_decide_eq_false_2 by discriminate.
    rewrite startswith_app.
    rewrite (path_piece "/embed/" id "/" eq_refl A1 A2). reflexivity.
  - rewrite avoids_app. apply andb_true_iff. split; [reflexivity|].
    eapply avoids_weaken; [|exact Ha]. reflexivity.
Qed.

Lemma extract_v (sch host h id : str) :
  is_head_alpha sch = true -> forallb is_scheme_char sch = true ->
  avoids (("/?#[]" : str) ++ unsafe_chars) host = true ->
  hostname_of host = Some h -> In h youtube_hosts ->
  is_video_id id ->
  extract_video_id (sch ++ ("://" : str) ++ host ++ ("/v/" : str) ++ id)
  = Some id.
Proof.
  intros Hhead Hsch Hhost Hh Hin Hid.
  pose proof (id_chars_avoid id (proj2 Hid)) as Ha.
  assert (A1 : has_char "/" id = false) by absent Ha.
  assert (A2 : has_char "?" id = false) by absent Ha.
  unfold extract_video_id. rewrite urlparse_path_only; try assumption; try reflexivity.
  - unfold hostname. cbn [netloc path query]. rewrite Hh.
    rewrite bool_decide_eq_true_2 by (apply list_elem_of_In; exact Hin).
    rewrite bool_decide_eq_false_2 by discriminate.
    change (startswith "/embed/" (("/v/" : str) ++ id)) with false.
    rewrite startswith_app.
    rewrite (path_piece "/v/" id "/" eq_refl A1 A2). reflexivity.
  - rewrite avoids_app. apply andb_true_iff. split; [reflexivity|].
    eapply avoids_weaken; [|exact Ha]. reflexivity.
Qed.

Lemma extract_short (sch id : str) :
  is_head_alpha sch = true -> forallb is_scheme_char sch = true ->
  is_video_id id ->
  extract_video_id (sch ++ ("://youtu.be/" : str) ++ id) = Some id.
Proof.
  intros Hhead Hsch Hid.
  pose proof (id_chars_avoid id (proj2 Hid)) as Ha.
  assert (A2 : has_char "?" id = false) by absent Ha.
  change (sch ++ ("://youtu.be/" : str) ++ id)
    with (sch ++ ("://" : str) ++ ("youtu.be" : str) ++ ("/" : str) ++ id).
  unfold extract_video_id. rewrite urlparse_path_only; try assumption; try reflexivity.
  - unfold hostname. cbn [netloc path query].
    change (hostname_of "youtu.be") with (Some ("youtu.be" : str)).
    assert (N : ~ ("youtu.be" : str) ∈ youtube_hosts).
    { intros H. apply list_elem_of_In in H. vm_compute in H.
      intuition discriminate. }
    change [list_ascii_of_string "www.youtube.com";
            list_ascii_of_string "youtube.com";
            list_ascii_of_string "m.youtube.com"] with youtube_hosts.
    cbv iota. rewrite (bool_decide_eq_false_2 _ N).
    rewrite (bool_decide_eq_true_2 (("youtu.be" : str) ∈ [("youtu.be" : str)]))
      by (apply list_elem_of_In; left; reflexivity).
    change (drop 1 (("/" : str) ++ id)) with id.
    rewrite (split_plain "?" id "?" eq_refl A2). reflexivity.
  - rewrite avoids_app. apply andb_true_iff. split; [reflexivity|].
    eapply avoids_weaken; [|exact Ha]. reflexivity.
Qed.

Lemma urlsplit_relative (url : str) :
  lstrip_of is_c0_or_space url = url ->
  avoids (":"%char :: unsafe_chars) url = true ->
  startswith "//" url = false ->
  exists r, urlsplit url = Some r /\ netloc r = [].
Proof.
  intros Hl Ha Hs. unfold urlsplit. rewrite Hl.
  rewrite remove_unsafe_id by (eapply avoids_weaken; [|exact Ha]; reflexivity).
  assert (C : has_char ":" url = false) by absent Ha.
  rewrite (find_none ":" url C), Hs.
  eexists. split; [reflexivity|].
  destruct (split1 "#" url) as [|a [|b [|? ?]]];
    match goal with |- context [split1 "?" ?u] =>
      destruct (split1 "?" u) as [|a' [|b' [|? ?]]] end; reflexivity.
Qed.

(** A text without a scheme and without the two slashes has no host, and
    [extract_video_id] returns [None] for it. *)
Lemma extract_video_id_relative (url : str) :
  lstrip_of is_c0_or_space url = url ->
  avoids (":"%char :: unsafe_chars) url = true ->
  startswith "//" url = false ->
  extract_video_id url = None.
Proof.
  intros Hl Ha Hs. destruct (urlsplit_relative url Hl Ha Hs) as (r & Hr & Hn).
  unfold extract_video_id, urlparse. rewrite Hr.
  destruct (bool_decide (scheme r ∈ uses_params) && has_char ";" (path r)).
  - destruct (_splitparams (path r)) as [u p]. unfold hostname. cbn [netloc].
    rewrite Hn. reflexivity.
  - unfold hostname. rewrite Hn. reflexivity.
Qed.

Lemma extract_video_id_schemeless (pre id : str) :
  In pre schemeless_prefixes -> forallb is_id_char id = true ->
  extract_video_id (pre ++ id) = None.
Proof.
  intros Hpre Hid. pose proof (id_chars_avoid id Hid) as Ha.
  assert (A : avoids (":"%char :: unsafe_chars) id = true)
    by (eapply avoids_weaken; [|exact Ha]; reflexivity).
  apply extract_video_id_relative.
  - repeat (destruct Hpre as [<-|Hpre]; [reflexivity|]). destruct Hpre.
  - rewrite avoids_app, A, andb_true_r.
    repeat (destruct Hpre as [<-|Hpre]; [reflexivity|]). destruct Hpre.
  - repeat (destruct Hpre as [<-|Hpre]; [reflexivity|]). destruct Hpre.
Qed.

(** When [extract_video_id] returns [None]: the text does not parse, its
    host is none of the recognized ones, or the host is a hosting domain and
    the path is none of the three shapes, or the query of [/watch] has no
    [v]. *)
Lemma extract_video_id_none_cases (url : str) :
  (urlparse url = None -> extract_video_id url = None)
  /\ (forall parsed,
        urlparse url = Some parsed ->
        (forall h, hostname parsed = Some h ->
           ~ In h youtube_hosts /\ h <> ("youtu.be" : str)) ->
        extract_video_id url = None)
  /\ (forall parsed h,
        urlparse url = Some parsed -> hostname parsed = Some h ->
        In h youtube_hosts ->
        path parsed <> ("/watch" : str) ->
        startswith "/embed/" (path parsed) = false ->
        startswith "/v/" (path parsed) = false ->
        extract_video_id url = None)
  /\ (forall parsed h,
        urlparse url = Some parsed -> hostname parsed = Some h ->
        In h youtube_hosts ->
        path parsed = ("/watch" : str) ->
        dict_get "v" (parse_qs (query parsed)) = None ->
        extract_video_id url = None).
Proof.
  unfold extract_video_id. split; [|split; [|split]].
  - intros ->. reflexivity.
  - intros parsed -> H. destruct (hostname parsed) as [h|]; [|reflexivity].
    destruct (H h eq_refl) as [H1 H2].
    rewrite (bool_decide_eq_false_2 (h ∈ _))
      by (intros N; apply list_elem_of_In in N; exact (H1 N)).
    rewrite (bool_decide_eq_false_2 (h ∈ [_]))
      by (intros N; apply list_elem_of_singleton in N; exact (H2 N)).
    reflexivity.
  - intros parsed h -> -> Hin Hp He Hv.
    rewrite (bool_decide_eq_true_2 (h ∈ _)) by (apply list_elem_of_In; exact Hin).
    rewrite (bool_decide_eq_false_2 _ Hp), He, Hv. reflexivity.
  - intros parsed h -> -> Hin Hp Hq.
    rewrite (bool_decide_eq_true_2 (h ∈ _)) by (apply list_elem_of_In; exact Hin).
    rewrite (bool_decide_eq_true_2 _ Hp). unfold first_v. rewrite Hq. reflexivity.
Qed.
End Parse.

Section Claims.
Context {lib : Library}.

Lemma web_scheme_ok (sch : str) :
  In sch ["http" : str; "https" : str] ->
  is_head_alpha sch = true /\ forallb is_scheme_char sch = true.
Proof. intros [<-|[<-|[]]]; split; reflexivity. Qed.

Lemma youtube_host_ok (host : str) :
  In host youtube_hosts ->
  avoids (("/?#[]" : str) ++ unsafe_chars) host = true
  /\ hostname_of host = Some host.
Proof. intros [<-|[<-|[<-|[]]]]; split; reflexivity. Qed.

(** Outside the characters of identifiers the shapes part ways: a plus sign
    is a space in a query and itself in a path. *)
Lemma extract_video_id_plus_sign :
  extract_video_id "https://www.youtube.com/watch?v=a+b" = Some ("a b" : str)
  /\ extract_video_id "https://youtu.be/a+b" = Some ("a+b" : str).
Proof. split; vm_compute; reflexivity. Qed.

(** C2. For every video identifier, the four URL shapes that carry it (the
    [watch?v=] query form, the [/embed/] and [/v/] path forms on the three
    hosting domains, and the [youtu.be] short form, under [http] or [https])
    all resolve to that identifier; so do the two URLs of the examples. *)
Theorem extract_video_id_shapes (sch host id : str) :
  In sch ["http" : str; "https" : str] ->
  In host youtube_hosts ->
  is_video_id id ->
  extract_video_id (sch ++ ("://" : str) ++ host ++ ("/watch?v=" : str) ++ id) = Some id
  /\ extract_video_id (sch ++ ("://" : str) ++ host ++ ("/embed/" : str) ++ id) = Some id
  /\ extract_video_id (sch ++ ("://" : str) ++ host ++ ("/v/" : str) ++ id) = Some id
  /\ extract_video_id (sch ++ ("://youtu.be/" : str) ++ id) = Some id
  /\ extract_video_id "https://youtu.be/dQw4w9WgXcQ" = Some ("dQw4w9WgXcQ" : str)
  /\ extract_video_id "https://www.youtube.com/embed/abc123?x=1" = Some ("abc123" : str).
Proof.
  intros Hsch Hhost Hid.
  destruct (web_scheme_ok sch Hsch) as [S1 S2].
  destruct (youtube_host_ok host Hhost) as [H1 H2].
  split; [eapply extract_watch; eassumption|].
  split; [eapply extract_embed; eassumption|].
  split; [eapply extract_v; eassumption|].
  split; [apply extract_short; assumption|].
  split; vm_compute; reflexivity.
Qed.

(** C5 fails on the code. A [youtu.be] URL with an empty path, and an
    [/embed/] URL with nothing behind the prefix, make [extract_video_id]
    return the empty string and not [None]; only the truth test of
    [process_youtube_url] turns it into the invalid-format failure. A
    [/watch] URL without [v] does give [None]. *)
Theorem extract_video_id_empty_identifier :
  extract_video_id "https://youtu.be" = Some []
  /\ extract_video_id "https://youtu.be/" = Some []
  /\ extract_video_id "https://www.youtube.com/embed/" = Some []
  /\ extract_video_id "https://www.youtube.com/watch" = None
  /\ forall provider,
       process_youtube_url provider "https://youtu.be"
       = Returns (inl msg_invalid_format).
Proof. repeat split; vm_compute; reflexivity. Qed.

(** C6 fails on the code. The pattern of [bot.py] accepts a URL without a
    scheme and hands it to the extractor as it is, and [extract_video_id]
    returns [None] for it, for every identifier and each of the shapes; with
    the scheme and without [www.] the same URL resolves. *)
Theorem schemeless_url_unresolved :
  (forall pre id, In pre schemeless_prefixes -> forallb is_id_char id = true ->
     extract_video_id (pre ++ id) = None) /\
  url_of_message "youtube.com/watch?v=dQw4w9WgXcQ"
    = Some ("youtube.com/watch?v=dQw4w9WgXcQ" : str)
  /\ extract_video_id "youtube.com/watch?v=dQw4w9WgXcQ" = None
  /\ url_of_message "www.youtube.com/embed/dQw4w9WgXcQ"
    = Some ("www.youtube.com/embed/dQw4w9WgXcQ" : str)
  /\ extract_video_id "www.youtube.com/embed/dQw4w9WgXcQ" = None
  /\ url_of_message "youtu.be/dQw4w9WgXcQ" = Some ("youtu.be/dQw4w9WgXcQ" : str)
  /\ extract_video_id "youtu.be/dQw4w9WgXcQ" = None
  /\ extract_video_id "https://youtube.com/watch?v=dQw4w9WgXcQ"
    = Some ("dQw4w9WgXcQ" : str).
Proof.
  split; [exact extract_video_id_schemeless|].
  repeat split; vm_compute; reflexivity.
Qed.

End Claims.

Lemma extract_video_id_shapes_witness :
  @extract_video_id sample_library "https://www.youtube.com/watch?v=dQw4w9WgXcQ"
    = Some ("dQw4w9WgXcQ" : str)
  /\ @extract_video_id sample_library "https://www.youtube.com/v/dQw4w9WgXcQ"
    = Some ("dQw4w9WgXcQ" : str).
Proof.
  assert (Hid : is_video_id "dQw4w9WgXcQ") by (split; [discriminate | reflexivity]).
  destruct (@extract_video_id_shapes sample_library "https" "www.youtube.com"
              "dQw4w9WgXcQ") as (Hw & _ & Hv & _).
  - right. left. reflexivity.
  - left. reflexivity.
  - exact Hid.
  - split; [exact Hw | exact Hv].
Defined.

(** ** Normal forms of filter words *)

Lemma lower_char_idem (c : ascii) : lower_char (lower_char c) = lower_char c.
Proof.
  apply ch_eqb_true.
  apply (ascii_forall (fun c => ch_eqb (lower_char (lower_char c)) (lower_char c))).
  vm_compute. reflexivity.
Qed.

Lemma isspace_lower (c : ascii) : isspace (lower_char c) = isspace c.
Proof.
  apply eqb_prop.
  apply (ascii_forall (fun c => Bool.eqb (isspace (lower_char c)) (isspace c))).
  vm_compute. reflexivity.
Qed.

Lemma lower_idem (s : str) : lower (lower s) = lower s.
Proof.
  unfold lower. rewrite map_map. apply map_ext. apply lower_char_idem.
Qed.

Lemma lower_lstrip (s : str) :
  lower (lstrip_of isspace s) = lstrip_of isspace (lower s).
Proof.
  induction s as [|c s IH]; [reflexivity|].
  cbn [lower map lstrip_of]. rewrite isspace_lower.
  destruct (isspace c); [exact IH | reflexivity].
Qed.

Lemma lower_rev (s : str) : lower (rev s) = rev (lower s).
Proof. unfold lower. apply map_rev. Qed.

Lemma lower_strip (s : str) : lower (strip s) = strip (lower s).
Proof.
  unfold strip, rstrip_of.
  rewrite lower_rev, lower_lstrip, lower_rev, lower_lstrip. reflexivity.
Qed.

Lemma lstrip_head (p : ascii -> bool) (s : str) :
  match lstrip_of p s with [] => True | c :: _ => p c = false end.
Proof.
  induction s as [|c s IH]; [exact I|]. simpl.
  destruct (p c) eqn:E; [exact IH | exact E].
Qed.

Lemma lstrip_fixed (p : ascii -> bool) (s : str) :
  match s with [] => True | c :: _ => p c = false end -> lstrip_of p s = s.
Proof. destruct s as [|c s]; [reflexivity|]. simpl. intros ->. reflexivity. Qed.

Lemma lstrip_idem (p : ascii -> bool) (s : str) :
  lstrip_of p (lstrip_of p s) = lstrip_of p s.
Proof. apply lstrip_fixed, lstrip_head. Qed.

Lemma rstrip_idem (p : ascii -> bool) (s : str) :
  rstrip_of p (rstrip_of p s) = rstrip_of p s.
Proof. unfold rstrip_of. rewrite rev_involutive, lstrip_idem. reflexivity. Qed.

Lemma rstrip_keeps_head (p : ascii -> bool) (s : str) :
  match s with [] => True | c :: _ => p c = false end ->
  match rstrip_of p s with [] => True | c :: _ => p c = false end.
Proof.
  destruct s as [|c s]; [intros _; exact I|]. intros H.
  rewrite rstrip_cons. cbn [forallb]. rewrite H. exact H.
Qed.

Lemma strip_idem (s : str) : strip (strip s) = strip s.
Proof.
  unfold strip.
  rewrite (lstrip_fixed isspace (rstrip_of isspace (lstrip_of isspace s))).
  - apply rstrip_idem.
  - apply rstrip_keeps_head, lstrip_head.
Qed.

Lemma normalize_idem (word : str) : normalize (normalize word) = normalize word.
Proof.
  unfold normalize. rewrite <- lower_strip, strip_idem, lower_strip, lower_idem.
  reflexivity.
Qed.

Lemma lower_nil (s : str) : lower s = [] <-> s = [].
Proof. destruct s; split; intros H; try reflexivity; discriminate H. Qed.

Lemma normalize_nil (word : str) : normalize word = [] <-> strip word = [].
Proof. unfold normalize. rewrite <- lower_strip. apply lower_nil. Qed.

Lemma normalized_words_normal (filter_words : list str) :
  Forall is_normal (normalized_words filter_words).
Proof.
  unfold normalized_words. apply Forall_forall. intros w Hw.
  apply list_elem_of_In, in_map_iff in Hw. destruct Hw as (x & <- & Hx).
  apply filter_In in Hx. destruct Hx as [_ Hx].
  apply negb_true_iff, bool_decide_eq_false in Hx.
  split; [|apply normalize_idem]. intros E. apply Hx, normalize_nil, E.
Qed.

(** ** link_filter.py: what the calls do to a user's filters *)

Lemma set_user_filters_state (u : Z) (ws : list str) (st : state) :
  snd (set_user_filters u ws st)
  = assign u (fresh (dom (heap st))) (normalized_words ws) st.
Proof. reflexivity. Qed.

Lemma clear_user_filters_state (u : Z) (st : state) :
  snd (clear_user_filters u st) = assign u (fresh (dom (heap st))) [] st.
Proof. reflexivity. Qed.

Lemma wf_exec (dw : list str) (c : call) (st : state) :
  wf dw st -> wf dw (exec c st).
Proof. intros H. eapply effect_wf; [exact H | apply exec_effect]. Qed.

(** The filters after [add_filter_word], for any user. *)
Lemma stored_after_add (dw : list str) (u : Z) (word : str) (st : state) :
  wf dw st ->
  stored (snd (add_filter_word u word st)) u
  = if negb (bool_decide (normalize word = []))
       && negb (bool_decide (normalize word ∈ stored st u))
    then stored st u ++ [normalize word]
    else stored st u.
Proof.
  intros Hwf. rewrite add_filter_word_state. cbv zeta.
  rewrite (current_content dw st u Hwf). fold (normalize word).
  destruct (_ && _).
  - apply stored_assign_same.
  - apply (stored_with_copy dw), Hwf.
Qed.

(** X1. After [set_user_filters] the user's filters are the given words
    in their order, each stripped and lower-cased, without the words that
    are blank; every stored word is non-empty and in normal form, and the
    normal form of every word given that is not blank is among them. *)
Theorem set_user_filters_result (default_words : list str)
    (calls : list call) (u : Z) (filter_words : list str) :
  let st := run calls (init default_words) in
  let st' := snd (set_user_filters u filter_words st) in
  filters_of st' u = normalized_words filter_words
  /\ Forall is_normal (filters_of st' u)
  /\ (forall w, In w filter_words -> strip w <> [] ->
        In (normalize w) (filters_of st' u)).
Proof.
  intros st st'.
  assert (Hwf : wf default_words st) by apply wf_run.
  assert (Hwf' : wf default_words st') by apply (wf_exec _ (SetFilters u filter_words)), Hwf.
  assert (E : filters_of st' u = normalized_words filter_words).
  { rewrite (filters_of_stored default_words st' u Hwf').
    subst st'. rewrite set_user_filters_state. apply stored_assign_same. }
  rewrite E. split; [reflexivity|]. split; [apply normalized_words_normal|].
  intros w Hin Hw. unfold normalized_words. apply in_map, filter_In.
  split; [exact Hin|]. apply negb_true_iff, bool_decide_eq_false. exact Hw.
Qed.

(** X2. After [clear_user_filters] the user has an entry of their own with
    no filter word, not the default list, and [filter_links] returns every
    list of links unchanged with a count of zero. *)
Theorem clear_user_filters_shows_all (default_words : list str)
    (calls : list call) (u : Z) (links : list str) :
  let st := run calls (init default_words) in
  let st' := snd (clear_user_filters u st) in
  filters_of st' u = []
  /\ is_Some (user_filters st' !! u)
  /\ fst (filter_links u links st') = (links, 0).
Proof.
  intros st st'.
  assert (Hwf : wf default_words st) by apply wf_run.
  assert (Hwf' : wf default_words st') by apply (wf_exec _ (ClearFilters u)), Hwf.
  assert (E : filters_of st' u = []).
  { rewrite (filters_of_stored default_words st' u Hwf').
    subst st'. rewrite clear_user_filters_state. apply stored_assign_same. }
  split; [exact E|]. split.
  - subst st'. rewrite clear_user_filters_state. unfold assign; simpl.
    rewrite lookup_insert_eq. eauto.
  - rewrite filter_links_value, E. destruct links; reflexivity.
Qed.

(** X3. For any user in any state the calls can reach,
    [add_filter_word] appends the stripped, lower-cased word to the user's
    filters when it is not empty and not yet among them, and changes nothing
    otherwise; a word that is not blank is among the filters afterwards, and
    adding it a second time changes nothing. *)
Theorem add_filter_word_result (default_words : list str)
    (calls : list call) (u : Z) (word : str) :
  let st := run calls (init default_words) in
  let w := normalize word in
  let st' := snd (add_filter_word u word st) in
  let st'' := snd (add_filter_word u word st') in
  (w <> [] -> ~ In w (filters_of st u) ->
     filters_of st' u = filters_of st u ++ [w])
  /\ (w = [] \/ In w (filters_of st u) -> filters_of st' u = filters_of st u)
  /\ (w <> [] -> In w (filters_of st' u))
  /\ filters_of st'' u = filters_of st' u.
Proof.
  intros st w st' st''.
  assert (Hwf : wf default_words st) by apply wf_run.
  assert (Hwf' : wf default_words st') by apply (wf_exec _ (AddFilter u word)), Hwf.
  assert (Hwf'' : wf default_words st'') by apply (wf_exec _ (AddFilter u word)), Hwf'.
  rewrite !(filters_of_stored default_words) by assumption.
  pose proof (stored_after_add default_words u word st Hwf) as H1.
  pose proof (stored_after_add default_words u word st' Hwf') as H2.
  fold w st' in H1. fold w st' st'' in H2.
  destruct (bool_decide (w = [])) eqn:E1.
  - apply bool_decide_eq_true in E1. simpl in H1, H2.
    rewrite H2, H1. repeat split; try reflexivity; intros; contradiction.
  - apply bool_decide_eq_false in E1. simpl in H1, H2.
    destruct (bool_decide (w ∈ stored st u)) eqn:E2.
    + apply bool_decide_in in E2. simpl in H1. rewrite H1 in *.
      rewrite (proj2 (bool_decide_in _ _) E2) in H2. simpl in H2.
      repeat split; auto. intros _ N. contradiction.
    + simpl in H1. rewrite H1 in *.
      assert (Hin : In w (stored st u ++ [w])) by (apply in_app_iff; right; left; reflexivity).
      rewrite (proj2 (bool_decide_in _ _) Hin) in H2. simpl in H2.
      repeat split; auto.
      intros [N|N]; [contradiction|].
      apply bool_decide_in in N. congruence.
Qed.

Lemma stored_after_remove (dw : list str) (u : Z) (word : str) (st : state) :
  wf dw st ->
  remove_filter_word u word st
  = (bool_decide (normalize word ∈ stored st u),
     snd (remove_filter_word u word st))
  /\ stored (snd (remove_filter_word u word st)) u
     = if bool_decide (normalize word ∈ stored st u)
       then list_remove (normalize word) (stored st u)
       else stored st u.
Proof.
  intros Hwf. rewrite remove_filter_word_state. cbv zeta.
  rewrite (current_content dw st u Hwf). fold (normalize word).
  destruct (bool_decide _); (split; [reflexivity|]).
  - apply stored_assign_same.
  - apply (stored_with_copy dw), Hwf.
Qed.

Lemma list_remove_last (x : str) (l : list str) :
  ~ In x l -> list_remove x (l ++ [x]) = l.
Proof.
  induction l as [|y l IH]; intros H; simpl.
  - rewrite bool_decide_eq_true_2; reflexivity.
  - rewrite bool_decide_eq_false_2 by (intros ->; apply H; left; reflexivity).
    rewrite IH; [reflexivity|]. intros N. apply H. right. exact N.
Qed.

Lemma list_remove_subset (x y : str) (l : list str) :
  In y (list_remove x l) -> In y l.
Proof.
  induction l as [|z l IH]; simpl; [tauto|].
  destruct (bool_decide (z = x)); simpl; tauto.
Qed.

(** X4. Adding a word that is not blank and not yet among the user's
    filters, then removing it, reports [True] and leaves the filters as they
    were before the two calls. *)
Theorem add_then_remove_restores (default_words : list str)
    (calls : list call) (u : Z) (word : str) :
  let st := run calls (init default_words) in
  let st1 := snd (add_filter_word u word st) in
  normalize word <> [] ->
  ~ In (normalize word) (filters_of st u) ->
  fst (remove_filter_word u word st1) = true
  /\ filters_of (snd (remove_filter_word u word st1)) u = filters_of st u.
Proof.
  intros st st1 Hw Hn.
  assert (Hwf : wf default_words st) by apply wf_run.
  assert (Hwf1 : wf default_words st1) by apply (wf_exec _ (AddFilter u word)), Hwf.
  assert (Hwf2 : wf default_words (snd (remove_filter_word u word st1)))
    by apply (wf_exec _ (RemoveFilter u word)), Hwf1.
  rewrite !(filters_of_stored default_words) in * by assumption.
  pose proof (stored_after_add default_words u word st Hwf) as Ha. fold st1 in Ha.
  rewrite (bool_decide_eq_false_2 _ Hw) in Ha.
  rewrite (bool_decide_eq_false_2 (normalize word ∈ stored st u)) in Ha
    by (rewrite list_elem_of_In; exact Hn).
  simpl in Ha.
  destruct (stored_after_remove default_words u word st1 Hwf1) as [Hr Hs].
  rewrite Ha in Hr, Hs.
  assert (Hin : normalize word ∈ stored st u ++ [normalize word])
    by (apply list_elem_of_In, in_app_iff; right; left; reflexivity).
  rewrite (bool_decide_eq_true_2 _ Hin) in Hr, Hs.
  split; [rewrite Hr; reflexivity|].
  rewrite Hs. apply list_remove_last, Hn.
Qed.

Lemma add_then_remove_restores_witness :
  let dw := ["t.me" : str; "whatsapp.com" : str] in
  let st1 := snd (add_filter_word 5 " Spam.COM " (init dw)) in
  fst (remove_filter_word 5 " Spam.COM " st1) = true
  /\ filters_of (snd (remove_filter_word 5 " Spam.COM " st1)) 5 = dw.
Proof.
  intros dw st1.
  destruct (add_then_remove_restores dw [] 5 " Spam.COM ") as [H1 H2].
  - vm_compute. discriminate.
  - vm_compute. intros [H|[H|[]]]; discriminate.
  - split.
    + exact H1.
    + exact H2.
Defined.

(** The filters a call leaves for its own user. *)
Lemma stored_exec_own (dw : list str) (c : call) (st : state) :
  wf dw st ->
  stored (exec c st) (caller c) =
  match c with
  | SetFilters _ ws => normalized_words ws
  | AddFilter u word =>
      if negb (bool_decide (normalize word = []))
         && negb (bool_decide (normalize word ∈ stored st u))
      then stored st u ++ [normalize word]
      else stored st u
  | RemoveFilter u word =>
      if bool_decide (normalize word ∈ stored st u)
      then list_remove (normalize word) (stored st u)
      else stored st u
  | ClearFilters _ => []
  | GetFilters u | FilterLinks u _ => stored st u
  end.
Proof.
  intros Hwf. destruct c as [u ws|u w|u w|u|u|u links]; cbn [exec caller].
  - rewrite set_user_filters_state. apply stored_assign_same.
  - apply (stored_after_add dw), Hwf.
  - apply (stored_after_remove dw), Hwf.
  - rewrite clear_user_filters_state. apply stored_assign_same.
  - apply (stored_with_copy dw), Hwf.
  - rewrite filter_links_state. destruct links; [reflexivity|].
    apply (stored_with_copy dw), Hwf.
Qed.

(** X5. Whatever calls are made, every filter word of a user is either a
    word of the default list as it was written in [config], or a non-empty
    word in normal form (stripped and lower-cased): the methods never store
    anything else. *)
Theorem stored_words_normal (default_words : list str)
    (calls : list call) (u : Z) (w : str) :
  In w (filters_of (run calls (init default_words)) u) ->
  In w default_words \/ is_normal w.
Proof.
  rewrite (filters_of_stored default_words) by apply wf_run.
  revert u w. induction calls as [|c calls IH] using rev_ind; intros u w.
  - unfold stored, init; simpl. rewrite lookup_empty, lookup_singleton_eq.
    simpl. tauto.
  - rewrite run_snoc. set (st := run calls (init default_words)) in *.
    assert (Hwf : wf default_words st) by apply wf_run.
    destruct (decide (u = caller c)) as [->|Hne].
    + rewrite (stored_exec_own default_words c st Hwf).
      destruct c as [v ws|v word|v word|v|v|v links]; simpl.
      * intros H. right.
        pose proof (normalized_words_normal ws) as F.
        rewrite Forall_forall in F. apply F, list_elem_of_In, H.
      * destruct (bool_decide (normalize word = [])) eqn:E; simpl; [apply IH|].
        destruct (bool_decide (normalize word ∈ stored st v)); simpl; [apply IH|].
        rewrite in_app_iff. intros [H|[<-|[]]]; [apply (IH v), H|].
        right. split; [|apply normalize_idem].
        apply bool_decide_eq_false in E. exact E.
      * destruct (bool_decide _); [|apply IH].
        intros H. apply (IH v). eapply list_remove_subset, H.
      * intros [].
      * apply IH.
      * apply IH.
    + rewrite (effect_frame default_words (caller c) u st _ Hwf (exec_effect c st) Hne).
      apply IH.
Qed.

Lemma stored_words_normal_witness :
  In ("spam" : str)
    (filters_of (run [AddFilter 1 " SPAM "] (init ["t.me" : str])) 1)
  /\ (In ("spam" : str) ["t.me" : str] \/ is_normal "spam").
Proof.
  assert (H : In ("spam" : str)
                (filters_of (run [AddFilter 1 " SPAM "] (init ["t.me" : str])) 1)).
  { vm_compute. right. left. reflexivity. }
  split; [exact H|].
  exact (stored_words_normal ["t.me" : str] [AddFilter 1 " SPAM "] 1 "spam" H).
Defined.

(** ** link_filter.py: more on [filter_links] *)

Lemma filter_links_pair (u : Z) (links : list str) (st : state) :
  fst (filter_links u links st)
  = (List.filter (fun l => negb (should_exclude (filters_of st u) l)) links,
     length (List.filter (should_exclude (filters_of st u)) links)).
Proof.
  rewrite filter_links_value.
  destruct links as [|l links]; [reflexivity|].
  destruct (filters_of st u) as [|w ws] eqn:E.
  - rewrite filter_all, filter_none by reflexivity. reflexivity.
  - rewrite filter_loop. reflexivity.
Qed.

Lemma filter_twice {A : Type} (p : A -> bool) (l : list A) :
  List.filter p (List.filter p l) = List.filter p l.
Proof.
  induction l as [|x l IH]; [reflexivity|]. simpl.
  destruct (p x) eqn:E; simpl; rewrite ?E, IH; reflexivity.
Qed.

Lemma filter_conflict {A : Type} (p : A -> bool) (l : list A) :
  List.filter p (List.filter (fun x => negb (p x)) l) = [].
Proof.
  induction l as [|x l IH]; [reflexivity|]. simpl.
  destruct (p x) eqn:E; simpl; rewrite ?E, IH; reflexivity.
Qed.

(** X6. Filtering the links that [filter_links] kept once more keeps all
    of them and counts no exclusion. *)
Theorem filter_links_idempotent (default_words : list str)
    (calls : list call) (u : Z) (links : list str) :
  let st := run calls (init default_words) in
  let kept := fst (fst (filter_links u links st)) in
  let st' := snd (filter_links u links st) in
  fst (filter_links u kept st') = (kept, 0).
Proof.
  intros st kept st'.
  assert (Hwf : wf default_words st) by apply wf_run.
  assert (Hwf' : wf default_words st') by apply (wf_exec _ (FilterLinks u links)), Hwf.
  assert (E : filters_of st' u = filters_of st u).
  { rewrite !(filters_of_stored default_words) by assumption.
    exact (stored_exec_own default_words (FilterLinks u links) st Hwf). }
  subst kept. rewrite !filter_links_pair, E. cbn [fst].
  rewrite filter_twice, filter_conflict. reflexivity.
Qed.

Lemma should_exclude_app (F G : list str) (link : str) :
  should_exclude (F ++ G) link = should_exclude F link || should_exclude G link.
Proof. unfold should_exclude. apply existsb_app. Qed.

Lemma filter_filter_and {A : Type} (p q : A -> bool) (l : list A) :
  List.filter q (List.filter p l) = List.filter (fun x => p x && q x) l.
Proof.
  induction l as [|x l IH]; [reflexivity|]. simpl.
  destruct (p x); simpl; [destruct (q x)|]; rewrite IH; reflexivity.
Qed.

(** X7. After [add_filter_word] with a word that is not blank,
    [filter_links] keeps exactly those of the previously kept links whose
    lower-cased text does not contain the normalized word, in the same
    order. *)
Theorem add_filter_word_narrows (default_words : list str)
    (calls : list call) (u : Z) (word : str) (links : list str) :
  let st := run calls (init default_words) in
  let st' := snd (add_filter_word u word st) in
  let kept := fst (fst (filter_links u links st)) in
  let kept' := fst (fst (filter_links u links st')) in
  normalize word <> [] ->
  kept' = List.filter (fun l => negb (contains (normalize word) (lower l))) kept.
Proof.
  intros st st' kept kept' Hw.
  assert (Hwf : wf default_words st) by apply wf_run.
  assert (Hwf' : wf default_words st') by apply (wf_exec _ (AddFilter u word)), Hwf.
  subst kept kept'. rewrite !filter_links_pair. cbn [fst].
  rewrite !(filters_of_stored default_words) by assumption.
  subst st'. rewrite (stored_after_add default_words u word st Hwf).
  rewrite (bool_decide_eq_false_2 _ Hw). cbn [negb andb].
  rewrite filter_filter_and.
  destruct (bool_decide (normalize word ∈ stored st u)) eqn:E; cbn [negb].
  - apply bool_decide_in in E. apply filter_ext_in. intros l _.
    destruct (should_exclude (stored st u) l) eqn:X; [reflexivity|]. simpl.
    destruct (contains (normalize word) (lower l)) eqn:C; [|reflexivity].
    assert (should_exclude (stored st u) l = true); [|congruence].
    unfold should_exclude. apply existsb_exists. eauto.
  - apply filter_ext. intros l. rewrite should_exclude_app.
    unfold should_exclude at 2. simpl. rewrite orb_false_r.
    apply negb_orb.
Qed.

Lemma add_filter_word_narrows_witness :
  let dw := ["t.me" : str] in
  let links := ["https://a.com/x" : str; "https://SPAM.com/y" : str] in
  fst (fst (filter_links 1 links (snd (add_filter_word 1 "Spam" (init dw)))))
  = List.filter (fun l => negb (contains (normalize "Spam") (lower l)))
      (fst (fst (filter_links 1 links (init dw)))).
Proof.
  intros dw links.
  apply (add_filter_word_narrows dw [] 1 "Spam" links).
  vm_compute. discriminate.
Defined.

Lemma lower_app (a b : str) : lower (a ++ b) = lower a ++ lower b.
Proof. unfold lower. apply map_app. Qed.

(** X8. On text of the Latin-1 range, where [str.lower] maps character
    by character: after a word that is not blank has been added, no link
    that contains the stripped word in any case of its letters is among the
    links [filter_links] keeps. (Beyond that range [str.lower] looks at the
    neighbours of a character, and a word in capitals need not be found in
    a link in capitals.) *)
Theorem added_word_excludes_any_case (default_words : list str)
    (calls : list call) (u : Z) (word : str) (links : list str)
    (pre m post : str) :
  let st := run calls (init default_words) in
  let st' := snd (add_filter_word u word st) in
  normalize word <> [] ->
  lower m = lower (strip word) ->
  ~ In (pre ++ m ++ post) (fst (fst (filter_links u links st'))).
Proof.
  intros st st' Hw Hm.
  assert (Hwf : wf default_words st) by apply wf_run.
  assert (Hwf' : wf default_words st') by apply (wf_exec _ (AddFilter u word)), Hwf.
  rewrite filter_links_pair. cbn [fst]. rewrite filter_In. intros [_ H].
  apply negb_true_iff in H.
  assert (X : should_exclude (filters_of st' u) (pre ++ m ++ post) = true);
    [|congruence].
  apply should_exclude_spec. exists (normalize word). split.
  - rewrite (filters_of_stored default_words) by assumption.
    subst st'. rewrite (stored_after_add default_words u word st Hwf).
    rewrite (bool_decide_eq_false_2 _ Hw). cbn [negb andb].
    destruct (bool_decide (normalize word ∈ stored st u)) eqn:E; cbn [negb].
    + apply bool_decide_in in E. exact E.
    + apply in_app_iff. right. left. reflexivity.
  - exists (lower pre), (lower post).
    rewrite !lower_app, Hm, lower_strip. reflexivity.
Qed.

Lemma added_word_excludes_any_case_witness :
  ~ In ("https://SpAm.com/x" : str)
      (fst (fst (filter_links 1
                   ["https://SpAm.com/x" : str; "https://ok.org" : str]
                   (snd (add_filter_word 1 " spam " (init ["t.me" : str])))))).
Proof.
  apply (added_word_excludes_any_case ["t.me" : str] [] 1 " spam "
           ["https://SpAm.com/x" : str; "https://ok.org" : str]
           "https://" "SpAm" ".com/x").
  - vm_compute. discriminate.
  - reflexivity.
Defined.

Lemma lower_char_not_upper (c : ascii) : is_upper (lower_char c) = false.
Proof.
  apply negb_true_iff.
  apply (ascii_forall (fun c => negb (is_upper (lower_char c)))).
  vm_compute. reflexivity.
Qed.

Lemma capital_never_contained (w link : str) :
  existsb is_upper w = true -> contains w (lower link) = false.
Proof.
  intros Hw. destruct (contains w (lower link)) eqn:C; [|reflexivity].
  apply contains_spec in C. destruct C as (pre & post & E).
  apply existsb_exists in Hw. destruct Hw as (c & Hc & Hu).
  assert (Hin : In c (lower link)).
  { rewrite E. apply in_app_iff. right. apply in_app_iff. left. exact Hc. }
  unfold lower in Hin. apply in_map_iff in Hin. destruct Hin as (x & <- & _).
  rewrite lower_char_not_upper in Hu. discriminate.
Qed.

Lemma should_exclude_lowercase_only (F : list str) (link : str) :
  should_exclude (lowercase_only F) link = should_exclude F link.
Proof.
  unfold should_exclude, lowercase_only.
  induction F as [|w F IH]; [reflexivity|]. simpl.
  destruct (existsb is_upper w) eqn:E; simpl.
  - rewrite (capital_never_contained w link E). exact IH.
  - rewrite IH. reflexivity.
Qed.

(** X9. A filter word with an upper-case letter never excludes a link:
    [filter_links] gives the same result as with these words left out of
    the user's filters. (The links are lower-cased before the comparison,
    the filter words are not.) *)
Theorem capital_keywords_are_dead (u : Z) (links : list str) (st : state) :
  let F := lowercase_only (filters_of st u) in
  fst (filter_links u links st)
  = (List.filter (fun l => negb (should_exclude F l)) links,
     length (List.filter (should_exclude F) links)).
Proof.
  intros F. rewrite filter_links_pair. subst F. f_equal.
  - apply filter_ext. intros l. rewrite should_exclude_lowercase_only. reflexivity.
  - f_equal. apply filter_ext. intros l.
    rewrite should_exclude_lowercase_only. reflexivity.
Qed.

(** ** youtube_extractor.py: what [extract_https_links] returns *)

Lemma lstrip_app_all (p : ascii -> bool) (x y : str) :
  lstrip_of p (x ++ y)
  = if forallb p x then lstrip_of p y else lstrip_of p x ++ y.
Proof.
  induction x as [|c x IH]; [reflexivity|]. simpl.
  destruct (p c); [exact IH | reflexivity].
Qed.

Lemma lstrip_all (p : ascii -> bool) (x : str) :
  forallb p x = true -> lstrip_of p x = [].
Proof.
  induction x as [|c x IH]; [reflexivity|]. simpl. intros H.
  apply andb_true_iff in H. destruct H as [-> H]. auto.
Qed.

(** Behind a text that ends in a character outside the set, [rstrip_of]
    works on the rest alone. *)
Lemma rstrip_behind (p : ascii -> bool) (a : str) (c : ascii) (b : str) :
  p c = false -> rstrip_of p ((a ++ [c]) ++ b) = (a ++ [c]) ++ rstrip_of p b.
Proof.
  intros Hc. unfold rstrip_of. rewrite rev_app_distr, lstrip_app_all.
  assert (E : lstrip_of p (rev (a ++ [c])) = rev (a ++ [c])).
  { rewrite rev_app_distr. simpl. rewrite Hc. reflexivity. }
  destruct (forallb p (rev b)) eqn:F.
  - rewrite E, (lstrip_all p (rev b) F), rev_involutive. simpl.
    rewrite app_nil_r. reflexivity.
  - rewrite rev_app_distr, rev_involutive. reflexivity.
Qed.

Lemma rstrip_prefix (p : ascii -> bool) (s : str) :
  exists run, s = rstrip_of p s ++ run /\ forallb p run = true.
Proof.
  unfold rstrip_of.
  destruct (lstrip_split p (rev s)) as (run & Hs & Hp & _).
  exists (rev run). split.
  - rewrite <- rev_app_distr, <- Hs, rev_involutive. reflexivity.
  - rewrite forallb_rev_eq. exact Hp.
Qed.

Lemma rstrip_ends (p : ascii -> bool) (s front : str) (c : ascii) :
  rstrip_of p s = front ++ [c] -> p c = false.
Proof.
  unfold rstrip_of. intros H. apply (f_equal (@rev ascii)) in H.
  rewrite rev_involutive, rev_app_distr in H. simpl in H.
  pose proof (lstrip_head p (rev s)) as Hh. rewrite H in Hh. exact Hh.
Qed.

Lemma slash_not_punct (c : ascii) :
  lower_char c = "/"%char -> is_trailing_punct c = false.
Proof.
  intros H.
  pose proof (ascii_forall
                (fun c => negb (ch_eqb (lower_char c) "/") || negb (is_trailing_punct c))
                eq_refl c) as F.
  cbv beta in F. rewrite H in F. apply negb_true_iff in F. exact F.
Qed.

Lemma https_prefix_last (pfx : str) :
  lower pfx = ("https://" : str) ->
  exists front c, pfx = front ++ [c] /\ is_trailing_punct c = false.
Proof.
  intros H.
  destruct pfx as [|c1 [|c2 [|c3 [|c4 [|c5 [|c6 [|c7 [|c8 [|c9 pfx]]]]]]]]];
    try discriminate H.
  exists [c1; c2; c3; c4; c5; c6; c7], c8. split; [reflexivity|].
  apply slash_not_punct. injection H. intros. assumption.
Qed.

(** The cleaning of a match keeps the prefix and a part of the run. *)
Lemma clean_link (pfx body : str) :
  lower pfx = ("https://" : str) -> forallb is_link_char body = true ->
  exists kept,
    sub_empty trailing_pattern (pfx ++ body) = pfx ++ kept
    /\ (exists run, body = kept ++ run /\ forallb is_trailing_punct run = true)
    /\ ends_clean (pfx ++ kept).
Proof.
  intros Hl Hb.
  rewrite sub_trailing
    by (apply link_chars_no_newline; rewrite forallb_app, Hb,
          (https_prefix_link_chars pfx Hl); reflexivity).
  destruct (https_prefix_last pfx Hl) as (front & c & -> & Hc).
  rewrite (rstrip_behind _ front c body Hc).
  exists (rstrip_of is_trailing_punct body). split; [reflexivity|]. split.
  - apply rstrip_prefix.
  - rewrite <- (rstrip_behind _ front c body Hc).
    intros f x E. exact (rstrip_ends _ _ f x E).
Qed.

Lemma extract_members (text l : str) :
  In l (extract_https_links text) <-> In l (cleaned_matches text).
Proof.
  rewrite extract_https_links_eq.
  destruct (add_new_invariant (cleaned_matches text)) as (_ & Hmem & _).
  rewrite Hmem. split; [tauto|]. intros H. split; [exact H|].
  exact (cleaned_matches_nonempty text l H).
Qed.

Lemma scan_substring (text : str) (ls : list str) :
  LinkScan text ls ->
  forall m, In m ls -> exists pre post, text = pre ++ m ++ post.
Proof.
  induction 1 as [|c s ls Hn Hs IH|pfx body tail ls Hl Hb Hp He Hs IH];
    intros m Hm.
  - destruct Hm.
  - destruct (IH m Hm) as (pre & post & ->). exists (c :: pre), post. reflexivity.
  - destruct Hm as [<-|Hm].
    + exists [], tail. simpl. rewrite <- app_assoc. reflexivity.
    + destruct (IH m Hm) as (pre & post & ->).
      exists (pfx ++ body ++ pre), post. rewrite <- !app_assoc. reflexivity.
Qed.

(** X11. A text that is a single link ([https://] in any case, then at
    least one link character, no trailing punctuation at its end) is
    returned by [extract_https_links] as the only link. *)
Theorem clean_link_extracts_itself (pfx body : str) :
  lower pfx = ("https://" : str) ->
  body <> [] ->
  forallb is_link_char body = true ->
  ends_clean (pfx ++ body) ->
  extract_https_links (pfx ++ body) = [pfx ++ body].
Proof.
  intros Hl Hb Hp Hc.
  assert (S : LinkScan (pfx ++ body ++ []) [pfx ++ body])
    by (apply scan_link; try assumption; [exact I | apply scan_end]).
  rewrite app_nil_r in S.
  pose proof (scan_functional _ _ _ S (findall_is_scan (pfx ++ body))) as F.
  rewrite extract_https_links_eq. unfold cleaned_matches. rewrite <- F.
  cbn [map fold_left].
  assert (E : sub_empty trailing_pattern (pfx ++ body) = pfx ++ body).
  { rewrite sub_trailing
      by (apply link_chars_no_newline; rewrite forallb_app, Hp,
            (https_prefix_link_chars pfx Hl); reflexivity).
    rewrite <- (app_nil_r (pfx ++ body)) at 1.
    apply rstrip_run; [reflexivity | exact Hc]. }
  rewrite E. unfold add_new.
  rewrite bool_decide_eq_false_2
    by (destruct pfx; [discriminate Hl | discriminate]).
  rewrite bool_decide_eq_false_2 by (apply not_elem_of_nil). reflexivity.
Qed.

Lemma clean_link_extracts_itself_witness :
  extract_https_links "HTTPS://Example.org/a?b=1"
  = ["HTTPS://Example.org/a?b=1" : str].
Proof.
  apply (clean_link_extracts_itself "HTTPS://" "Example.org/a?b=1");
    try reflexivity; try discriminate.
  intros front c E.
  assert (L : last (("HTTPS://" : str) ++ ("Example.org/a?b=1" : str))
              = last (front ++ [c])) by (rewrite E; reflexivity).
  rewrite last_snoc in L. vm_compute in L. injection L as <-. reflexivity.
Defined.

Lemma scan_nil_iff (text : str) :
  LinkScan text [] <-> (forall pre s, text = pre ++ s -> ~ starts_link s).
Proof.
  split.
  - intros H. remember [] as ls eqn:E.
    induction H as [|c s ls Hn Hs IH|]; [|subst ls|discriminate E].
    + intros pre s E' (pfx & c & rest & -> & Hl & _).
      destruct pre; destruct pfx; discriminate.
    + intros pre s0 E'. destruct pre as [|x pre].
      * simpl in E'. subst s0. exact Hn.
      * injection E' as _ E'. exact (IH eq_refl pre s0 E').
  - induction text as [|c s IH]; intros H; [apply scan_end|].
    apply scan_skip; [exact (H [] (c :: s) eq_refl)|].
    apply IH. intros pre s0 ->. exact (H (c :: pre) s0 eq_refl).
Qed.

(** ** youtube_extractor.py: texts in two parts *)

Lemma starts_link_chars (s : str) :
  starts_link s ->
  exists head rest, s = head ++ rest /\ length head = 9
    /\ forallb is_link_char head = true.
Proof.
  intros (pfx & c & rest & -> & Hl & Hc).
  exists (pfx ++ [c]), rest. rewrite <- app_assoc. split; [reflexivity|].
  rewrite length_app, (https_prefix_length pfx Hl). split; [reflexivity|].
  rewrite forallb_app, (https_prefix_link_chars pfx Hl). simpl. rewrite Hc.
  reflexivity.
Qed.

(** No link starts in front of a delimiter unless it starts without it. *)
Lemma starts_link_cut (a b : str) (w : ascii) :
  is_link_char w = false -> starts_link (a ++ w :: b) -> starts_link a.
Proof.
  intros Hw (pfx & c & rest & E & Hl & Hc).
  change (pfx ++ c :: rest) with (pfx ++ [c] ++ rest) in E.
  rewrite app_assoc in E. symmetry in E.
  apply app_eq_app in E. destruct E as (l & [[E1 E2]|[E1 E2]]).
  - destruct l as [|x l].
    + rewrite app_nil_r in E1. exists pfx, c, []. rewrite E1. auto.
    + exfalso. simpl in E2. injection E2 as <- _.
      assert (F : forallb is_link_char (pfx ++ [c]) = true).
      { rewrite forallb_app, (https_prefix_link_chars pfx Hl). simpl.
        rewrite Hc. reflexivity. }
      rewrite E1, forallb_app in F. simpl in F. rewrite Hw in F.
      rewrite andb_false_r in F. discriminate.
  - exists pfx, c, l. rewrite E1, <- app_assoc. auto.
Qed.

Lemma scan_app (a b : str) (w : ascii) (la lb : list str) :
  is_link_char w = false -> LinkScan a la -> LinkScan b lb ->
  LinkScan (a ++ w :: b) (la ++ lb).
Proof.
  intros Hw Ha Hb.
  induction Ha as [|c s ls Hn Hs IH|pfx body tail ls Hl Hne Hp He Hs IH].
  - simpl. apply scan_skip; [|exact Hb].
    intros H. apply (starts_link_cut [] b w Hw) in H.
    destruct H as (pfx & c & rest & E & Hl & _).
    destruct pfx; [discriminate Hl | discriminate E].
  - simpl. apply scan_skip; [|exact IH].
    intros H. apply Hn. exact (starts_link_cut (c :: s) b w Hw H).
  - rewrite <- !app_assoc. simpl.
    apply scan_link; try assumption.
    destruct tail as [|d tail]; [exact Hw | exact He].
Qed.

Lemma findall_app (a b : str) (w : ascii) :
  is_link_char w = false ->
  findall https_pattern (a ++ w :: b)
  = findall https_pattern a ++ findall https_pattern b.
Proof.
  intros Hw. symmetry.
  apply (scan_functional (a ++ w :: b)); [|apply findall_is_scan].
  apply scan_app; [exact Hw | apply findall_is_scan | apply findall_is_scan].
Qed.



(** The loop started on a list [acc] adds to it what the loop started on
    the empty list finds, without the links [acc] already has. *)
Lemma add_new_from (ys acc : list str) :
  fold_left add_new ys acc
  = acc ++ List.filter (fun l => negb (bool_decide (l ∈ acc)))
             (fold_left add_new ys []).
Proof.
  induction ys as [|y ys IH] using rev_ind; [simpl; rewrite app_nil_r; reflexivity|].
  rewrite !fold_left_app. simpl. rewrite IH.
  set (out := fold_left add_new ys []) in *.
  unfold add_new.
  destruct (bool_decide (y = [])) eqn:E1; simpl; [reflexivity|].
  destruct (bool_decide (y ∈ acc)) eqn:Ea.
  - apply bool_decide_eq_true in Ea.
    rewrite (bool_decide_eq_true_2 (y ∈ acc ++ _))
      by (apply list_elem_of_In, in_app_iff; left; apply list_elem_of_In; exact Ea).
    simpl. destruct (bool_decide (y ∈ out)); simpl; [reflexivity|].
    rewrite List.filter_app. simpl. rewrite (bool_decide_eq_true_2 _ Ea). simpl.
    rewrite app_nil_r. reflexivity.
  - apply bool_decide_eq_false in Ea.
    destruct (bool_decide (y ∈ out)) eqn:Eo; simpl.
    + apply bool_decide_eq_true in Eo.
      rewrite bool_decide_eq_true_2; [reflexivity|].
      apply list_elem_of_In, in_app_iff. right. apply filter_In. split.
      * apply list_elem_of_In. exact Eo.
      * rewrite bool_decide_eq_false_2 by exact Ea. reflexivity.
    + apply bool_decide_eq_false in Eo.
      rewrite bool_decide_eq_false_2.
      * simpl. rewrite List.filter_app. simpl.
        rewrite (bool_decide_eq_false_2 _ Ea). simpl.
        rewrite app_assoc. reflexivity.
      * rewrite list_elem_of_In, in_app_iff, filter_In, <- !list_elem_of_In.
        tauto.
Qed.

(** X13. Around a character that cannot be part of a link the extraction
    splits: the links of the whole text are the links of the part before it,
    followed by the links of the part behind it that the first part does not
    have already. *)
Theorem extract_https_links_two_parts (a b : str) (w : ascii) :
  is_link_char w = false ->
  extract_https_links (a ++ w :: b)
  = extract_https_links a
    ++ List.filter (fun l => negb (bool_decide (l ∈ extract_https_links a)))
         (extract_https_links b).
Proof.
  intros Hw. rewrite !extract_https_links_eq. unfold cleaned_matches.
  rewrite (findall_app a b w Hw), map_app, fold_left_app.
  apply add_new_from.
Qed.

Lemma extract_https_links_two_parts_witness :
  extract_https_links "https://a.com https://b.org, https://a.com"
  = extract_https_links "https://a.com"
    ++ List.filter
         (fun l => negb (bool_decide (l ∈ extract_https_links "https://a.com")))
         (extract_https_links "https://b.org, https://a.com").
Proof.
  apply (extract_https_links_two_parts "https://a.com"
           "https://b.org, https://a.com" " ").
  reflexivity.
Defined.

(** ** [extract_video_id]: what follows the identifier *)

Section MoreParse.
Context {lib : Library}.

Lemma split_char_cons (x : ascii) (cur a rest : str) :
  has_char x a = false ->
  split_scan [x] 0 cur (a ++ x :: rest)
  = (rev cur ++ a) :: split_scan [x] 0 [] rest.
Proof.
  revert cur. induction a as [|c a IH]; intros cur H.
  - simpl app. cbn [split_scan startswith]. rewrite ch_eqb_refl. cbn [andb].
    rewrite app_nil_r. reflexivity.
  - rewrite has_char_cons in H. apply orb_false_iff in H. destruct H as [Hc Ha].
    simpl app. cbn [split_scan startswith]. rewrite Hc. cbn [andb].
    rewrite IH by exact Ha. simpl rev. rewrite <- app_assoc. reflexivity.
Qed.

(** The value [get('v')] finds is the one of the first [v] of the query. *)
Lemma dict_get_append (n name v : str) (d : list (str * list str)) :
  dict_get n (dict_append name v d)
  = if bool_decide (name = n)
    then Some (default [] (dict_get n d) ++ [v])
    else dict_get n d.
Proof.
  induction d as [|[k vs] d IH]; simpl.
  - destruct (bool_decide (name = n)); reflexivity.
  - destruct (bool_decide (k = name)) eqn:E1; simpl.
    + apply bool_decide_eq_true in E1. subst k.
      destruct (bool_decide (name = n)); reflexivity.
    + apply bool_decide_eq_false in E1.
      destruct (bool_decide (k = n)) eqn:E2.
      * apply bool_decide_eq_true in E2. subst k.
        rewrite bool_decide_eq_false_2 by congruence. reflexivity.
      * exact IH.
Qed.

Lemma first_v_kept (pairs : list (str * str)) (d : list (str * list str))
    (v : str) (vs : list str) :
  dict_get "v" d = Some (v :: vs) ->
  first_v (fold_left (fun d nv => dict_append (fst nv) (snd nv) d) pairs d)
  = Some v.
Proof.
  revert d vs. induction pairs as [|[n x] pairs IH]; intros d vs H.
  - unfold first_v. cbn [fold_left]. rewrite H. reflexivity.
  - cbn [fold_left fst snd]. destruct (bool_decide (n = ("v" : str))) eqn:E.
    + apply (IH _ (vs ++ [x])). rewrite dict_get_append, E, H. reflexivity.
    + apply (IH _ vs). rewrite dict_get_append, E. exact H.
Qed.

Lemma first_v_leading (id rest : str) :
  is_video_id id ->
  first_v (parse_qs (("v=" : str) ++ id ++ "&"%char :: rest)) = Some id.
Proof.
  intros [Hne Hid]. pose proof (id_chars_avoid id Hid) as Ha.
  assert (A1 : has_char "&" id = false) by absent Ha.
  assert (A2 : has_char "+" id = false) by absent Ha.
  assert (A3 : has_char "%" id = false) by absent Ha.
  unfold parse_qs, parse_qsl.
  change (("v=" : str) ++ id ++ "&"%char :: rest)
    with (("v"%char :: "="%char :: id) ++ "&"%char :: rest).
  assert (S : split "&" (("v"%char :: "="%char :: id) ++ "&"%char :: rest)
              = ("v"%char :: "="%char :: id) :: split "&" rest).
  { unfold split. change (list_ascii_of_string "&") with ["&"%char].
    rewrite split_char_cons by (rewrite !has_char_cons, A1; reflexivity).
    reflexivity. }
  rewrite S. cbn [flat_map app].
  assert (F : parse_field ("v"%char :: "="%char :: id) = [(("v" : str), id)]).
  { unfold parse_field, split1.
    change (find "=" ("v"%char :: "="%char :: id)) with (Some 1).
    cbn [firstn skipn take drop].
    destruct id as [|c id]; [contradiction|].
    change (drop 0 (c :: id)) with (c :: id). cbv iota.
    rewrite (replace_char_id "+" " " (c :: id) A2), (unquote_plain (c :: id) A3).
    reflexivity. }
  rewrite F. cbn [app fold_left fst snd dict_append].
  apply (first_v_kept _ _ id []). reflexivity.
Qed.

Lemma url_with_query (pth : str) (q : option str) :
  avoids (("?#;" : str) ++ unsafe_chars) pth = true ->
  avoids ("#"%char :: unsafe_chars) (default [] q) = true ->
  forall sch host,
    is_head_alpha sch = true -> forallb is_scheme_char sch = true ->
    avoids (("/?#[]" : str) ++ unsafe_chars) host = true ->
    is_path pth = true ->
    urlparse (sch ++ ("://" : str) ++ host ++ pth ++ query_part q)
    = Some {| scheme := lower sch; netloc := host; path := pth; params := [];
              query := default [] q; fragment := [] |}.
Proof. intros. apply urlparse_wellformed; assumption. Qed.

Lemma id_path_avoids (sep id : str) :
  avoids (("?#;" : str) ++ unsafe_chars) sep = true ->
  forallb is_id_char id = true ->
  avoids (("?#;" : str) ++ unsafe_chars) (sep ++ id) = true.
Proof.
  intros Hs Hid. rewrite avoids_app, Hs.
  eapply avoids_weaken; [|exact (id_chars_avoid id Hid)]. reflexivity.
Qed.

Lemma extract_embed_q (sch host h id : str) (q : option str) :
  is_head_alpha sch = true -> forallb is_scheme_char sch = true ->
  avoids (("/?#[]" : str) ++ unsafe_chars) host = true ->
  hostname_of host = Some h -> In h youtube_hosts ->
  is_video_id id ->
  avoids ("#"%char :: unsafe_chars) (default [] q) = true ->
  extract_video_id
    (sch ++ ("://" : str) ++ host ++ (("/embed/" : str) ++ id) ++ query_part q)
  = Some id.
Proof.
  intros Hhead Hsch Hhost Hh Hin Hid Hq.
  pose proof (id_chars_avoid id (proj2 Hid)) as Ha.
  assert (A1 : has_char "/" id = false) by absent Ha.
  assert (A2 : has_char "?" id = false) by absent Ha.
  unfold extract_video_id.
  rewrite (url_with_query _ q (id_path_avoids "/embed/" id eq_refl (proj2 Hid)) Hq)
    by (try assumption; reflexivity).
  unfold hostname. cbn [netloc path query]. rewrite Hh.
  rewrite bool_decide_eq_true_2 by (apply list_elem_of_In; exact Hin).
  rewrite bool_decide_eq_false_2 by discriminate.
  rewrite startswith_app.
  rewrite (path_piece "/embed/" id "/" eq_refl A1 A2). reflexivity.
Qed.

Lemma extract_v_q (sch host h id : str) (q : option str) :
  is_head_alpha sch = true -> forallb is_scheme_char sch = true ->
  avoids (("/?#[]" : str) ++ unsafe_chars) host = true ->
  hostname_of host = Some h -> In h youtube_hosts ->
  is_video_id id ->
  avoids ("#"%char :: unsafe_chars) (default [] q) = true ->
  extract_video_id
    (sch ++ ("://" : str) ++ host ++ (("/v/" : str) ++ id) ++ query_part q)
  = Some id.
Proof.
  intros Hhead Hsch Hhost Hh Hin Hid Hq.
  pose proof (id_chars_avoid id (proj2 Hid)) as Ha.
  assert (A1 : has_char "/" id = false) by absent Ha.
  assert (A2 : has_char "?" id = false) by absent Ha.
  unfold extract_video_id.
  rewrite (url_with_query _ q (id_path_avoids "/v/" id eq_refl (proj2 Hid)) Hq)
    by (try assumption; reflexivity).
  unfold hostname. cbn [netloc path query]. rewrite Hh.
  rewrite bool_decide_eq_true_2 by (apply list_elem_of_In; exact Hin).
  rewrite bool_decide_eq_false_2 by discriminate.
  change (startswith "/embed/" (("/v/" : str) ++ id)) with false.
  rewrite startswith_app.
  rewrite (path_piece "/v/" id "/" eq_refl A1 A2). reflexivity.
Qed.

Lemma short_host_unlisted : ~ ("youtu.be" : str) ∈ youtube_hosts.
Proof.
  intros H. apply list_elem_of_In in H. vm_compute in H. intuition discriminate.
Qed.

Lemma extract_short_q (sch host id : str) (q : option str) :
  is_head_alpha sch = true -> forallb is_scheme_char sch = true ->
  avoids (("/?#[]" : str) ++ unsafe_chars) host = true ->
  hostname_of host = Some ("youtu.be" : str) ->
  is_video_id id ->
  avoids ("#"%char :: unsafe_chars) (default [] q) = true ->
  extract_video_id
    (sch ++ ("://" : str) ++ host ++ (("/" : str) ++ id) ++ query_part q)
  = Some id.
Proof.
  intros Hhead Hsch Hhost Hh Hid Hq.
  pose proof (id_chars_avoid id (proj2 Hid)) as Ha.
  assert (A2 : has_char "?" id = false) by absent Ha.
  unfold extract_video_id.
  rewrite (url_with_query _ q (id_path_avoids "/" id eq_refl (proj2 Hid)) Hq)
    by (try assumption; reflexivity).
  unfold hostname. cbn [netloc path query]. rewrite Hh.
  change [list_ascii_of_string "www.youtube.com";
          list_ascii_of_string "youtube.com";
          list_ascii_of_string "m.youtube.com"] with youtube_hosts.
  rewrite (bool_decide_eq_false_2 _ short_host_unlisted).
  rewrite (bool_decide_eq_true_2 (("youtu.be" : str) ∈ [("youtu.be" : str)]))
    by (apply list_elem_of_In; left; reflexivity).
  change (drop 1 (("/" : str) ++ id)) with id.
  rewrite (split_plain "?" id "?" eq_refl A2). reflexivity.
Qed.

Lemma extract_watch_more (sch host h id rest : str) :
  is_head_alpha sch = true -> forallb is_scheme_char sch = true ->
  avoids (("/?#[]" : str) ++ unsafe_chars) host = true ->
  hostname_of host = Some h -> In h youtube_hosts ->
  is_video_id id ->
  is_query_tail rest = true ->
  extract_video_id
    (sch ++ ("://" : str) ++ host ++ ("/watch?v=" : str) ++ id ++ "&"%char :: rest)
  = Some id.
Proof.
  intros Hhead Hsch Hhost Hh Hin Hid Hq.
  pose proof (id_chars_avoid id (proj2 Hid)) as Ha.
  change (sch ++ ("://" : str) ++ host ++ ("/watch?v=" : str) ++ id ++ "&"%char :: rest)
    with (sch ++ ("://" : str) ++ host ++ ("/watch" : str)
            ++ query_part (Some (("v=" : str) ++ id ++ "&"%char :: rest))).
  unfold extract_video_id. rewrite urlparse_wellformed; try assumption; try reflexivity.
  - unfold hostname. cbn [netloc path query]. rewrite Hh.
    rewrite bool_decide_eq_true_2 by (apply list_elem_of_In; exact Hin).
    rewrite bool_decide_eq_true_2 by reflexivity.
    apply first_v_leading, Hid.
  - change (avoids ("#"%char :: unsafe_chars)
              (("v=" : str) ++ id ++ ["&"%char] ++ rest) = true).
    rewrite !avoids_app. unfold is_query_tail in Hq. rewrite Hq.
    assert (A : avoids ("#"%char :: unsafe_chars) id = true)
      by (eapply avoids_weaken; [|exact Ha]; reflexivity).
    rewrite A. reflexivity.
Qed.

(** X14. Further query parameters behind the identifier do not change
    what [extract_video_id] returns: [&rest] behind [watch?v=ID], and
    [?rest] behind the [/embed/], [/v/] and [youtu.be] forms, for any [rest]
    without a fragment sign, tab, carriage return or line feed. *)
Theorem trailing_parameters_ignored (sch host id rest : str) :
  In sch ["http" : str; "https" : str] ->
  In host youtube_hosts ->
  is_video_id id ->
  is_query_tail rest = true ->
  extract_video_id
    (sch ++ ("://" : str) ++ host ++ ("/watch?v=" : str) ++ id ++ ("&" : str) ++ rest)
  = Some id
  /\ extract_video_id
       (sch ++ ("://" : str) ++ host ++ ("/embed/" : str) ++ id ++ ("?" : str) ++ rest)
     = Some id
  /\ extract_video_id
       (sch ++ ("://" : str) ++ host ++ ("/v/" : str) ++ id ++ ("?" : str) ++ rest)
     = Some id
  /\ extract_video_id
       (sch ++ ("://youtu.be/" : str) ++ id ++ ("?" : str) ++ rest)
     = Some id.
Proof.
  intros Hsch Hhost Hid Hrest.
  destruct (web_scheme_ok sch Hsch) as [S1 S2].
  destruct (youtube_host_ok host Hhost) as [H1 H2].
  split; [|split; [|split]].
  - apply (extract_watch_more sch host host id rest); assumption.
  - apply (extract_embed_q sch host host id (Some rest)); assumption.
  - apply (extract_v_q sch host host id (Some rest)); assumption.
  - apply (extract_short_q sch "youtu.be" id (Some rest));
      try assumption; reflexivity.
Qed.
End MoreParse.

Lemma trailing_parameters_ignored_witness :
  @extract_video_id sample_library
    "https://www.youtube.com/watch?v=dQw4w9WgXcQ&t=42s&list=PL1"
  = Some ("dQw4w9WgXcQ" : str)
  /\ @extract_video_id sample_library "https://youtu.be/dQw4w9WgXcQ?t=42s&list=PL1"
     = Some ("dQw4w9WgXcQ" : str).
Proof.
  destruct (@trailing_parameters_ignored sample_library "https" "www.youtube.com"
              "dQw4w9WgXcQ" "t=42s&list=PL1") as (Hw & _ & _ & Hs).
  - right. left. reflexivity.
  - left. reflexivity.
  - split; [discriminate | reflexivity].
  - reflexivity.
  - split; [exact Hw | exact Hs].
Defined.

(** ** [extract_video_id]: scheme and host *)

Lemma rfind_from_none (n : nat) (x : ascii) (s : str) :
  has_char x s = false -> rfind_from n x s = None.
Proof.
  revert n. induction s as [|c s IH]; intros n H; [reflexivity|].
  rewrite has_char_cons in H. apply orb_false_iff in H. destruct H as [Hc Hs].
  cbn [rfind_from]. rewrite (IH _ Hs), Hc. reflexivity.
Qed.

(** A netloc without user, port, brackets or zone is its own host name,
    in lower case. *)
Lemma hostname_plain (host : str) :
  host <> [] -> avoids "@[:%" host = true ->
  hostname_of host = Some (lower host).
Proof.
  intros Hne Ha.
  assert (A1 : has_char "@" host = false) by absent Ha.
  assert (A2 : has_char "[" host = false) by absent Ha.
  assert (A3 : has_char ":" host = false) by absent Ha.
  assert (A4 : has_char "%" host = false) by absent Ha.
  unfold hostname_of, rpartition, partition, rfind.
  rewrite (rfind_from_none 0 "@" host A1). cbn [snd].
  rewrite (find_none "[" host A2), (find_none ":" host A3). cbn [fst].
  destruct host as [|c host]; [contradiction|].
  rewrite (find_none "%" _ A4). rewrite !app_nil_r. reflexivity.
Qed.

Lemma lower_keeps_marks (c : ascii) :
  has_char (lower_char c) (("/?#[]@:%" : str) ++ unsafe_chars)
  = has_char c (("/?#[]@:%" : str) ++ unsafe_chars).
Proof.
  apply eqb_prop.
  apply (ascii_forall
           (fun c => Bool.eqb
              (has_char (lower_char c) (("/?#[]@:%" : str) ++ unsafe_chars))
              (has_char c (("/?#[]@:%" : str) ++ unsafe_chars)))).
  vm_compute. reflexivity.
Qed.

Lemma avoids_marks_lower (host : str) :
  avoids (("/?#[]@:%" : str) ++ unsafe_chars) (lower host)
  = avoids (("/?#[]@:%" : str) ++ unsafe_chars) host.
Proof.
  unfold avoids, lower. induction host as [|c host IH]; [reflexivity|].
  cbn [map forallb]. rewrite IH, lower_keeps_marks. reflexivity.
Qed.

Lemma known_host_any_case (host : str) (names : list str) :
  forallb (fun n => negb (bool_decide (n = []))
                    && avoids (("/?#[]@:%" : str) ++ unsafe_chars) n) names = true ->
  In (lower host) names ->
  avoids (("/?#[]" : str) ++ unsafe_chars) host = true
  /\ hostname_of host = Some (lower host).
Proof.
  intros Hn Hin. rewrite forallb_forall in Hn. specialize (Hn _ Hin).
  apply andb_true_iff in Hn. destruct Hn as [Hne Ha].
  apply negb_true_iff, bool_decide_eq_false in Hne.
  rewrite avoids_marks_lower in Ha. split.
  - eapply avoids_weaken; [|exact Ha]. reflexivity.
  - apply hostname_plain.
    + intros ->. apply Hne. reflexivity.
    + eapply avoids_weaken; [|exact Ha]. reflexivity.
Qed.

Section SchemeHost.
Context {lib : Library}.

(** X15. [extract_video_id] does not look at the scheme and takes the
    host name in any case of its letters: with any well-formed scheme, and a
    host that lower-cases to one of the recognized names, the four URL
    shapes resolve to the identifier. *)
Theorem any_scheme_any_case (sch host short id : str) :
  is_head_alpha sch = true ->
  forallb is_scheme_char sch = true ->
  In (lower host) youtube_hosts ->
  lower short = ("youtu.be" : str) ->
  is_video_id id ->
  extract_video_id (sch ++ ("://" : str) ++ host ++ ("/watch?v=" : str) ++ id) = Some id
  /\ extract_video_id (sch ++ ("://" : str) ++ host ++ ("/embed/" : str) ++ id) = Some id
  /\ extract_video_id (sch ++ ("://" : str) ++ host ++ ("/v/" : str) ++ id) = Some id
  /\ extract_video_id (sch ++ ("://" : str) ++ short ++ ("/" : str) ++ id) = Some id.
Proof.
  intros Hhead Hsch Hhost Hshort Hid.
  destruct (known_host_any_case host youtube_hosts eq_refl Hhost) as [H1 H2].
  destruct (known_host_any_case short ["youtu.be" : str] eq_refl) as [S1 S2];
    [left; symmetry; exact Hshort|].
  rewrite Hshort in S2.
  split; [|split; [|split]].
  - apply (extract_watch sch host (lower host) id); assumption.
  - apply (extract_embed sch host (lower host) id); assumption.
  - apply (extract_v sch host (lower host) id); assumption.
  - rewrite <- (app_nil_r id) at 1. rewrite !app_assoc. rewrite <- !app_assoc.
    apply (extract_short_q sch short id None); try assumption. reflexivity.
Qed.

End SchemeHost.

Lemma any_scheme_any_case_witness :
  @extract_video_id sample_library "FTP://WWW.YouTube.COM/watch?v=dQw4w9WgXcQ"
  = Some ("dQw4w9WgXcQ" : str)
  /\ @extract_video_id sample_library "FTP://WWW.YouTube.COM/embed/dQw4w9WgXcQ"
     = Some ("dQw4w9WgXcQ" : str)
  /\ @extract_video_id sample_library "FTP://WWW.YouTube.COM/v/dQw4w9WgXcQ"
     = Some ("dQw4w9WgXcQ" : str)
  /\ @extract_video_id sample_library "FTP://Youtu.BE/dQw4w9WgXcQ"
     = Some ("dQw4w9WgXcQ" : str).
Proof.
  apply (@any_scheme_any_case sample_library "FTP" "WWW.YouTube.COM"
           "Youtu.BE" "dQw4w9WgXcQ").
  - reflexivity.
  - reflexivity.
  - left. reflexivity.
  - reflexivity.
  - split; [discriminate | reflexivity].
Defined.

(** ** [extract_video_id]: the domain part *)

Lemma rfind_from_last (n : nat) (x : ascii) (a b : str) :
  has_char x b = false -> rfind_from n x (a ++ x :: b) = Some (n + length a).
Proof.
  intros Hb. revert n. induction a as [|c a IH]; intros n.
  - cbn [app rfind_from]. rewrite (rfind_from_none (S n) x b Hb), ch_eqb_refl.
    cbn [length]. f_equal. lia.
  - cbn [app rfind_from]. rewrite IH. cbn [length]. f_equal. lia.
Qed.

Lemma hostname_authority (user port : option str) (host : str) :
  is_plain_host host ->
  avoids "@[" (default [] port) = true ->
  hostname_of (authority user host port) = Some (lower host).
Proof.
  intros [Hne Ha] Hp.
  assert (A1 : has_char "@" host = false) by absent Ha.
  assert (A2 : has_char "[" host = false) by absent Ha.
  assert (A3 : has_char ":" host = false) by absent Ha.
  assert (A4 : has_char "%" host = false) by absent Ha.
  assert (P1 : has_char "@" (default [] port) = false) by absent Hp.
  assert (P2 : has_char "[" (default [] port) = false) by absent Hp.
  set (tail := match port with Some p => ":"%char :: p | None => [] end).
  assert (T1 : has_char "@" tail = false).
  { subst tail. destruct port as [p|]; [|reflexivity].
    rewrite has_char_cons. exact P1. }
  assert (T2 : has_char "[" tail = false).
  { subst tail. destruct port as [p|]; [|reflexivity].
    rewrite has_char_cons. exact P2. }
  assert (Hinfo : snd (rpartition "@" (authority user host port)) = host ++ tail).
  { unfold authority. fold tail. destruct user as [u|].
    - rewrite <- app_assoc. cbn [app]. unfold rpartition, rfind.
      rewrite rfind_from_last by (rewrite has_char_app, A1, T1; reflexivity).
      cbn [snd plus]. apply drop_succ_app.
    - cbn [app]. unfold rpartition, rfind.
      rewrite rfind_from_none by (rewrite has_char_app, A1, T1; reflexivity).
      reflexivity. }
  unfold hostname_of. rewrite Hinfo.
  unfold partition at 1.
  rewrite (find_none "[" (host ++ tail))
    by (rewrite has_char_app, A2, T2; reflexivity).
  assert (Hh : fst (fst (partition ":" (host ++ tail))) = host).
  { subst tail. destruct port as [p|]; unfold partition.
    - rewrite (find_app ":" host p A3). cbn [fst]. apply take_app_length.
    - rewrite app_nil_r, (find_none ":" host A3). reflexivity. }
  rewrite Hh. destruct host as [|c host]; [contradiction|].
  unfold partition. rewrite (find_none "%" _ A4). rewrite !app_nil_r. reflexivity.
Qed.

Lemma authority_avoids (user port : option str) (host : str) :
  is_plain_host host ->
  avoids (("/?#[]" : str) ++ unsafe_chars) (default [] user) = true ->
  avoids (("/?#[]@" : str) ++ unsafe_chars) (default [] port) = true ->
  avoids (("/?#[]" : str) ++ unsafe_chars) (authority user host port) = true.
Proof.
  intros [_ Ha] Hu Hp. unfold authority. rewrite !avoids_app.
  assert (A : avoids (("/?#[]" : str) ++ unsafe_chars) host = true)
    by (eapply avoids_weaken; [|exact Ha]; reflexivity).
  assert (P : avoids (("/?#[]" : str) ++ unsafe_chars) (default [] port) = true)
    by (eapply avoids_weaken; [|exact Hp]; reflexivity).
  rewrite A. destruct user as [u|], port as [p|]; cbv [default from_option Datatypes.id] in *.
  - rewrite avoids_app, Hu.
    change (avoids (("/?#[]" : str) ++ unsafe_chars) (":"%char :: p))
      with (avoids (("/?#[]" : str) ++ unsafe_chars) p).
    rewrite P. reflexivity.
  - rewrite avoids_app, Hu. reflexivity.
  - change (avoids (("/?#[]" : str) ++ unsafe_chars) (":"%char :: p))
      with (avoids (("/?#[]" : str) ++ unsafe_chars) p).
    rewrite P. reflexivity.
  - reflexivity.
Qed.

Lemma known_host_plain (host : str) (names : list str) :
  forallb (fun n => negb (bool_decide (n = []))
                    && avoids (("/?#[]@:%" : str) ++ unsafe_chars) n) names = true ->
  In (lower host) names -> is_plain_host host.
Proof.
  intros Hn Hin. rewrite forallb_forall in Hn. specialize (Hn _ Hin).
  apply andb_true_iff in Hn. destruct Hn as [Hne Ha].
  apply negb_true_iff, bool_decide_eq_false in Hne.
  rewrite avoids_marks_lower in Ha. split; [|exact Ha].
  intros ->. apply Hne. reflexivity.
Qed.

Section Authority.
Context {lib : Library}.

(** X16. User information in front of the host name and a port behind it,
    both of the Latin-1 range and free of the characters that end the
    domain part, do not change what [extract_video_id] returns: only the
    host name between them is compared with the recognized names. (On the
    Latin-1 range the normalisation check of [urlsplit] never raises;
    beyond it the check can reject the URL.) *)
Theorem user_and_port_ignored (sch host short id : str) (user port : option str) :
  is_head_alpha sch = true ->
  forallb is_scheme_char sch = true ->
  In (lower host) youtube_hosts ->
  lower short = ("youtu.be" : str) ->
  avoids (("/?#[]" : str) ++ unsafe_chars) (default [] user) = true ->
  avoids (("/?#[]@" : str) ++ unsafe_chars) (default [] port) = true ->
  is_video_id id ->
  extract_video_id (sch ++ ("://" : str) ++ authority user host port
                      ++ ("/watch?v=" : str) ++ id) = Some id
  /\ extract_video_id (sch ++ ("://" : str) ++ authority user host port
                         ++ ("/embed/" : str) ++ id) = Some id
  /\ extract_video_id (sch ++ ("://" : str) ++ authority user host port
                         ++ ("/v/" : str) ++ id) = Some id
  /\ extract_video_id (sch ++ ("://" : str) ++ authority user short port
                         ++ ("/" : str) ++ id) = Some id.
Proof.
  intros Hhead Hsch Hhost Hshort Hu Hp Hid.
  pose proof (known_host_plain host youtube_hosts eq_refl Hhost) as Hplain.
  assert (Hsplain : is_plain_host short).
  { apply (known_host_plain short ["youtu.be" : str] eq_refl).
    left. symmetry. exact Hshort. }
  assert (Hp' : avoids "@[" (default [] port) = true)
    by (eapply avoids_weaken; [|exact Hp]; reflexivity).
  pose proof (authority_avoids user port host Hplain Hu Hp) as N1.
  pose proof (hostname_authority user port host Hplain Hp') as N2.
  pose proof (authority_avoids user port short Hsplain Hu Hp) as S1.
  pose proof (hostname_authority user port short Hsplain Hp') as S2.
  rewrite Hshort in S2.
  split; [|split; [|split]].
  - apply (extract_watch sch _ (lower host) id); assumption.
  - apply (extract_embed sch _ (lower host) id); assumption.
  - apply (extract_v sch _ (lower host) id); assumption.
  - pose proof (extract_short_q sch (authority user short port) id None
                  Hhead Hsch S1 S2 Hid eq_refl) as E.
    cbn [query_part] in E. rewrite app_nil_r in E. exact E.
Qed.

End Authority.

Lemma user_and_port_ignored_witness :
  @extract_video_id sample_library
     "https://example.org@www.youtube.com:8443/watch?v=dQw4w9WgXcQ"
  = Some ("dQw4w9WgXcQ" : str)
  /\ @extract_video_id sample_library
       "https://example.org@www.youtube.com:8443/embed/dQw4w9WgXcQ"
     = Some ("dQw4w9WgXcQ" : str)
  /\ @extract_video_id sample_library
       "https://example.org@www.youtube.com:8443/v/dQw4w9WgXcQ"
     = Some ("dQw4w9WgXcQ" : str)
  /\ @extract_video_id sample_library
       "https://example.org@youtu.be:8443/dQw4w9WgXcQ"
     = Some ("dQw4w9WgXcQ" : str).
Proof.
  apply (@user_and_port_ignored sample_library "https" "www.youtube.com"
           "youtu.be" "dQw4w9WgXcQ" (Some ("example.org" : str))
           (Some ("8443" : str))).
  - reflexivity.
  - reflexivity.
  - left. reflexivity.
  - reflexivity.
  - reflexivity.
  - reflexivity.
  - split; [discriminate | reflexivity].
Defined.

(** ** [extract_video_id]: what is turned down *)

Lemma find_from_nth (n : nat) (x : ascii) (s : str) (i : nat) :
  find_from n x s = Some i ->
  n <= i /\ nth_error s (i - n) = Some x
  /\ has_char x (firstn (i - n) s) = false.
Proof.
  revert n. induction s as [|c s IH]; intros n H; [discriminate|].
  cbn [find_from] in H. destruct (ch_eqb x c) eqn:E.
  - injection H as <-. apply ch_eqb_true in E. subst c.
    rewrite Nat.sub_diag. split; [lia|split; reflexivity].
  - destruct (IH _ H) as (Hle & Hn & Hf).
    replace (i - n) with (S (i - S n)) by lia.
    split; [lia|]. split; [exact Hn|].
    cbn [firstn]. rewrite has_char_cons, E, Hf. reflexivity.
Qed.

Lemma has_char_skipn (x : ascii) (k : nat) (s : str) :
  has_char x s = false -> has_char x (skipn k s) = false.
Proof.
  revert s. induction k as [|k IH]; intros s H; [exact H|].
  destruct s as [|c s]; [reflexivity|].
  rewrite has_char_cons in H. apply orb_false_iff in H.
  cbn [skipn]. apply IH, H.
Qed.

Lemma no_double_slash (a : str) (w : ascii) (rest : str) :
  has_char "/" a = false -> ch_eqb "/" w = false ->
  startswith "//" (a ++ w :: rest) = false.
Proof.
  intros Ha Hw. destruct a as [|c a].
  - change (startswith "//" ([] ++ w :: rest))
      with (ch_eqb "/" w && startswith "/" rest).
    rewrite Hw. reflexivity.
  - rewrite has_char_cons in Ha. apply orb_false_iff in Ha.
    cbn [app]. change (startswith "//" (c :: a ++ w :: rest))
      with (ch_eqb "/" c && startswith "/" (a ++ w :: rest)).
    rewrite (proj1 Ha). reflexivity.
Qed.

Section Rejections.
Context {lib : Library}.

(** Without two slashes at the start, or behind the scheme, a text has no
    domain part. *)
Lemma urlsplit_no_netloc (url : str) :
  lstrip_of is_c0_or_space url = url ->
  avoids unsafe_chars url = true ->
  startswith "//" url = false ->
  (forall i, find ":" url = Some i ->
             forallb is_scheme_char (firstn i url) = true ->
             startswith "//" (skipn (S i) url) = false) ->
  exists r, urlsplit url = Some r /\ netloc r = [].
Proof.
  intros Hl Ha Hs Hi. unfold urlsplit. rewrite Hl, (remove_unsafe_id url Ha).
  destruct (find ":" url) as [i|] eqn:F.
  - destruct url as [|c0 url0]; [discriminate F|].
    destruct ((0 <? i) && is_ascii_alpha c0
              && forallb is_scheme_char (firstn i (c0 :: url0))) eqn:C.
    + apply andb_true_iff in C. destruct C as [_ C].
      rewrite (Hi i eq_refl C). eexists. split; [reflexivity|].
      match goal with |- context [split1 "#" ?u] =>
        destruct (split1 "#" u) as [|a [|b [|? ?]]] end;
      match goal with |- context [split1 "?" ?u] =>
        destruct (split1 "?" u) as [|a' [|b' [|? ?]]] end; reflexivity.
    + rewrite Hs. eexists. split; [reflexivity|].
      match goal with |- context [split1 "#" ?u] =>
        destruct (split1 "#" u) as [|a [|b [|? ?]]] end;
      match goal with |- context [split1 "?" ?u] =>
        destruct (split1 "?" u) as [|a' [|b' [|? ?]]] end; reflexivity.
  - destruct url as [|c0 url0].
    + eexists. split; reflexivity.
    + rewrite Hs. eexists. split; [reflexivity|].
      match goal with |- context [split1 "#" ?u] =>
        destruct (split1 "#" u) as [|a [|b [|? ?]]] end;
      match goal with |- context [split1 "?" ?u] =>
        destruct (split1 "?" u) as [|a' [|b' [|? ?]]] end; reflexivity.
Qed.

Lemma extract_video_id_no_netloc (url : str) (r : ParseResult) :
  urlsplit url = Some r -> netloc r = [] -> extract_video_id url = None.
Proof.
  intros Hr Hn. unfold extract_video_id, urlparse. rewrite Hr.
  destruct (bool_decide (scheme r ∈ uses_params) && has_char ";" (path r)).
  - destruct (_splitparams (path r)) as [u p]. unfold hostname. cbn [netloc].
    rewrite Hn. reflexivity.
  - unfold hostname. rewrite Hn. reflexivity.
Qed.

Lemma extract_text_before (pre rest : str) (w : ascii) :
  lstrip_of is_c0_or_space (pre ++ w :: rest) = pre ++ w :: rest ->
  avoids unsafe_chars (pre ++ w :: rest) = true ->
  has_char "/" pre = false ->
  is_scheme_char w = false ->
  has_char w ":/" = false ->
  extract_video_id (pre ++ w :: rest) = None.
Proof.
  intros Hl Ha Hpre Hw Hw2.
  change (has_char w ":/") with (ch_eqb w ":" || (ch_eqb w "/" || false)) in Hw2.
  rewrite orb_false_r in Hw2. apply orb_false_iff in Hw2.
  destruct Hw2 as [W1 W2]. rewrite ch_eqb_sym in W1, W2.
  destruct (urlsplit_no_netloc (pre ++ w :: rest) Hl Ha) as (r & Hr & Hn).
  - apply no_double_slash; assumption.
  - intros i F Hall. unfold find in F.
    destruct (find_from_nth 0 ":" _ i F) as (_ & Hnth & _).
    rewrite Nat.sub_0_r in Hnth.
    destruct (Nat.lt_trichotomy i (length pre)) as [Hlt|[Heq|Hgt]].
    + rewrite skipn_app.
      replace (S i - length pre) with 0 by lia. cbn [skipn].
      apply no_double_slash; [|exact W2].
      apply has_char_skipn, Hpre.
    + subst i. rewrite nth_error_app2 in Hnth by lia.
      rewrite Nat.sub_diag in Hnth. injection Hnth as ->.
      rewrite ch_eqb_refl in W1. discriminate.
    + rewrite firstn_app in Hall.
      replace (i - length pre) with (S (i - length pre - 1)) in Hall by lia.
      cbn [firstn] in Hall. rewrite forallb_app in Hall.
      cbn [forallb] in Hall. rewrite Hw in Hall.
      rewrite andb_false_r in Hall. discriminate.
  - exact (extract_video_id_no_netloc _ r Hr Hn).
Qed.

(** X17. For a text that does not begin with a space or a control
    character and holds no tab, carriage return or line feed: when a
    character that cannot be part of a scheme and is no colon (a space, for
    one) comes before the first slash, the text is no URL for
    [extract_video_id], whatever follows: the result is [None], and
    [process_youtube_url] returns the invalid-format failure for every
    provider. *)
Theorem text_before_url_rejected (pre rest : str) (w : ascii) :
  lstrip_of is_c0_or_space (pre ++ w :: rest) = pre ++ w :: rest ->
  avoids unsafe_chars (pre ++ w :: rest) = true ->
  has_char "/" pre = false ->
  is_scheme_char w = false ->
  has_char w ":/" = false ->
  extract_video_id (pre ++ w :: rest) = None
  /\ forall provider,
       process_youtube_url provider (pre ++ w :: rest)
       = Returns (inl msg_invalid_format).
Proof.
  intros Hl Ha Hpre Hw Hw2.
  pose proof (extract_text_before pre rest w Hl Ha Hpre Hw Hw2) as E.
  split; [exact E|]. intros provider. unfold process_youtube_url.
  rewrite E. reflexivity.
Qed.

(** What [extract_video_id] computes for a URL made of a scheme, a domain
    part, a path and a query. *)
Lemma extract_wellformed (sch host h pth : str) (q : option str) :
  is_head_alpha sch = true ->
  forallb is_scheme_char sch = true ->
  avoids (("/?#[]" : str) ++ unsafe_chars) host = true ->
  hostname_of host = Some h ->
  is_path pth = true ->
  avoids (("?#;" : str) ++ unsafe_chars) pth = true ->
  avoids ("#"%char :: unsafe_chars) (default [] q) = true ->
  extract_video_id (sch ++ ("://" : str) ++ host ++ pth ++ query_part q)
  = if bool_decide (h ∈ youtube_hosts) then
      if bool_decide (pth = ("/watch" : str)) then
        first_v (parse_qs (default [] q))
      else if startswith "/embed/" pth then
        Some (first_piece (split "?" (last_piece (split "/embed/" pth))))
      else if startswith "/v/" pth then
        Some (first_piece (split "?" (last_piece (split "/v/" pth))))
      else None
    else if bool_decide (h ∈ [("youtu.be" : str)]) then
      Some (first_piece (split "?" (skipn 1 pth)))
    else None.
Proof.
  intros Hhead Hsch Hhost Hh Hpath Hpth Hq.
  unfold extract_video_id. rewrite urlparse_wellformed by assumption.
  unfold hostname. cbn [netloc path query]. rewrite Hh. reflexivity.
Qed.

(** X18. On a hosting domain a path other than [/watch] that starts with
    neither [/embed/] nor [/v/] (a [/shorts/] or [/live/] URL, or [/watch/]
    with a slash behind it) makes [extract_video_id] return [None],
    with any query. *)
Theorem unsupported_path_rejected (sch host pth : str) (q : option str) :
  is_head_alpha sch = true ->
  forallb is_scheme_char sch = true ->
  In (lower host) youtube_hosts ->
  is_path pth = true ->
  avoids (("?#;" : str) ++ unsafe_chars) pth = true ->
  avoids ("#"%char :: unsafe_chars) (default [] q) = true ->
  pth <> ("/watch" : str) ->
  startswith "/embed/" pth = false ->
  startswith "/v/" pth = false ->
  extract_video_id (sch ++ ("://" : str) ++ host ++ pth ++ query_part q) = None.
Proof.
  intros Hhead Hsch Hhost Hpath Hpth Hq Hw He Hv.
  destruct (known_host_any_case host youtube_hosts eq_refl Hhost) as [H1 H2].
  rewrite (extract_wellformed sch host (lower host) pth q) by assumption.
  rewrite bool_decide_eq_true_2 by (apply list_elem_of_In; exact Hhost).
  rewrite (bool_decide_eq_false_2 _ Hw), He, Hv. reflexivity.
Qed.

Lemma parse_qs_one_field (name value : str) :
  avoids "&=+%" name = true ->
  has_char "&" value = false ->
  parse_qs (name ++ "="%char :: value)
  = match value with
    | [] => []
    | _ => [(name, [unquote (replace_char "+" " " value)])]
    end.
Proof.
  intros Hn Hv.
  assert (N1 : has_char "&" name = false) by absent Hn.
  assert (N2 : has_char "=" name = false) by absent Hn.
  assert (N3 : has_char "+" name = false) by absent Hn.
  assert (N4 : has_char "%" name = false) by absent Hn.
  unfold parse_qs, parse_qsl.
  destruct (name ++ "="%char :: value) as [|c0 qs] eqn:Q.
  { destruct name; discriminate Q. }
  rewrite <- Q.
  rewrite (split_plain "&" (name ++ "="%char :: value) "&" eq_refl)
    by (rewrite has_char_app, has_char_cons, N1, Hv; reflexivity).
  cbn [flat_map]. rewrite app_nil_r. unfold parse_field.
  rewrite Q. rewrite <- Q. unfold split1. rewrite (find_app "=" name value N2).
  rewrite take_app_length, drop_succ_app.
  destruct value as [|v0 value]; [reflexivity|].
  rewrite (replace_char_id "+" " " name N3), (unquote_plain name N4).
  reflexivity.
Qed.

(** X19. A [/watch] URL whose query is one field gives [None] when the
    name of the field is not exactly [v] (a capital [V], for one) or when
    its value is empty. *)
Theorem watch_requires_v (sch host name value : str) :
  is_head_alpha sch = true ->
  forallb is_scheme_char sch = true ->
  In (lower host) youtube_hosts ->
  avoids (("&=+%#" : str) ++ unsafe_chars) name = true ->
  avoids (("&#" : str) ++ unsafe_chars) value = true ->
  name <> ("v" : str) \/ value = [] ->
  extract_video_id (sch ++ ("://" : str) ++ host ++ ("/watch?" : str)
                      ++ name ++ ("=" : str) ++ value) = None.
Proof.
  intros Hhead Hsch Hhost Hn Hv Hnv.
  destruct (known_host_any_case host youtube_hosts eq_refl Hhost) as [H1 H2].
  change (sch ++ ("://" : str) ++ host ++ ("/watch?" : str)
            ++ name ++ ("=" : str) ++ value)
    with (sch ++ ("://" : str) ++ host ++ ("/watch" : str)
            ++ query_part (Some (name ++ "="%char :: value))).
  rewrite (extract_wellformed sch host (lower host) "/watch"
             (Some (name ++ "="%char :: value))); try assumption; try reflexivity.
  - rewrite bool_decide_eq_true_2 by (apply list_elem_of_In; exact Hhost).
    rewrite bool_decide_eq_true_2 by reflexivity.
    change (default [] (Some (name ++ "="%char :: value)))
      with (name ++ "="%char :: value).
    rewrite parse_qs_one_field.
    + destruct value as [|v0 value]; [reflexivity|].
      destruct Hnv as [Hnv|Hnv]; [|discriminate Hnv].
      unfold first_v. cbn [dict_get].
      rewrite (bool_decide_eq_false_2 _ Hnv). reflexivity.
    + eapply avoids_weaken; [|exact Hn]. reflexivity.
    + absent Hv.
  - change (default [] (Some (name ++ "="%char :: value)))
      with (name ++ "="%char :: value).
    rewrite avoids_app.
    assert (A1 : avoids ("#"%char :: unsafe_chars) name = true)
      by (eapply avoids_weaken; [|exact Hn]; reflexivity).
    assert (A2 : avoids ("#"%char :: unsafe_chars) value = true)
      by (eapply avoids_weaken; [|exact Hv]; reflexivity).
    rewrite A1.
    change (avoids ("#"%char :: unsafe_chars) ("="%char :: value))
      with (avoids ("#"%char :: unsafe_chars) value).
    exact A2.
Qed.

(** X20. A URL whose host name, lower-cased, is none of the three hosting
    domains and not [youtu.be] gives [None], with any path and query: a
    subdomain such as [music.youtube.com] is not recognized. *)
Theorem other_hosts_rejected (sch host pth : str) (q : option str) :
  is_head_alpha sch = true ->
  forallb is_scheme_char sch = true ->
  is_plain_host host ->
  ~ In (lower host) youtube_hosts ->
  lower host <> ("youtu.be" : str) ->
  is_path pth = true ->
  avoids (("?#;" : str) ++ unsafe_chars) pth = true ->
  avoids ("#"%char :: unsafe_chars) (default [] q) = true ->
  extract_video_id (sch ++ ("://" : str) ++ host ++ pth ++ query_part q) = None.
Proof.
  intros Hhead Hsch Hplain Hnot Hshort Hpath Hpth Hq.
  assert (H1 : avoids (("/?#[]" : str) ++ unsafe_chars) host = true)
    by (eapply avoids_weaken; [|exact (proj2 Hplain)]; reflexivity).
  assert (H2 : hostname_of host = Some (lower host)).
  { apply hostname_plain; [exact (proj1 Hplain)|].
    eapply avoids_weaken; [|exact (proj2 Hplain)]. reflexivity. }
  rewrite (extract_wellformed sch host (lower host) pth q) by assumption.
  rewrite (bool_decide_eq_false_2 (_ ∈ youtube_hosts))
    by (intros N; apply list_elem_of_In in N; exact (Hnot N)).
  rewrite (bool_decide_eq_false_2 (_ ∈ [_]))
    by (intros N; apply list_elem_of_singleton in N; exact (Hshort N)).
  reflexivity.
Qed.

End Rejections.

Lemma text_before_url_rejected_witness :
  @extract_video_id sample_library "Watch https://youtu.be/dQw4w9WgXcQ" = None
  /\ forall provider,
       @process_youtube_url sample_library provider
         "Watch https://youtu.be/dQw4w9WgXcQ" = Returns (inl msg_invalid_format).
Proof.
  apply (@text_before_url_rejected sample_library "Watch"
           "https://youtu.be/dQw4w9WgXcQ" " ").
  - reflexivity.
  - reflexivity.
  - reflexivity.
  - reflexivity.
  - reflexivity.
Defined.

Lemma unsupported_path_rejected_witness :
  @extract_video_id sample_library "https://www.youtube.com/shorts/dQw4w9WgXcQ"
  = None.
Proof.
  apply (@unsupported_path_rejected sample_library "https" "www.youtube.com"
           "/shorts/dQw4w9WgXcQ" None).
  - reflexivity.
  - reflexivity.
  - left. reflexivity.
  - reflexivity.
  - reflexivity.
  - reflexivity.
  - discriminate.
  - reflexivity.
  - reflexivity.
Defined.

Lemma watch_requires_v_witness :
  @extract_video_id sample_library "https://www.youtube.com/watch?V=dQw4w9WgXcQ"
  = None.
Proof.
  apply (@watch_requires_v sample_library "https" "www.youtube.com" "V"
           "dQw4w9WgXcQ").
  - reflexivity.
  - reflexivity.
  - left. reflexivity.
  - reflexivity.
  - reflexivity.
  - left. discriminate.
Defined.

Lemma other_hosts_rejected_witness :
  @extract_video_id sample_library "https://music.youtube.com/watch?v=dQw4w9WgXcQ"
  = None.
Proof.
  apply (@other_hosts_rejected sample_library "https" "music.youtube.com"
           "/watch" (Some ("v=dQw4w9WgXcQ" : str))).
  - reflexivity.
  - reflexivity.
  - split; [discriminate | reflexivity].
  - vm_compute. intuition discriminate.
  - discriminate.
  - reflexivity.
  - reflexivity.
  - reflexivity.
Defined.

(** ** bot.py: what the pattern cuts out of a message *)

Lemma search_false_findall (r : regex) (s : str) :
  search r s = false -> findall r s = [].
Proof.
  unfold findall. induction s as [|c s IH]; intros H.
  - cbn [search] in H. cbn [findall_scan].
    destruct (match_at r []); [discriminate H | reflexivity].
  - cbn [search] in H. cbn [findall_scan].
    destruct (match_at r (c :: s)); [discriminate H | exact (IH H)].
Qed.

Lemma findall_search (r : regex) (s : str) :
  findall r s <> [] -> search r s = true.
Proof.
  intros H. destruct (search r s) eqn:E; [reflexivity|].
  exfalso. apply H, search_false_findall, E.
Qed.

(** The test of [handle_message] and the first match agree. *)
Lemma url_of_message_head (text : str) :
  url_of_message text = List.head (findall youtube_url_pattern (strip text)).
Proof.
  unfold url_of_message. destruct (search _ _) eqn:E; [reflexivity|].
  rewrite (search_false_findall _ _ E). reflexivity.
Qed.

Lemma plus_id (id tail : str) :
  is_video_id id -> ends_id tail = true ->
  match_k (Plus is_id_char) (id ++ tail) Some = Some tail.
Proof.
  intros [Hne Hid] Ht. destruct id as [|c id]; [contradiction|].
  cbn [forallb] in Hid. apply andb_true_iff in Hid. destruct Hid as [Hc Hid].
  cbn [app match_k]. rewrite Hc, star_k_greedy, lstrip_app_all, Hid.
  f_equal. apply lstrip_fixed. destruct tail as [|w tail]; [exact I|].
  apply negb_true_iff, Ht.
Qed.

Lemma pattern_split (s : str) (k : str -> option str) :
  match_k youtube_url_pattern s k
  = match_k url_beginning s (fun s' => match_k (Plus is_id_char) s' k).
Proof. reflexivity. Qed.

(** Behind each of the accepted beginnings the pattern goes on with the
    identifier. *)
Lemma beginning_at (pfx x : str) (g : str -> option str) :
  In pfx accepted_beginnings ->
  match_k url_beginning (pfx ++ x) g = g x.
Proof.
  intros H. cbv [accepted_beginnings flat_map map app list_ascii_of_string] in H.
  repeat (destruct H as [<-|H];
          [vm_compute; destruct (g x); reflexivity|]).
  destruct H.
Qed.

Lemma pattern_at (pfx id tail : str) :
  In pfx accepted_beginnings -> is_video_id id -> ends_id tail = true ->
  match_at youtube_url_pattern ((pfx ++ id) ++ tail) = Some tail.
Proof.
  intros Hp Hid Ht. unfold match_at. rewrite <- app_assoc.
  rewrite pattern_split, (beginning_at pfx _ _ Hp). apply plus_id; assumption.
Qed.

Lemma first_url (pfx id tail : str) :
  In pfx accepted_beginnings -> is_video_id id -> ends_id tail = true ->
  List.head (findall youtube_url_pattern ((pfx ++ id) ++ tail)) = Some (pfx ++ id).
Proof.
  intros Hp Hid Ht. unfold findall.
  rewrite findall_scan_match; [reflexivity| |apply pattern_at; assumption].
  destruct Hid as [Hne _]. destruct pfx; [|discriminate].
  destruct id; [contradiction|discriminate].
Qed.

Lemma accepted_with_scheme (sch host shape : str) :
  In sch ["http" : str; "https" : str] ->
  In host ["youtube.com" : str; "www.youtube.com" : str] ->
  In shape path_shapes ->
  In (sch ++ ("://" : str) ++ host ++ shape) accepted_beginnings.
Proof.
  intros [<-|[<-|[]]] [<-|[<-|[]]] [<-|[<-|[<-|[]]]];
    repeat (first [left; reflexivity | right]).
Qed.

Lemma accepted_short (sch www : str) :
  In sch ["http" : str; "https" : str] ->
  In www [[] ; ("www." : str)] ->
  In (sch ++ ("://" : str) ++ www ++ ("youtu.be/" : str)) accepted_beginnings.
Proof.
  intros [<-|[<-|[]]] [<-|[<-|[]]];
    repeat (first [left; reflexivity | right]).
Qed.

(** In front of the domain of a mobile URL the pattern finds nothing to
    start with. *)
Lemma mobile_skipped (sch shape x : str) :
  In sch ["http" : str; "https" : str] ->
  In shape path_shapes ->
  findall youtube_url_pattern
    (sch ++ ("://m." : str) ++ ("youtube.com" : str) ++ shape ++ x)
  = findall youtube_url_pattern (("youtube.com" : str) ++ shape ++ x).
Proof.
  unfold findall.
  intros [<-|[<-|[]]] [<-|[<-|[<-|[]]]];
    cbv [app list_ascii_of_string];
    do 9 (rewrite findall_scan_nomatch by (vm_compute; reflexivity));
    try (rewrite findall_scan_nomatch by (vm_compute; reflexivity));
    reflexivity.
Qed.

Section BotUrls.
Context {lib : Library}.

(** X22. When the stripped message of [bot.py] starts with a URL of one
    of the recognized shapes, with [http] or [https], with or without
    [www.], and the identifier is followed by nothing or by a character that
    cannot be part of an identifier, the handler hands exactly that URL to
    the extractor (what follows the identifier is cut off), and
    [extract_video_id] resolves it to the identifier. *)
Theorem bot_message_resolves (text sch host id tail url : str) :
  In sch ["http" : str; "https" : str] ->
  In host ["youtube.com" : str; "www.youtube.com" : str] ->
  is_video_id id ->
  ends_id tail = true ->
  In url [ sch ++ ("://" : str) ++ host ++ ("/watch?v=" : str) ++ id;
           sch ++ ("://" : str) ++ host ++ ("/embed/" : str) ++ id;
           sch ++ ("://" : str) ++ host ++ ("/v/" : str) ++ id;
           sch ++ ("://youtu.be/" : str) ++ id ] ->
  strip text = url ++ tail ->
  url_of_message text = Some url /\ extract_video_id url = Some id.
Proof.
  intros Hsch Hhost Hid Ht Hurl Htext.
  rewrite url_of_message_head, Htext.
  destruct (web_scheme_ok sch Hsch) as [S1 S2].
  assert (Hh : In host youtube_hosts).
  { destruct Hhost as [<-|[<-|[]]]; [right; left|left]; reflexivity. }
  destruct (youtube_host_ok host Hh) as [H1 H2].
  assert (P : forall shape, In shape path_shapes ->
            List.head (findall youtube_url_pattern
                         ((sch ++ ("://" : str) ++ host ++ shape ++ id) ++ tail))
            = Some (sch ++ ("://" : str) ++ host ++ shape ++ id)).
  { intros shape Hs.
    replace (sch ++ ("://" : str) ++ host ++ shape ++ id)
      with ((sch ++ ("://" : str) ++ host ++ shape) ++ id)
      by (rewrite <- !app_assoc; reflexivity).
    apply first_url; [apply accepted_with_scheme|..]; assumption. }
  destruct Hurl as [<-|[<-|[<-|[<-|[]]]]].
  - split; [apply P; left; reflexivity|].
    apply (extract_watch sch host host id); assumption.
  - split; [apply P; right; left; reflexivity|].
    apply (extract_embed sch host host id); assumption.
  - split; [apply P; right; right; left; reflexivity|].
    apply (extract_v sch host host id); assumption.
  - split; [|apply extract_short; assumption].
    change (sch ++ ("://youtu.be/" : str) ++ id)
      with (sch ++ (("://" : str) ++ [] ++ ("youtu.be/" : str)) ++ id).
    rewrite (app_assoc sch).
    apply first_url; [|assumption..].
    apply (accepted_short sch []); [assumption|left; reflexivity].
Qed.

(** X23. A URL on [m.youtube.com] is a recognized shape of
    [extract_video_id], but the pattern of [bot.py] has no place for the
    [m.] label: from such a message the handler takes the text from
    [youtube.com] on, without the scheme, and [extract_video_id] returns
    [None] for it. *)
Theorem mobile_url_unresolved (text sch shape id tail : str) :
  In sch ["http" : str; "https" : str] ->
  In shape path_shapes ->
  is_video_id id ->
  ends_id tail = true ->
  strip text = (sch ++ ("://m.youtube.com" : str) ++ shape ++ id) ++ tail ->
  url_of_message text = Some (("youtube.com" : str) ++ shape ++ id)
  /\ extract_video_id (("youtube.com" : str) ++ shape ++ id) = None
  /\ extract_video_id (sch ++ ("://m.youtube.com" : str) ++ shape ++ id) = Some id.
Proof.
  intros Hsch Hshape Hid Ht Htext.
  split; [|split].
  - rewrite url_of_message_head, Htext.
    change (sch ++ ("://m.youtube.com" : str) ++ shape ++ id)
      with (sch ++ ("://m." : str) ++ ("youtube.com" : str) ++ shape ++ id).
    rewrite <- !app_assoc.
    rewrite (mobile_skipped sch shape (id ++ tail) Hsch Hshape).
    replace (("youtube.com" : str) ++ shape ++ id ++ tail)
      with (((("youtube.com" : str) ++ shape) ++ id) ++ tail)
      by (rewrite <- !app_assoc; reflexivity).
    rewrite first_url; [rewrite <- app_assoc; reflexivity| |assumption..].
    destruct Hshape as [<-|[<-|[<-|[]]]];
      repeat (first [left; reflexivity | right]).
  - rewrite app_assoc. apply extract_video_id_schemeless; [|exact (proj2 Hid)].
    destruct Hshape as [<-|[<-|[<-|[]]]];
      repeat (first [left; reflexivity | right]).
  - destruct (web_scheme_ok sch Hsch) as [S1 S2].
    change (sch ++ ("://m.youtube.com" : str) ++ shape ++ id)
      with (sch ++ ("://" : str) ++ ("m.youtube.com" : str) ++ shape ++ id).
    destruct Hshape as [<-|[<-|[<-|[]]]].
    + apply (extract_watch sch "m.youtube.com" "m.youtube.com" id);
        try assumption; try reflexivity. right. right. left. reflexivity.
    + apply (extract_embed sch "m.youtube.com" "m.youtube.com" id);
        try assumption; try reflexivity. right. right. left. reflexivity.
    + apply (extract_v sch "m.youtube.com" "m.youtube.com" id);
        try assumption; try reflexivity. right. right. left. reflexivity.
Qed.

End BotUrls.

Section BotShort.
Context {lib : Library}.

(** X24. The pattern of [bot.py] accepts [www.youtu.be] and the handler
    passes the URL on as it is, but [extract_video_id] knows [youtu.be]
    only and returns [None]. *)
Theorem www_short_url_unresolved (text sch id tail : str) :
  In sch ["http" : str; "https" : str] ->
  is_video_id id ->
  ends_id tail = true ->
  strip text = (sch ++ ("://www.youtu.be/" : str) ++ id) ++ tail ->
  url_of_message text = Some (sch ++ ("://www.youtu.be/" : str) ++ id)
  /\ extract_video_id (sch ++ ("://www.youtu.be/" : str) ++ id) = None.
Proof.
  intros Hsch Hid Ht Htext. split.
  - rewrite url_of_message_head, Htext.
    change (sch ++ ("://www.youtu.be/" : str) ++ id)
      with (sch ++ (("://" : str) ++ ("www." : str) ++ ("youtu.be/" : str)) ++ id).
    rewrite (app_assoc sch).
    apply first_url; [|assumption..].
    apply (accepted_short sch "www."); [assumption|right; left; reflexivity].
  - destruct (web_scheme_ok sch Hsch) as [S1 S2].
    pose proof (id_chars_avoid id (proj2 Hid)) as Ha.
    change (sch ++ ("://www.youtu.be/" : str) ++ id)
      with (sch ++ ("://" : str) ++ ("www.youtu.be" : str) ++ (("/" : str) ++ id)).
    rewrite <- (app_nil_r (("/" : str) ++ id)).
    rewrite (extract_wellformed sch "www.youtu.be" "www.youtu.be"
               (("/" : str) ++ id) None); try assumption; try reflexivity.
    rewrite avoids_app. apply andb_true_iff. split; [reflexivity|].
    eapply avoids_weaken; [|exact Ha]. reflexivity.
Qed.

End BotShort.

Lemma bot_message_resolves_witness :
  url_of_message "  https://www.youtube.com/watch?v=dQw4w9WgXcQ&t=42s "
  = Some ("https://www.youtube.com/watch?v=dQw4w9WgXcQ" : str)
  /\ @extract_video_id sample_library "https://www.youtube.com/watch?v=dQw4w9WgXcQ"
     = Some ("dQw4w9WgXcQ" : str).
Proof.
  apply (@bot_message_resolves sample_library
           "  https://www.youtube.com/watch?v=dQw4w9WgXcQ&t=42s "
           "https" "www.youtube.com" "dQw4w9WgXcQ" "&t=42s").
  - right. left. reflexivity.
  - right. left. reflexivity.
  - split; [discriminate | reflexivity].
  - reflexivity.
  - left. reflexivity.
  - reflexivity.
Defined.

Lemma mobile_url_unresolved_witness :
  url_of_message "https://m.youtube.com/watch?v=dQw4w9WgXcQ"
  = Some ("youtube.com/watch?v=dQw4w9WgXcQ" : str)
  /\ @extract_video_id sample_library "youtube.com/watch?v=dQw4w9WgXcQ" = None
  /\ @extract_video_id sample_library "https://m.youtube.com/watch?v=dQw4w9WgXcQ"
     = Some ("dQw4w9WgXcQ" : str).
Proof.
  apply (@mobile_url_unresolved sample_library
           "https://m.youtube.com/watch?v=dQw4w9WgXcQ"
           "https" "/watch?v=" "dQw4w9WgXcQ" []).
  - right. left. reflexivity.
  - left. reflexivity.
  - split; [discriminate | reflexivity].
  - reflexivity.
  - reflexivity.
Defined.

Lemma www_short_url_unresolved_witness :
  url_of_message "http://www.youtu.be/dQw4w9WgXcQ?t=1"
  = Some ("http://www.youtu.be/dQw4w9WgXcQ" : str)
  /\ @extract_video_id sample_library "http://www.youtu.be/dQw4w9WgXcQ" = None.
Proof.
  apply (@www_short_url_unresolved sample_library
           "http://www.youtu.be/dQw4w9WgXcQ?t=1"
           "http" "dQw4w9WgXcQ" "?t=1").
  - left. reflexivity.
  - split; [discriminate | reflexivity].
  - reflexivity.
  - reflexivity.
Defined.

(** ** [process_youtube_url] *)

Section Process.
Context {lib : Library}.

(** X21. For a URL of one of the recognized shapes
    [process_youtube_url] asks the provider about exactly the identifier in
    the URL; a failure is passed on with its message, a description gives
    the links [extract_https_links] finds in it, and an exception of
    [get_video_description] is not caught. *)
Theorem process_youtube_url_end_to_end (provider : str -> execute_outcome)
    (sch host id rest url : str) :
  In sch ["http" : str; "https" : str] ->
  In host youtube_hosts ->
  is_video_id id ->
  is_query_tail rest = true ->
  In url [ sch ++ ("://" : str) ++ host ++ ("/watch?v=" : str) ++ id;
           sch ++ ("://" : str) ++ host ++ ("/watch?v=" : str) ++ id
             ++ ("&" : str) ++ rest;
           sch ++ ("://" : str) ++ host ++ ("/embed/" : str) ++ id;
           sch ++ ("://" : str) ++ host ++ ("/v/" : str) ++ id;
           sch ++ ("://youtu.be/" : str) ++ id;
           sch ++ ("://youtu.be/" : str) ++ id ++ ("?" : str) ++ rest ] ->
  process_youtube_url provider url
  = match get_video_description (provider id) with
    | Returns (true, description) =>
        Returns (inr (extract_https_links description))
    | Returns (false, message) => Returns (inl message)
    | Raises e => Raises e
    end.
Proof.
  intros Hsch Hhost Hid Hrest Hurl.
  destruct (web_scheme_ok sch Hsch) as [S1 S2].
  destruct (youtube_host_ok host Hhost) as [H1 H2].
  assert (E : extract_video_id url = Some id).
  { destruct Hurl as [<-|[<-|[<-|[<-|[<-|[<-|[]]]]]]].
    - apply (extract_watch sch host host id); assumption.
    - apply (extract_watch_more sch host host id rest); assumption.
    - apply (extract_embed sch host host id); assumption.
    - apply (extract_v sch host host id); assumption.
    - apply extract_short; assumption.
    - apply (extract_short_q sch "youtu.be" id (Some rest));
        try assumption; reflexivity. }
  unfold process_youtube_url. rewrite E.
  destruct id as [|c id]; [destruct Hid as [Hne _]; contradiction|].
  destruct (get_video_description (provider (c :: id))) as [[[|] d]|e];
    reflexivity.
Qed.

End Process.

Lemma process_youtube_url_end_to_end_witness :
  @process_youtube_url sample_library
    (fun video_id =>
       if bool_decide (video_id = ("dQw4w9WgXcQ" : str))
       then Response (Some [Some {| title := None;
                                    description := Some ("see https://a.example/x." : str) |}])
       else Response None)
    "https://youtu.be/dQw4w9WgXcQ?t=42"
  = Returns (inr ["https://a.example/x" : str]).
Proof.
  rewrite (@process_youtube_url_end_to_end sample_library _
             "https" "www.youtube.com" "dQw4w9WgXcQ" "t=42").
  - vm_compute. reflexivity.
  - right. left. reflexivity.
  - left. reflexivity.
  - split; [discriminate | reflexivity].
  - reflexivity.
  - do 5 right. left. reflexivity.
Defined.

(** ** telegram_bot_simple.py *)

Lemma strip_token (w : str) :
  forallb (fun c => negb (isspace c)) w = true -> strip w = w.
Proof.
  intros H. unfold strip, rstrip_of.
  assert (L : forall s, forallb (fun c => negb (isspace c)) s = true ->
                        lstrip_of isspace s = s).
  { intros s Hs. apply lstrip_fixed. destruct s as [|c s]; [exact I|].
    cbn [forallb] in Hs. apply andb_true_iff in Hs.
    apply negb_true_iff, Hs. }
  rewrite (L w H), L by (rewrite forallb_rev_eq; exact H).
  apply rev_involutive.
Qed.

Lemma split_scan_ws_words (cur s : str) :
  forallb (fun c => negb (isspace c)) cur = true ->
  Forall (fun w => is_token w /\ forall c, In c w -> In c cur \/ In c s)
    (split_scan_ws cur s).
Proof.
  revert cur. induction s as [|c s IH]; intros cur Hcur.
  - cbn [split_scan_ws]. destruct cur as [|d cur]; [constructor|].
    constructor; [|constructor]. split; [split|].
    + intros E. apply (f_equal (@length ascii)) in E.
      rewrite length_rev in E. discriminate E.
    + rewrite forallb_rev_eq. exact Hcur.
    + intros x Hx. left. apply in_rev. exact Hx.
  - cbn [split_scan_ws]. destruct (isspace c) eqn:E.
    + assert (T : Forall (fun w => is_token w
                      /\ forall x, In x w -> In x cur \/ In x (c :: s))
                    (split_scan_ws [] s)).
      { eapply List.Forall_impl; [|apply (IH [] eq_refl)].
        intros w [Hw Hc]. split; [exact Hw|].
        intros x Hx. destruct (Hc x Hx) as [[]|Hs]. right. right. exact Hs. }
      destruct cur as [|d cur]; [exact T|].
      constructor; [|exact T]. split; [split|].
      * intros N. apply (f_equal (@length ascii)) in N.
        rewrite length_rev in N. discriminate N.
      * rewrite forallb_rev_eq. exact Hcur.
      * intros x Hx. left. apply in_rev. exact Hx.
    + eapply List.Forall_impl; [|apply (IH (c :: cur))].
      * intros w [Hw Hc]. split; [exact Hw|].
        intros x Hx. destruct (Hc x Hx) as [[<-|Hin]|Hs].
        -- right. left. reflexivity.
        -- left. exact Hin.
        -- right. right. exact Hs.
      * cbn [forallb]. rewrite E. exact Hcur.
Qed.

(** The words of a lower-cased text are tokens in lower case. *)
Lemma split_ws_lower (args : str) :
  Forall (fun w => is_token w /\ lower w = w) (split_ws (lower args)).
Proof.
  eapply List.Forall_impl; [|apply (split_scan_ws_words [] (lower args) eq_refl)].
  intros w [Hw Hc]. split; [exact Hw|].
  assert (F : forall x, In x w -> lower_char x = x).
  { intros x Hx. destruct (Hc x Hx) as [[]|Hin].
    apply in_map_iff in Hin. destruct Hin as (y & <- & _).
    apply lower_char_idem. }
  clear Hc Hw. induction w as [|x w IH]; [reflexivity|].
  cbn [lower map]. rewrite (F x) by (left; reflexivity).
  f_equal. apply IH. intros y Hy. apply F. right. exact Hy.
Qed.

(** A text that is not blank has a word. *)
Lemma split_scan_ws_nonempty (cur s : str) :
  cur <> [] \/ forallb isspace s = false -> split_scan_ws cur s <> [].
Proof.
  revert cur. induction s as [|c s IH]; intros cur H.
  - cbn [split_scan_ws]. destruct cur as [|d cur]; [|discriminate].
    destruct H as [H|H]; [contradiction | discriminate H].
  - cbn [split_scan_ws]. destruct (isspace c) eqn:E.
    + destruct cur as [|d cur]; [|discriminate].
      apply IH. destruct H as [H|H]; [contradiction|].
      right. cbn [forallb] in H. rewrite E in H. exact H.
    + apply IH. left. discriminate.
Qed.

Lemma normalized_tokens (ws : list str) :
  Forall (fun w => is_token w /\ lower w = w) ws -> normalized_words ws = ws.
Proof.
  induction 1 as [|w ws [[Hne Hsp] Hl] _ IH]; [reflexivity|].
  unfold normalized_words in *. cbn [List.filter].
  rewrite (strip_token w Hsp).
  rewrite (bool_decide_eq_false_2 _ Hne). cbn [negb map].
  rewrite IH. unfold normalize. rewrite Hl, (strip_token w Hsp). reflexivity.
Qed.

Lemma strip_not_blank (s : str) : strip s <> [] -> forallb isspace s = false.
Proof.
  intros H. destruct (forallb isspace s) eqn:E; [|reflexivity].
  exfalso. apply H. unfold strip. rewrite (lstrip_all isspace s E). reflexivity.
Qed.

Section Simple.
Context {lib : Library}.

(** X25. In [telegram_bot_simple.py] a message [/filter] followed by text
    that is not blank sets the user's filters to the words of that text,
    lower-cased, in their order; these are the words the reply names, there
    is at least one, each is non-empty and in normal form, and no other
    user's filters change. *)
Theorem filter_message_sets_words (default_words : list str)
    (calls : list call) (provider : str -> execute_outcome)
    (u : Z) (rest : str) :
  strip rest <> [] ->
  let st := run calls (init default_words) in
  let words := split_ws (lower (strip rest)) in
  let result := handle_message provider u (("/filter" : str) ++ rest) st in
  fst result = [FilterUpdated words]
  /\ filters_of (snd result) u = words
  /\ words <> []
  /\ Forall is_normal words
  /\ forall v, v <> u -> filters_of (snd result) v = filters_of st v.
Proof.
  intros Hne st words result.
  assert (Hwf : wf default_words st) by apply wf_run.
  assert (R : result = ([FilterUpdated words],
                        snd (set_user_filters u words st))).
  { subst result. unfold handle_message.
    change (startswith "/start" (("/filter" : str) ++ rest)) with false.
    cbv iota. rewrite startswith_app.
    change (skipn 7 (("/filter" : str) ++ rest)) with rest.
    unfold handle_filter_command.
    destruct (strip rest) as [|c s] eqn:E; [contradiction|].
    reflexivity. }
  assert (T : Forall (fun w => is_token w /\ lower w = w) words)
    by apply split_ws_lower.
  assert (Hwf' : wf default_words (snd (set_user_filters u words st)))
    by apply (wf_exec _ (SetFilters u words)), Hwf.
  rewrite R. cbn [fst snd]. split; [reflexivity|]. split; [|split; [|split]].
  - rewrite (filters_of_stored default_words _ u Hwf').
    rewrite set_user_filters_state, stored_assign_same.
    apply normalized_tokens, T.
  - apply split_scan_ws_nonempty. right.
    apply strip_not_blank. rewrite <- lower_strip, strip_idem.
    intros N. apply (proj1 (lower_nil _)) in N. exact (Hne N).
  - rewrite <- (normalized_tokens words T). apply normalized_words_normal.
  - intros v Hv.
    rewrite (filters_of_stored default_words _ v Hwf').
    rewrite (filters_of_stored default_words st v Hwf).
    rewrite set_user_filters_state.
    apply (stored_assign_other default_words); [exact Hwf|exact Hv|].
    left. apply fresh_unused.
Qed.

End Simple.

Section SimpleMore.
Context {lib : Library}.

Lemma handle_youtube_url_state (provider : str -> execute_outcome)
    (u : Z) (url : str) (st : state) :
  snd (handle_youtube_url provider u url st) = st
  \/ snd (handle_youtube_url provider u url st) = with_copy st.
Proof.
  unfold handle_youtube_url.
  destruct (process_youtube_url provider url) as [[m|[|l links]]|e];
    [left; reflexivity | left; reflexivity | | left; reflexivity].
  right. unfold bind.
  pose proof (filter_links_state u (l :: links) st) as S.
  destruct (filter_links u (l :: links) st) as [[kept n] st'].
  cbn [snd] in S. subst st'. destruct kept; reflexivity.
Qed.

(** X26. In [telegram_bot_simple.py] only a message that starts with
    [/filter] and carries words changes filters: a message that starts with
    [/start], one that does not start with [/filter] (so [/addfilter],
    [/removefilter] and [/clearfilter] too), and [/filter] on its own leave
    the filters of every user as they were. *)
Theorem other_messages_keep_filters (default_words : list str)
    (calls : list call) (provider : str -> execute_outcome)
    (u v : Z) (text : str) :
  startswith "/start" text = true
  \/ startswith "/filter" text = false
  \/ strip (skipn 7 text) = [] ->
  let st := run calls (init default_words) in
  filters_of (snd (handle_message provider u text st)) v = filters_of st v.
Proof.
  intros H st.
  assert (Hwf : wf default_words st) by apply wf_run.
  assert (S : snd (handle_message provider u text st) = st
              \/ snd (handle_message provider u text st) = with_copy st).
  { unfold handle_message.
    destruct (startswith "/start" text) eqn:E1; [left; reflexivity|].
    destruct (startswith "/filter" text) eqn:E2.
    - destruct H as [H|[H|H]]; [discriminate H | discriminate H |].
      rewrite H. left. reflexivity.
    - destruct (contains "youtube.com" text || contains "youtu.be" text);
        [apply handle_youtube_url_state | left; reflexivity]. }
  destruct S as [-> | ->]; [reflexivity|].
  rewrite (filters_of_stored default_words _ v (wf_with_copy _ _ Hwf)).
  rewrite (filters_of_stored default_words st v Hwf).
  apply (stored_with_copy default_words), Hwf.
Qed.

(** X27. [telegram_bot_simple.py] hands the whole stripped message to
    [process_youtube_url]. For a message that mentions a video domain and
    is no [/start] or [/filter] command, whose stripped text does not begin
    with a control character and holds no tab, carriage return or line
    feed: when a character that cannot be part of a scheme and is no colon
    comes before the first slash (words before the URL), the handler sends
    the processing notice and the invalid-format error, and the state stays
    as it was. *)
Theorem simple_bot_needs_bare_url (provider : str -> execute_outcome)
    (u : Z) (text pre rest : str) (w : ascii) (st : state) :
  startswith "/start" text = false ->
  startswith "/filter" text = false ->
  contains "youtube.com" text || contains "youtu.be" text = true ->
  strip text = pre ++ w :: rest ->
  lstrip_of is_c0_or_space (pre ++ w :: rest) = pre ++ w :: rest ->
  avoids unsafe_chars (pre ++ w :: rest) = true ->
  has_char "/" pre = false ->
  is_scheme_char w = false ->
  has_char w ":/" = false ->
  handle_message provider u text st
  = ([Processing; Error msg_invalid_format], st).
Proof.
  intros E1 E2 E3 Ht Hl Ha Hpre Hw Hw2.
  unfold handle_message. rewrite E1, E2, E3, Ht.
  unfold handle_youtube_url.
  unfold process_youtube_url.
  rewrite (extract_text_before pre rest w Hl Ha Hpre Hw Hw2).
  reflexivity.
Qed.

End SimpleMore.

(** ** bot.py: the command [/addfilter] *)

(** X28. The reply of [addfilter_command] of [bot.py] agrees with what
    happened: the usage reply comes only for no arguments and leaves the
    state alone; the already-listed reply comes only when the lower-cased
    keyword is among the user's filters, which stay as they were; after the
    added reply the keyword was not among them and, unless it is empty, the
    filters are the earlier ones with the lower-cased keyword appended. *)
Theorem addfilter_reply_is_true (default_words : list str)
    (calls : list call) (u : Z) (args : list str) :
  let st := run calls (init default_words) in
  let result := addfilter_command u args st in
  match fst result with
  | AddUsage =>
      args = [] /\ snd result = st
  | AlreadyListed keyword =>
      keyword = strip (join " " args)
      /\ In (lower keyword) (filters_of st u)
      /\ filters_of (snd result) u = filters_of st u
  | Added keyword =>
      keyword = strip (join " " args)
      /\ ~ In (lower keyword) (filters_of st u)
      /\ filters_of (snd result) u
         = if bool_decide (keyword = []) then filters_of st u
           else filters_of st u ++ [lower keyword]
  end.
Proof.
  intros st result.
  assert (Hwf : wf default_words st) by apply wf_run.
  pose proof (wf_with_copy _ _ Hwf) as Hwc.
  subst result.
  destruct args as [|a args]; [split; reflexivity|].
  set (keyword := strip (join " " (a :: args))).
  assert (N : normalize keyword = lower keyword).
  { unfold normalize, keyword. rewrite <- lower_strip, strip_idem. reflexivity. }
  assert (R : addfilter_command u (a :: args) st
              = if bool_decide (lower keyword ∈ stored st u)
                then (AlreadyListed keyword, with_copy st)
                else (Added keyword,
                      snd (add_filter_word u keyword (with_copy st)))).
  { unfold addfilter_command. fold keyword.
    unfold bind at 1. rewrite get_user_filters_eq.
    unfold bind at 1, read at 1.
    rewrite (current_content default_words st u Hwf).
    destruct (bool_decide (lower keyword ∈ stored st u)); [reflexivity|].
    unfold bind, ret.
    destruct (add_filter_word u keyword (with_copy st)) as [[] st']. reflexivity. }
  rewrite R. rewrite (filters_of_stored default_words st u Hwf).
  destruct (bool_decide (lower keyword ∈ stored st u)) eqn:E; cbn [fst snd].
  - apply bool_decide_eq_true in E.
    split; [reflexivity|]. split; [apply list_elem_of_In, E|].
    rewrite (filters_of_stored default_words _ u Hwc).
    apply (stored_with_copy default_words), Hwf.
  - apply bool_decide_eq_false in E. split; [reflexivity|].
    split; [intros H; apply E, list_elem_of_In, H|].
    assert (Hwf' : wf default_words (snd (add_filter_word u keyword (with_copy st))))
      by apply (wf_exec _ (AddFilter u keyword)), Hwc.
    rewrite (filters_of_stored default_words _ u Hwf').
    rewrite (stored_after_add default_words u keyword _ Hwc), N.
    rewrite (stored_with_copy default_words st u Hwf).
    rewrite (bool_decide_eq_false_2 (lower keyword ∈ stored st u) E).
    rewrite andb_true_r.
    destruct (bool_decide (keyword = [])) eqn:K.
    + apply bool_decide_eq_true in K. rewrite K. reflexivity.
    + apply bool_decide_eq_false in K.
      rewrite bool_decide_eq_false_2; [reflexivity|].
      intros L. apply K, lower_nil, L.
Qed.

Lemma filter_message_sets_words_witness :
  let result :=
    @handle_message sample_library (fun _ => Response None) 5
      "/filter  Spam  T.ME " (init ["whatsapp.com" : str]) in
  fst result = [FilterUpdated ["spam" : str; "t.me" : str]]
  /\ filters_of (snd result) 5 = ["spam" : str; "t.me" : str].
Proof.
  intros result.
  destruct (@filter_message_sets_words sample_library ["whatsapp.com" : str] []
              (fun _ => Response None) 5 "  Spam  T.ME ") as (H1 & H2 & _).
  - vm_compute. discriminate.
  - split.
    + exact H1.
    + exact H2.
Defined.

Lemma other_messages_keep_filters_witness :
  filters_of
    (snd (@handle_message sample_library (fun _ => Response None) 5
            "/clearfilter" (init ["whatsapp.com" : str]))) 5
  = ["whatsapp.com" : str].
Proof.
  apply (@other_messages_keep_filters sample_library ["whatsapp.com" : str] []
           (fun _ => Response None) 5 5 "/clearfilter").
  right. left. reflexivity.
Defined.

Lemma simple_bot_needs_bare_url_witness :
  @handle_message sample_library (fun _ => Response None) 5
    "Watch https://youtu.be/dQw4w9WgXcQ" (init [])
  = ([Processing; Error msg_invalid_format], init []).
Proof.
  apply (@simple_bot_needs_bare_url sample_library (fun _ => Response None) 5
           "Watch https://youtu.be/dQw4w9WgXcQ" "Watch"
           "https://youtu.be/dQw4w9WgXcQ" " ").
  - reflexivity.
  - reflexivity.
  - reflexivity.
  - reflexivity.
  - reflexivity.
  - reflexivity.
  - reflexivity.
  - reflexivity.
  - reflexivity.
Defined.

(** ** Link scanning on text of any code points *)

Lemma drop_run_split {A : Type} (p : A -> bool) (s : list A) :
  exists run, s = run ++ drop_run p s /\ forallb p run = true
    /\ match drop_run p s with [] => True | d :: _ => p d = false end.
Proof.
  induction s as [|c s (run & Hs & Hp & He)]; [exists []; simpl; auto|].
  simpl. destruct (p c) eqn:E.
  - exists (c :: run). simpl. rewrite E, Hp. rewrite <- Hs. auto.
  - exists []. simpl. auto.
Qed.

Lemma drop_run_app_all {A : Type} (p : A -> bool) (x y : list A) :
  drop_run p (x ++ y)
  = if forallb p x then drop_run p y else drop_run p x ++ y.
Proof.
  induction x as [|c x IH]; [reflexivity|]. simpl.
  destruct (p c); [exact IH | reflexivity].
Qed.

Lemma drop_run_all {A : Type} (p : A -> bool) (x : list A) :
  forallb p x = true -> drop_run p x = [].
Proof.
  induction x as [|c x IH]; [reflexivity|]. simpl. intros H.
  apply andb_true_iff in H. destruct H as [-> H]. auto.
Qed.

Lemma drop_run_head {A : Type} (p : A -> bool) (s : list A) :
  match drop_run p s with [] => True | c :: _ => p c = false end.
Proof.
  induction s as [|c s IH]; [exact I|]. simpl.
  destruct (p c) eqn:E; [exact IH | exact E].
Qed.

Lemma drop_run_end_cons {A : Type} (p : A -> bool) (c : A) (s : list A) :
  drop_run_end p (c :: s)
  = if forallb p (c :: s) then [] else c :: drop_run_end p s.
Proof.
  unfold drop_run_end. simpl rev. rewrite drop_run_app_all, forallb_rev_eq.
  simpl forallb. destruct (forallb p s) eqn:E.
  - rewrite andb_true_r. simpl. destruct (p c); [reflexivity|].
    rewrite (drop_run_all p (rev s)) by (rewrite forallb_rev_eq; exact E).
    reflexivity.
  - rewrite andb_false_r, rev_app_distr. reflexivity.
Qed.

Lemma drop_run_end_run {A : Type} (p : A -> bool) (core run : list A) :
  forallb p run = true ->
  (forall front c, core = front ++ [c] -> p c = false) ->
  drop_run_end p (core ++ run) = core.
Proof.
  intros Hrun Hcore. unfold drop_run_end.
  rewrite rev_app_distr, drop_run_app_all, forallb_rev_eq, Hrun.
  destruct (rev core) as [|c t] eqn:E.
  - apply (f_equal (@rev A)) in E. rewrite rev_involutive in E. subst core.
    reflexivity.
  - simpl. rewrite (Hcore (rev t) c).
    + rewrite <- E. apply rev_involutive.
    + apply (f_equal (@rev A)) in E. rewrite rev_involutive in E. exact E.
Qed.

Lemma drop_run_end_behind {A : Type} (p : A -> bool) (a : list A) (c : A)
    (b : list A) :
  p c = false ->
  drop_run_end p ((a ++ [c]) ++ b) = (a ++ [c]) ++ drop_run_end p b.
Proof.
  intros Hc. unfold drop_run_end. rewrite rev_app_distr, drop_run_app_all.
  assert (E : drop_run p (rev (a ++ [c])) = rev (a ++ [c])).
  { rewrite rev_app_distr. simpl. rewrite Hc. reflexivity. }
  destruct (forallb p (rev b)) eqn:F.
  - rewrite E, (drop_run_all p (rev b) F), rev_involutive. simpl.
    rewrite app_nil_r. reflexivity.
  - rewrite rev_app_distr, rev_involutive. reflexivity.
Qed.

Lemma drop_run_end_prefix {A : Type} (p : A -> bool) (s : list A) :
  exists run, s = drop_run_end p s ++ run /\ forallb p run = true.
Proof.
  unfold drop_run_end.
  destruct (drop_run_split p (rev s)) as (run & Hs & Hp & _).
  exists (rev run). split.
  - rewrite <- rev_app_distr, <- Hs, rev_involutive. reflexivity.
  - rewrite forallb_rev_eq. exact Hp.
Qed.

Lemma drop_run_end_ends {A : Type} (p : A -> bool) (s front : list A) (c : A) :
  drop_run_end p s = front ++ [c] -> p c = false.
Proof.
  unfold drop_run_end. intros H. apply (f_equal (@rev A)) in H.
  rewrite rev_involutive, rev_app_distr in H. simpl in H.
  pose proof (drop_run_head p (rev s)) as Hh. rewrite H in Hh. exact Hh.
Qed.

(** *** The matcher *)

Lemma wide_star_k_greedy (p : N -> bool) (s : list N) :
  Wide.star_k p s Some = Some (drop_run p s).
Proof.
  induction s as [|c s IH]; [reflexivity|]. simpl.
  destruct (p c); [rewrite IH|]; reflexivity.
Qed.

Lemma wide_match_seq_of (sets : list (list N)) (s : list N)
    (k : list N -> option (list N)) :
  Wide.match_k (Wide.seq_of sets) s k
  = if starts_with_sets sets s then k (skipn (length sets) s) else None.
Proof.
  revert s. induction sets as [|a sets IH]; intros s; [reflexivity|].
  destruct sets as [|a' sets].
  - destruct s as [|c s]; [reflexivity|]. simpl.
    rewrite andb_true_r. destruct (existsb _ _); reflexivity.
  - change (Wide.seq_of (a :: a' :: sets))
      with (Wide.Seq (Wide.any_of a) (Wide.seq_of (a' :: sets))).
    destruct s as [|c s]; [reflexivity|].
    change (Wide.match_k (Wide.Seq (Wide.any_of a) (Wide.seq_of (a' :: sets)))
              (c :: s) k)
      with (if existsb (N.eqb c) a
            then Wide.match_k (Wide.seq_of (a' :: sets)) s k else None).
    rewrite IH.
    change (starts_with_sets (a :: a' :: sets) (c :: s))
      with (existsb (N.eqb c) a && starts_with_sets (a' :: sets) s).
    destruct (existsb _ _); reflexivity.
Qed.

Lemma in_set (x : N) (set : list N) : existsb (N.eqb x) set = true <-> In x set.
Proof.
  rewrite existsb_exists. split.
  - intros (y & Hy & E). apply N.eqb_eq in E. subst y. exact Hy.
  - intros H. exists x. split; [exact H | apply N.eqb_refl].
Qed.

Lemma starts_with_sets_spec (sets : list (list N)) (s : list N) :
  starts_with_sets sets s = true <->
  exists pfx rest, s = pfx ++ rest /\ Forall2 (fun x set => In x set) pfx sets.
Proof.
  revert s. induction sets as [|a sets IH]; intros s; simpl.
  - split; [intros _; exists [], s; split; [reflexivity | constructor]
           | reflexivity].
  - destruct s as [|b s].
    + split; [discriminate|]. intros (pfx & rest & H & Hl).
      inversion Hl; subst. discriminate H.
    + rewrite andb_true_iff, in_set, IH. split.
      * intros [Hb (pfx & rest & -> & Hl)]. exists (b :: pfx), rest.
        split; [reflexivity | constructor; assumption].
      * intros (pfx & rest & H & Hl). inversion Hl as [|x y l l' Hx Hl']; subst.
        simpl in H. injection H as -> ->.
        split; [exact Hx|]. exists l, rest. auto.
Qed.

Lemma wide_findall_scan_skip (r : Wide.regex) (xs tail : list N) :
  Wide.findall_scan r (length xs) (xs ++ tail) = Wide.findall_scan r 0 tail.
Proof. induction xs as [|x xs IH]; [reflexivity | exact IH]. Qed.

Lemma wide_findall_scan_match (r : Wide.regex) (m rest : list N) :
  m <> [] -> Wide.match_at r (m ++ rest) = Some rest ->
  Wide.findall_scan r 0 (m ++ rest) = m :: Wide.findall_scan r 0 rest.
Proof.
  intros Hm H. destruct m as [|c m]; [contradiction|].
  change (Wide.findall_scan r 0 ((c :: m) ++ rest))
    with (match Wide.match_at r ((c :: m) ++ rest) with
          | Some rest' =>
              firstn (length ((c :: m) ++ rest) - length rest') ((c :: m) ++ rest)
              :: Wide.findall_scan r
                   (length ((c :: m) ++ rest) - length rest' - 1) (m ++ rest)
          | None => Wide.findall_scan r 0 (m ++ rest)
          end).
  rewrite H.
  assert (E : length ((c :: m) ++ rest) - length rest = S (length m)).
  { rewrite length_app. simpl. lia. }
  rewrite E. f_equal.
  - apply (take_app_length (c :: m) rest).
  - replace (S (length m) - 1) with (length m) by lia.
    apply wide_findall_scan_skip.
Qed.

Lemma wide_findall_scan_nomatch (r : Wide.regex) (c : N) (s : list N) :
  Wide.match_at r (c :: s) = None ->
  Wide.findall_scan r 0 (c :: s) = Wide.findall_scan r 0 s.
Proof.
  intros H.
  change (Wide.findall_scan r 0 (c :: s))
    with (match Wide.match_at r (c :: s) with
          | Some rest' =>
              firstn (length (c :: s) - length rest') (c :: s)
              :: Wide.findall_scan r (length (c :: s) - length rest' - 1) s
          | None => Wide.findall_scan r 0 s
          end).
  rewrite H. reflexivity.
Qed.

(** *** The scan for links *)

Lemma wide_https_match_at (s : list N) :
  Wide.match_at Wide.https_pattern s
  = if starts_with_sets Wide.https_prefix s then
      match skipn 8 s with
      | c :: s' =>
          if Wide.is_link_char c then Some (drop_run Wide.is_link_char s')
          else None
      | [] => None
      end
    else None.
Proof.
  unfold Wide.match_at, Wide.https_pattern.
  change (Wide.match_k (Wide.Seq (Wide.seq_of Wide.https_prefix)
                          (Wide.Plus Wide.is_link_char)) s Some)
    with (Wide.match_k (Wide.seq_of Wide.https_prefix) s
            (fun s' => Wide.match_k (Wide.Plus Wide.is_link_char) s' Some)).
  rewrite wide_match_seq_of. destruct (starts_with_sets _ s); [|reflexivity].
  change (length Wide.https_prefix) with 8.
  destruct (skipn 8 s) as [|c s']; [reflexivity|]. simpl.
  destruct (Wide.is_link_char c); [apply wide_star_k_greedy | reflexivity].
Qed.

Lemma https_prefix_length8 (pfx : list N) :
  is_https_prefix pfx -> length pfx = 8.
Proof. intros H. apply Forall2_length in H. exact H. Qed.

Lemma wide_https_match_some (s rest : list N) :
  Wide.match_at Wide.https_pattern s = Some rest ->
  exists pfx body,
    s = pfx ++ body ++ rest /\ is_https_prefix pfx /\ body <> []
    /\ forallb Wide.is_link_char body = true /\ wide_run_ends rest.
Proof.
  rewrite wide_https_match_at.
  destruct (starts_with_sets _ s) eqn:E; [|discriminate].
  apply starts_with_sets_spec in E. destruct E as (pfx & tl & -> & Hl).
  rewrite <- (https_prefix_length8 pfx Hl), drop_app_length.
  destruct tl as [|c s']; [discriminate|].
  destruct (Wide.is_link_char c) eqn:Ec; [|discriminate]. intros [= <-].
  destruct (drop_run_split Wide.is_link_char s') as (run & Hs & Hp & He).
  exists pfx, (c :: run). repeat split; try assumption.
  - simpl. rewrite <- Hs. reflexivity.
  - discriminate.
  - simpl. rewrite Ec, Hp. reflexivity.
Qed.

Lemma wide_https_match_none (s : list N) :
  Wide.match_at Wide.https_pattern s = None -> ~ wide_starts_link s.
Proof.
  rewrite wide_https_match_at. intros H (pfx & c & rest & -> & Hl & Hc).
  rewrite (proj2 (starts_with_sets_spec _ _)) in H
    by (exists pfx, (c :: rest); auto).
  rewrite <- (https_prefix_length8 pfx Hl), drop_app_length in H.
  rewrite Hc in H. discriminate.
Qed.

(** [findall] with [https_pattern] is the scan of the specification. *)
Lemma wide_findall_is_scan (text : list N) :
  WideScan text (Wide.findall Wide.https_pattern text).
Proof.
  unfold Wide.findall.
  remember (length text) as n eqn:Hn.
  assert (Hle : length text <= n) by lia. clear Hn.
  revert text Hle. induction n as [|n IH]; intros text Hle.
  - destruct text; [|simpl in Hle; lia]. apply wide_scan_end.
  - destruct text as [|c s]; [apply wide_scan_end|].
    destruct (Wide.match_at Wide.https_pattern (c :: s)) as [rest|] eqn:E.
    + destruct (wide_https_match_some _ _ E)
        as (pfx & body & Hs & Hl & Hb & Hp & He).
      rewrite Hs in *. rewrite app_assoc in E |- *.
      rewrite wide_findall_scan_match; [| |exact E].
      * rewrite <- app_assoc. apply wide_scan_link; try assumption.
        apply IH. pose proof (https_prefix_length8 pfx Hl).
        rewrite !length_app in Hle. simpl in Hle. lia.
      * pose proof (https_prefix_length8 pfx Hl).
        destruct pfx; [discriminate | discriminate].
    + rewrite wide_findall_scan_nomatch by exact E.
      apply wide_scan_skip; [apply wide_https_match_none; exact E|].
      apply IH. simpl in Hle. lia.
Qed.

(** *** Single characters *)

Lemma wide_link_char_not_newline (c : N) :
  Wide.is_link_char c = true -> (c =? 10)%N = false.
Proof.
  intros H. destruct (N.eqb_spec c 10) as [->|]; [discriminate H | reflexivity].
Qed.

Lemma wide_punct_not_newline (c : N) :
  Wide.is_trailing_punct c = true -> (c =? 10)%N = false.
Proof.
  intros H. destruct (N.eqb_spec c 10) as [->|]; [discriminate H | reflexivity].
Qed.

(** No character the prefix takes is trailing punctuation, but the colon;
    all of them are link characters. *)
Lemma prefix_sets_link_chars :
  forallb (forallb Wide.is_link_char) Wide.https_prefix = true.
Proof. reflexivity. Qed.

Lemma wide_prefix_link_chars (pfx : list N) :
  is_https_prefix pfx -> forallb Wide.is_link_char pfx = true.
Proof.
  unfold is_https_prefix. pose proof prefix_sets_link_chars as F.
  revert F. generalize Wide.https_prefix. intros sets F H.
  induction H as [|x set pfx sets' Hx H IH]; [reflexivity|].
  cbn [forallb] in F |- *. apply andb_true_iff in F. destruct F as [F1 F2].
  rewrite forallb_forall in F1. rewrite (F1 x Hx). exact (IH F2).
Qed.

Lemma wide_prefix_ends (pfx : list N) :
  is_https_prefix pfx ->
  exists c0 mid c, pfx = c0 :: mid ++ [c]
    /\ Wide.is_trailing_punct c0 = false /\ Wide.is_trailing_punct c = false.
Proof.
  intros H.
  destruct pfx as [|c1 [|c2 [|c3 [|c4 [|c5 [|c6 [|c7 [|c8 [|c9 pfx]]]]]]]]];
    try (apply Forall2_length in H; discriminate H).
  exists c1, [c2; c3; c4; c5; c6; c7], c8. split; [reflexivity|].
  unfold is_https_prefix in H.
  repeat match goal with
         | H : Forall2 _ (_ :: _) _ |- _ => inversion H; subst; clear H
         end.
  split.
  - match goal with H : In c1 _ |- _ => destruct H as [<-|[<-|[]]] end; reflexivity.
  - match goal with H : In c8 _ |- _ => destruct H as [<-|[]] end; reflexivity.
Qed.

(** *** The trailing punctuation *)

Lemma wide_star_then_eos (s : list N) :
  existsb (N.eqb 10) s = false ->
  Wide.star_k Wide.is_trailing_punct s (fun s' => Wide.match_k Wide.Eos s' Some)
  = if forallb Wide.is_trailing_punct s then Some [] else None.
Proof.
  induction s as [|c s IH]; intros Hn; [reflexivity|].
  cbn [existsb] in Hn. apply orb_false_iff in Hn. destruct Hn as [Hc Hn].
  cbn [Wide.star_k forallb]. rewrite (IH Hn).
  assert (Hk : Wide.match_k Wide.Eos (c :: s) Some = None).
  { destruct s as [|d s]; [|reflexivity].
    cbn [Wide.match_k]. rewrite N.eqb_sym, Hc. reflexivity. }
  rewrite Hk.
  destruct (Wide.is_trailing_punct c); [|reflexivity].
  destruct (forallb Wide.is_trailing_punct s); reflexivity.
Qed.

Lemma wide_trailing_match_at (s : list N) :
  existsb (N.eqb 10) s = false ->
  Wide.match_at Wide.trailing_pattern s
  = match s with
    | [] => None
    | _ => if forallb Wide.is_trailing_punct s then Some [] else None
    end.
Proof.
  intros Hn. destruct s as [|c s]; [reflexivity|].
  unfold Wide.match_at, Wide.trailing_pattern.
  change (Wide.match_k (Wide.Seq (Wide.Plus Wide.is_trailing_punct) Wide.Eos)
            (c :: s) Some)
    with (if Wide.is_trailing_punct c
          then Wide.star_k Wide.is_trailing_punct s
                 (fun s' => Wide.match_k Wide.Eos s' Some)
          else None).
  cbn [existsb] in Hn. apply orb_false_iff in Hn. destruct Hn as [_ Hn].
  rewrite (wide_star_then_eos s Hn). cbn [forallb].
  destruct (Wide.is_trailing_punct c); reflexivity.
Qed.

Lemma wide_sub_scan_skip_all (r : Wide.regex) (s : list N) :
  Wide.sub_scan r (length s) s = [].
Proof.
  induction s as [|c s IH]; [|exact IH].
  simpl. destruct (Wide.match_at r []); reflexivity.
Qed.

(** On a text without a line feed, the substitution with [trailing_pattern]
    removes the run of trailing punctuation. *)
Lemma wide_sub_trailing (s : list N) :
  existsb (N.eqb 10) s = false ->
  Wide.sub_empty Wide.trailing_pattern s = drop_run_end Wide.is_trailing_punct s.
Proof.
  unfold Wide.sub_empty. induction s as [|c s IH]; intros Hn; [reflexivity|].
  rewrite drop_run_end_cons.
  change (Wide.sub_scan Wide.trailing_pattern 0 (c :: s))
    with (match Wide.match_at Wide.trailing_pattern (c :: s) with
          | Some rest =>
              if length (c :: s) - length rest =? 0
              then c :: Wide.sub_scan Wide.trailing_pattern 0 s
              else Wide.sub_scan Wide.trailing_pattern
                     (length (c :: s) - length rest - 1) s
          | None => c :: Wide.sub_scan Wide.trailing_pattern 0 s
          end).
  rewrite (wide_trailing_match_at (c :: s) Hn).
  destruct (forallb Wide.is_trailing_punct (c :: s)).
  - simpl. rewrite Nat.sub_0_r. apply wide_sub_scan_skip_all.
  - f_equal. apply IH. cbn [existsb] in Hn.
    apply orb_false_iff in Hn. tauto.
Qed.

Lemma wide_link_chars_no_newline (s : list N) :
  forallb Wide.is_link_char s = true -> existsb (N.eqb 10) s = false.
Proof.
  induction s as [|c s IH]; [reflexivity|]. cbn [forallb existsb].
  intros H. apply andb_true_iff in H. destruct H as [Hc Hs].
  rewrite N.eqb_sym, (wide_link_char_not_newline c Hc), (IH Hs). reflexivity.
Qed.

Lemma wide_run_unique (a a' tail tail' : list N) :
  forallb Wide.is_link_char a = true -> forallb Wide.is_link_char a' = true ->
  wide_run_ends tail -> wide_run_ends tail' ->
  a ++ tail = a' ++ tail' -> a = a' /\ tail = tail'.
Proof.
  revert a'. induction a as [|x a IH]; intros a' Ha Ha' Ht Ht' E.
  - destruct a' as [|y a']; [auto|]. simpl in *. subst tail.
    apply andb_true_iff in Ha'. simpl in Ht. destruct Ha'. congruence.
  - destruct a' as [|y a']; simpl in *.
    + subst tail'. apply andb_true_iff in Ha. simpl in Ht'. destruct Ha. congruence.
    + injection E as <- E. apply andb_true_iff in Ha, Ha'.
      destruct (IH a') as [-> ->]; tauto.
Qed.

(** The scan of the specification has one result. *)
Lemma wide_scan_functional (text : list N) (ls ls' : list (list N)) :
  WideScan text ls -> WideScan text ls' -> ls = ls'.
Proof.
  intros H. revert ls'.
  induction H as [|c s ls Hn Hs IH|pfx body tail ls Hl Hb Hp He Hs IH];
    intros ls' H'.
  - inversion H' as [| |pfx body tail ls0 Hl Hb Hp He Hs E]; [reflexivity|].
    pose proof (https_prefix_length8 pfx Hl).
    destruct pfx; [discriminate | discriminate E].
  - inversion H' as [|c0 s0 ls0 Hn0 Hs0|pfx body tail ls0 Hl Hb Hp He Hs0 E]; subst.
    + apply IH. exact Hs0.
    + exfalso. apply Hn. rewrite <- E.
      destruct body as [|b body]; [contradiction|].
      exists pfx, b, (body ++ tail). simpl in Hp.
      apply andb_true_iff in Hp. tauto.
  - assert (Hstart : wide_starts_link (pfx ++ body ++ tail)).
    { destruct body as [|b body]; [contradiction|].
      exists pfx, b, (body ++ tail). simpl in Hp.
      apply andb_true_iff in Hp. tauto. }
    inversion H' as [E|c0 s0 ls0 Hn0 Hs0 E|pfx' body' tail' ls0 Hl' Hb' Hp' He' Hs0 E].
    + pose proof (https_prefix_length8 pfx Hl).
      destruct pfx; [discriminate | discriminate E].
    + exfalso. apply Hn0. rewrite E. exact Hstart.
    + assert (Hpfx : pfx' = pfx /\ body' ++ tail' = body ++ tail).
      { apply app_inj_1; [|exact E].
        rewrite (https_prefix_length8 pfx Hl), (https_prefix_length8 pfx' Hl').
        reflexivity. }
      destruct Hpfx as [-> E'].
      destruct (wide_run_unique body' body tail' tail Hp' Hp He' He E') as [-> ->].
      f_equal. apply IH. exact Hs0.
Qed.

Lemma wide_fold_clean_step (links : list (list N)) (acc : list (list N)) :
  fold_left Wide.clean_step links acc
  = fold_left wide_add_new (map (Wide.sub_empty Wide.trailing_pattern) links) acc.
Proof.
  revert acc. induction links as [|l links IH]; intros acc; [reflexivity|].
  simpl. rewrite <- IH. reflexivity.
Qed.

Lemma wide_extract_eq (text : list N) :
  Wide.extract_https_links text
  = fold_left wide_add_new (wide_cleaned_matches text) [].
Proof.
  unfold Wide.extract_https_links, wide_cleaned_matches.
  destruct text; [reflexivity|]. apply wide_fold_clean_step.
Qed.

(** *** The two models agree on the Latin-1 range *)

Lemma of_str_inj (a b : str) : Wide.of_str a = Wide.of_str b -> a = b.
Proof.
  revert b. induction a as [|x a IH]; intros [|y b] H;
    try discriminate H; [reflexivity|].
  injection H as Hx H. f_equal; [|exact (IH b H)].
  rewrite <- (ascii_N_embedding x), <- (ascii_N_embedding y), Hx. reflexivity.
Qed.

Lemma agree_forall (p : ascii -> bool) (q : N -> bool) :
  forallb (fun c => Bool.eqb (q (N_of_ascii c)) (p c)) all_ascii = true ->
  forall c, q (N_of_ascii c) = p c.
Proof.
  intros H c. apply eqb_prop.
  exact (ascii_forall (fun c => Bool.eqb (q (N_of_ascii c)) (p c)) H c).
Qed.

Lemma sim_star (p : ascii -> bool) (q : N -> bool) (s : str)
    (k : str -> option str) (kw : list N -> option (list N)) :
  (forall c, q (N_of_ascii c) = p c) ->
  (forall t, kw (Wide.of_str t) = option_map Wide.of_str (k t)) ->
  Wide.star_k q (Wide.of_str s) kw = option_map Wide.of_str (star_k p s k).
Proof.
  intros Hq Hk. induction s as [|c s IH]; [exact (Hk [])|].
  cbn [Wide.of_str map Wide.star_k star_k]. fold (Wide.of_str s).
  rewrite Hq. destruct (p c); [|exact (Hk (c :: s))].
  rewrite IH. destruct (star_k p s k); [reflexivity | exact (Hk (c :: s))].
Qed.

Lemma sim_match (r : regex) (w : Wide.regex) :
  regex_sim r w ->
  forall (s : str) (k : str -> option str) (kw : list N -> option (list N)),
    (forall t, kw (Wide.of_str t) = option_map Wide.of_str (k t)) ->
    Wide.match_k w (Wide.of_str s) kw = option_map Wide.of_str (match_k r s k).
Proof.
  induction 1 as [p q Hq| |r1 r2 w1 w2 H1 IH1 H2 IH2|p q Hq|];
    intros s k kw Hk.
  - destruct s as [|c s]; [reflexivity|].
    cbn [Wide.of_str map Wide.match_k match_k]. fold (Wide.of_str s).
    rewrite Hq. destruct (p c); [apply Hk | reflexivity].
  - apply Hk.
  - cbn [Wide.match_k match_k]. apply IH1. intros t. apply IH2, Hk.
  - destruct s as [|c s]; [reflexivity|].
    cbn [Wide.of_str map Wide.match_k match_k]. fold (Wide.of_str s).
    rewrite Hq. destruct (p c); [apply sim_star; assumption | reflexivity].
  - destruct s as [|c [|d s]]; [exact (Hk []) | | reflexivity].
    cbn [Wide.of_str map Wide.match_k match_k].
    rewrite (agree_forall (fun c => ch_eqb c "010") (fun x => (x =? 10)%N) eq_refl c).
    destruct (ch_eqb c "010"); [exact (Hk [c]) | reflexivity].
Qed.

Lemma sim_match_at (r : regex) (w : Wide.regex) (s : str) :
  regex_sim r w ->
  Wide.match_at w (Wide.of_str s) = option_map Wide.of_str (match_at r s).
Proof. intros H. apply (sim_match r w H). reflexivity. Qed.

Lemma of_str_length (s : str) : length (Wide.of_str s) = length s.
Proof. apply length_map. Qed.

Lemma sim_findall_scan (r : regex) (w : Wide.regex) (s : str) (n : nat) :
  regex_sim r w ->
  Wide.findall_scan w n (Wide.of_str s) = map Wide.of_str (findall_scan r n s).
Proof.
  intros H. revert n. induction s as [|c s IH]; intros n.
  - destruct n as [|n]; [|reflexivity].
    cbn [Wide.of_str map Wide.findall_scan findall_scan].
    change (@nil N) with (Wide.of_str []) at 1.
    rewrite (sim_match_at r w [] H).
    destruct (match_at r []) as [rest|]; reflexivity.
  - destruct n as [|n].
    + change (Wide.findall_scan w 0 (Wide.of_str (c :: s)))
        with (match Wide.match_at w (Wide.of_str (c :: s)) with
              | Some rest =>
                  firstn (length (Wide.of_str (c :: s)) - length rest)
                    (Wide.of_str (c :: s))
                  :: Wide.findall_scan w
                       (length (Wide.of_str (c :: s)) - length rest - 1)
                       (Wide.of_str s)
              | None => Wide.findall_scan w 0 (Wide.of_str s)
              end).
      change (findall_scan r 0 (c :: s))
        with (match match_at r (c :: s) with
              | Some rest =>
                  firstn (length (c :: s) - length rest) (c :: s)
                  :: findall_scan r (length (c :: s) - length rest - 1) s
              | None => findall_scan r 0 s
              end).
      rewrite (sim_match_at r w (c :: s) H).
      destruct (match_at r (c :: s)) as [rest|]; cbn [option_map].
      * rewrite !of_str_length. cbn [map]. rewrite IH. f_equal.
        unfold Wide.of_str. rewrite firstn_map. reflexivity.
      * apply IH.
    + exact (IH n).
Qed.

Lemma sim_sub_scan (r : regex) (w : Wide.regex) (s : str) (n : nat) :
  regex_sim r w ->
  Wide.sub_scan w n (Wide.of_str s) = Wide.of_str (sub_scan r n s).
Proof.
  intros H. revert n. induction s as [|c s IH]; intros n.
  - destruct n as [|n]; [|reflexivity].
    cbn [Wide.of_str map Wide.sub_scan sub_scan].
    change (@nil N) with (Wide.of_str []) at 1.
    rewrite (sim_match_at r w [] H).
    destruct (match_at r []) as [rest|]; reflexivity.
  - destruct n as [|n].
    + change (Wide.sub_scan w 0 (Wide.of_str (c :: s)))
        with (match Wide.match_at w (Wide.of_str (c :: s)) with
              | Some rest =>
                  if length (Wide.of_str (c :: s)) - length rest =? 0
                  then N_of_ascii c :: Wide.sub_scan w 0 (Wide.of_str s)
                  else Wide.sub_scan w
                         (length (Wide.of_str (c :: s)) - length rest - 1)
                         (Wide.of_str s)
              | None => N_of_ascii c :: Wide.sub_scan w 0 (Wide.of_str s)
              end).
      change (sub_scan r 0 (c :: s))
        with (match match_at r (c :: s) with
              | Some rest =>
                  if length (c :: s) - length rest =? 0
                  then c :: sub_scan r 0 s
                  else sub_scan r (length (c :: s) - length rest - 1) s
              | None => c :: sub_scan r 0 s
              end).
      rewrite (sim_match_at r w (c :: s) H).
      destruct (match_at r (c :: s)) as [rest|]; cbn [option_map].
      * rewrite !of_str_length.
        destruct (length (c :: s) - length rest =? 0).
        -- rewrite IH. reflexivity.
        -- apply IH.
      * rewrite IH. reflexivity.
    + exact (IH n).
Qed.

Lemma sim_https_pattern : regex_sim https_pattern Wide.https_pattern.
Proof.
  unfold https_pattern, Wide.https_pattern.
  apply sim_seq.
  - cbv [lit_ci list_ascii_of_string Wide.seq_of Wide.https_prefix
           Wide.any_of chr_ci].
    repeat (first
      [ apply sim_seq
      | match goal with
        | |- regex_sim (Chr ?p) (Wide.Chr ?q) =>
            apply (sim_chr p q); apply (agree_forall p q);
            vm_compute; reflexivity
        end ]).
  - apply sim_plus.
    apply (agree_forall is_link_char Wide.is_link_char). vm_compute. reflexivity.
Qed.

Lemma sim_trailing_pattern : regex_sim trailing_pattern Wide.trailing_pattern.
Proof.
  apply sim_seq; [|apply sim_eos].
  apply sim_plus.
  apply (agree_forall is_trailing_punct Wide.is_trailing_punct).
  vm_compute. reflexivity.
Qed.

Lemma sim_clean_step (cleaned : list str) (link : str) :
  Wide.clean_step (map Wide.of_str cleaned) (Wide.of_str link)
  = map Wide.of_str (clean_step cleaned link).
Proof.
  unfold Wide.clean_step, clean_step, Wide.sub_empty, sub_empty.
  rewrite (sim_sub_scan _ _ link 0 sim_trailing_pattern).
  set (l := sub_scan trailing_pattern 0 link).
  assert (E1 : bool_decide (Wide.of_str l = []) = bool_decide (l = [])).
  { apply bool_decide_ext. split; [|intros ->; reflexivity].
    intros H. destruct l; [reflexivity | discriminate H]. }
  assert (E2 : bool_decide (Wide.of_str l ∈ map Wide.of_str cleaned)
               = bool_decide (l ∈ cleaned)).
  { apply bool_decide_ext. rewrite !list_elem_of_In, in_map_iff. split.
    - intros (x & Hx & Hin). apply of_str_inj in Hx. subst x. exact Hin.
    - intros H. exists l. auto. }
  rewrite E1, E2.
  destruct (negb (bool_decide (l = [])) && negb (bool_decide (l ∈ cleaned)));
    [|reflexivity].
  rewrite map_app. reflexivity.
Qed.

Lemma sim_fold_clean (links cleaned : list str) :
  fold_left Wide.clean_step (map Wide.of_str links) (map Wide.of_str cleaned)
  = map Wide.of_str (fold_left clean_step links cleaned).
Proof.
  revert cleaned. induction links as [|l links IH]; intros cleaned; [reflexivity|].
  cbn [map fold_left]. rewrite sim_clean_step. apply IH.
Qed.

(** On a text of the Latin-1 range the extraction on code points gives the
    links of the extraction on that range. *)
Lemma extract_https_links_agree (text : str) :
  Wide.extract_https_links (Wide.of_str text)
  = map Wide.of_str (extract_https_links text).
Proof.
  unfold Wide.extract_https_links, extract_https_links.
  destruct text as [|c text]; [reflexivity|].
  change (Wide.of_str (c :: text)) with (N_of_ascii c :: Wide.of_str text).
  cbv iota.
  change (N_of_ascii c :: Wide.of_str text) with (Wide.of_str (c :: text)).
  unfold Wide.findall, findall.
  rewrite (sim_findall_scan _ _ (c :: text) 0 sim_https_pattern).
  exact (sim_fold_clean _ []).
Qed.

(** C3. On a text of any code points, [findall] with [https_pattern]
    reports exactly the links of the scan of the specification (each starts
    with the prefix, as the pattern takes it under [re.IGNORECASE], and runs
    up to the first white space, double quote or angle bracket); the
    substitution with [trailing_pattern] removes a whole run of trailing
    punctuation from a link and nothing else; [extract_https_links] applies
    the two in turn; the text of the example gives the two links of the
    example; and on a text of the Latin-1 range the result is the one of
    [extract_https_links] as [process_youtube_url] calls it. *)
Theorem extract_https_links_scan_and_clean :
  (forall text ls,
     WideScan text ls <-> ls = Wide.findall Wide.https_pattern text)
  /\ (forall core run,
        forallb Wide.is_link_char (core ++ run) = true ->
        forallb Wide.is_trailing_punct run = true ->
        wide_ends_clean core ->
        Wide.sub_empty Wide.trailing_pattern (core ++ run) = core)
  /\ (forall text,
        Wide.extract_https_links text
        = fold_left wide_add_new
            (map (Wide.sub_empty Wide.trailing_pattern)
               (Wide.findall Wide.https_pattern text)) [])
  /\ Wide.extract_https_links
       (Wide.of_str "Visit https://a.com/x. Also https://b.com/y),")
     = [Wide.of_str "https://a.com/x"; Wide.of_str "https://b.com/y"]
  /\ (forall text : str,
        Wide.extract_https_links (Wide.of_str text)
        = map Wide.of_str (extract_https_links text))
  /\ extract_https_links "Visit https://a.com/x. Also https://b.com/y),"
     = ["https://a.com/x" : str; "https://b.com/y" : str].
Proof.
  split; [|split; [|split; [|split; [|split]]]].
  - intros text ls. split.
    + intros H. exact (wide_scan_functional text _ _ H (wide_findall_is_scan text)).
    + intros ->. apply wide_findall_is_scan.
  - intros core run Hl Hr Hc.
    rewrite wide_sub_trailing by (apply wide_link_chars_no_newline; exact Hl).
    apply drop_run_end_run; assumption.
  - apply wide_extract_eq.
  - vm_compute. reflexivity.
  - apply extract_https_links_agree.
  - vm_compute. reflexivity.
Qed.

Lemma extract_https_links_scan_and_clean_witness :
  Wide.sub_empty Wide.trailing_pattern
    (Wide.of_str "https://b.com/y" ++ Wide.of_str "),.")
  = Wide.of_str "https://b.com/y".
Proof.
  destruct extract_https_links_scan_and_clean as (_ & H & _).
  apply H; [reflexivity | reflexivity |].
  intros front c E.
  assert (L : last (Wide.of_str "https://b.com/y") = last (front ++ [c]))
    by (rewrite E; reflexivity).
  rewrite last_snoc in L. vm_compute in L. injection L as <-. reflexivity.
Defined.

(** *** What the extraction returns *)

Lemma wide_add_new_members (seen : list (list N)) (l : list N) :
  In l (fold_left wide_add_new seen []) <-> In l seen /\ l <> [].
Proof.
  revert l. induction seen as [|y seen IH] using rev_ind; intros l.
  - simpl. tauto.
  - rewrite fold_left_app. cbn [fold_left]. unfold wide_add_new at 1.
    rewrite in_app_iff. cbn [In].
    destruct (bool_decide (y = [])) eqn:Ey; cbn [negb andb].
    + apply bool_decide_eq_true in Ey. subst y. rewrite IH.
      split; [tauto|]. intros [[H|[<-|[]]] Hl]; [tauto | contradiction].
    + apply bool_decide_eq_false in Ey.
      destruct (bool_decide (y ∈ fold_left wide_add_new seen [])) eqn:Eo;
        cbn [negb].
      * apply bool_decide_eq_true, list_elem_of_In, IH in Eo. rewrite IH.
        split; [tauto|]. intros [[H|[<-|[]]] Hl]; tauto.
      * rewrite in_app_iff, IH. cbn [In].
        split; [intros [H|[<-|[]]]; tauto | tauto].
Qed.

Lemma wide_scan_reports_links (text : list N) (ls : list (list N)) :
  WideScan text ls ->
  forall m, In m ls ->
    exists pfx body, m = pfx ++ body /\ is_https_prefix pfx
      /\ body <> [] /\ forallb Wide.is_link_char body = true.
Proof.
  induction 1 as [|c s ls Hn Hs IH|pfx body tail ls Hl Hb Hp He Hs IH];
    intros m Hm.
  - destruct Hm.
  - apply IH, Hm.
  - destruct Hm as [<-|Hm]; [|apply IH, Hm]. exists pfx, body. auto.
Qed.

Lemma wide_scan_substring (text : list N) (ls : list (list N)) :
  WideScan text ls ->
  forall m, In m ls -> exists pre post, text = pre ++ m ++ post.
Proof.
  induction 1 as [|c s ls Hn Hs IH|pfx body tail ls Hl Hb Hp He Hs IH];
    intros m Hm.
  - destruct Hm.
  - destruct (IH m Hm) as (pre & post & ->). exists (c :: pre), post. reflexivity.
  - destruct Hm as [<-|Hm].
    + exists [], tail. simpl. rewrite <- app_assoc. reflexivity.
    + destruct (IH m Hm) as (pre & post & ->).
      exists (pfx ++ body ++ pre), post. rewrite <- !app_assoc. reflexivity.
Qed.

(** The cleaning of a match keeps the prefix and a part of the run. *)
Lemma wide_clean_link (pfx body : list N) :
  is_https_prefix pfx -> forallb Wide.is_link_char body = true ->
  exists kept,
    Wide.sub_empty Wide.trailing_pattern (pfx ++ body) = pfx ++ kept
    /\ (exists run, body = kept ++ run
          /\ forallb Wide.is_trailing_punct run = true)
    /\ wide_ends_clean (pfx ++ kept).
Proof.
  intros Hl Hb.
  rewrite wide_sub_trailing
    by (apply wide_link_chars_no_newline; rewrite forallb_app, Hb,
          (wide_prefix_link_chars pfx Hl); reflexivity).
  destruct (wide_prefix_ends pfx Hl) as (c0 & mid & c & -> & _ & Hc).
  change (c0 :: mid ++ [c]) with ((c0 :: mid) ++ [c]).
  rewrite (drop_run_end_behind _ (c0 :: mid) c body Hc).
  exists (drop_run_end Wide.is_trailing_punct body).
  split; [reflexivity|]. split.
  - apply drop_run_end_prefix.
  - rewrite <- (drop_run_end_behind _ (c0 :: mid) c body Hc).
    intros f x E. exact (drop_run_end_ends _ _ f x E).
Qed.

Lemma wide_cleaned_matches_nonempty (text : list N) (l : list N) :
  In l (wide_cleaned_matches text) -> l <> [].
Proof.
  unfold wide_cleaned_matches. rewrite in_map_iff. intros (m & <- & Hm).
  destruct (wide_scan_reports_links _ _ (wide_findall_is_scan text) m Hm)
    as (pfx & body & -> & Hl & Hb & Hp).
  destruct (wide_clean_link pfx body Hl Hp) as (kept & -> & _ & _).
  pose proof (https_prefix_length8 pfx Hl).
  destruct pfx; [discriminate | discriminate].
Qed.

Lemma wide_extract_members (text l : list N) :
  In l (Wide.extract_https_links text) <-> In l (wide_cleaned_matches text).
Proof.
  rewrite wide_extract_eq, wide_add_new_members.
  split; [tauto|]. intros H. split; [exact H|].
  exact (wide_cleaned_matches_nonempty text l H).
Qed.

(** X10. On a text of any code points, every link [extract_https_links]
    returns starts with [https://] as the pattern takes it under
    [re.IGNORECASE] (each letter in either case, the [s] also as U+017F,
    the long s), consists of link characters only (no white space, angle
    bracket or double quote), does not end in one of the trailing
    punctuation characters, and occurs in the text as it is. *)
Theorem extracted_link_shape (text l : list N) :
  In l (Wide.extract_https_links text) ->
  (exists pfx rest, l = pfx ++ rest /\ is_https_prefix pfx)
  /\ forallb Wide.is_link_char l = true
  /\ wide_ends_clean l
  /\ (exists pre post, text = pre ++ l ++ post).
Proof.
  intros H. apply wide_extract_members in H.
  unfold wide_cleaned_matches in H. apply in_map_iff in H.
  destruct H as (m & <- & Hm).
  destruct (wide_scan_reports_links _ _ (wide_findall_is_scan text) m Hm)
    as (pfx & body & -> & Hl & Hb & Hp).
  destruct (wide_clean_link pfx body Hl Hp)
    as (kept & -> & (run & Hrun & Hr) & Hc).
  split; [exists pfx, kept; auto|]. split; [|split; [exact Hc|]].
  - rewrite forallb_app, (wide_prefix_link_chars pfx Hl). simpl.
    rewrite Hrun, forallb_app in Hp. apply andb_true_iff in Hp. tauto.
  - destruct (wide_scan_substring _ _ (wide_findall_is_scan text) _ Hm)
      as (pre & post & E).
    exists pre, (run ++ post).
    rewrite E, Hrun, <- !app_assoc. reflexivity.
Qed.

Lemma extracted_link_shape_witness :
  let link := Wide.of_str "http" ++ [383%N] ++ Wide.of_str "://a.com/x" in
  is_https_prefix (firstn 8 link)
  /\ wide_ends_clean link.
Proof.
  intros link.
  destruct (extracted_link_shape
              (Wide.of_str "see " ++ link ++ Wide.of_str ").") link)
    as ((pfx & rest & E & Hp) & _ & H & _).
  - vm_compute. left. reflexivity.
  - split; [|exact H].
    pose proof (https_prefix_length8 pfx Hp) as L.
    rewrite E, <- L, take_app_length. exact Hp.
Defined.

Lemma wide_scan_nil_iff (text : list N) :
  WideScan text [] <-> (forall pre s, text = pre ++ s -> ~ wide_starts_link s).
Proof.
  split.
  - intros H. remember [] as ls eqn:E.
    induction H as [|c s ls Hn Hs IH|]; [|subst ls|discriminate E].
    + intros pre s E' (pfx & c & rest & -> & Hl & _).
      destruct pre; destruct pfx; discriminate.
    + intros pre s0 E'. destruct pre as [|x pre].
      * simpl in E'. subst s0. exact Hn.
      * injection E' as _ E'. exact (IH eq_refl pre s0 E').
  - induction text as [|c s IH]; intros H; [apply wide_scan_end|].
    apply wide_scan_skip; [exact (H [] (c :: s) eq_refl)|].
    apply IH. intros pre s0 ->. exact (H (c :: pre) s0 eq_refl).
Qed.

(** X12. On a text of any code points, [extract_https_links] returns the
    empty list exactly when no link starts at any position of the text:
    nowhere is there the prefix [https://], as the pattern takes it under
    [re.IGNORECASE], with a link character behind it. *)
Theorem no_links_iff (text : list N) :
  Wide.extract_https_links text = [] <->
  (forall pre s, text = pre ++ s -> ~ wide_starts_link s).
Proof.
  rewrite <- wide_scan_nil_iff. split.
  - intros H.
    assert (E : Wide.findall Wide.https_pattern text = []).
    { destruct (Wide.findall Wide.https_pattern text) as [|m ms] eqn:F;
        [reflexivity|].
      assert (Hin : In (Wide.sub_empty Wide.trailing_pattern m)
                      (Wide.extract_https_links text)).
      { apply wide_extract_members. unfold wide_cleaned_matches.
        rewrite F. left. reflexivity. }
      rewrite H in Hin. destruct Hin. }
    rewrite <- E. apply wide_findall_is_scan.
  - intros H.
    pose proof (wide_scan_functional _ _ _ H (wide_findall_is_scan text)) as E.
    rewrite wide_extract_eq. unfold wide_cleaned_matches. rewrite <- E.
    reflexivity.
Qed.
